(** * Authentication test doubles of [backend_common.testing]

    A shallow embedding of [lib/backend_common/backend_common/testing.py]:
    the fake Hawk header codec ([build_header], [parse_header]), the
    Taskcluster responder ([mock_auth_taskcluster]), the auth0 userinfo
    responder ([mock_auth_auth0]) and the application configuration
    ([get_app_config]), together with the parts of the Python
    standard library they call ([re.findall] for the one pattern used,
    [base64], [json], UTF-8, SHA-1, [datetime], [urllib.parse]).

    Conventions.
    - A Python [str] is a list of Unicode code points ([N]); a [bytes]
      object is a list of byte values ([N] below 256).
    - A Python exception is a value [Exc cls msg]; code that may raise
      returns a [result].  [str(e)] is the message.
    - Python dictionaries keep insertion order and have unique keys: they are
      association lists built with [dict_set]. *)

From Stdlib Require Import String Ascii.
From Stdlib Require Import List NArith ZArith Bool Lia.
From Stdlib Require Import Permutation Sorted.
Import ListNotations.

Set Warnings "-register-all".

Local Open Scope N_scope.
Local Open Scope list_scope.

(* ------------------------------------------------------------------ *)
(** ** Text *)

Abbreviation char := N (only parsing).
Abbreviation str := (list N) (only parsing).
Abbreviation bytes := (list N) (only parsing).

(** A literal of the source, as code points. *)
Definition py (s : string) : str :=
  map N_of_ascii (list_ascii_of_string s).

Fixpoint str_eqb (a b : str) : bool :=
  match a, b with
  | [], [] => true
  | x :: a', y :: b' => (x =? y) && str_eqb a' b'
  | _, _ => false
  end.

(** [s.startswith(p)]: the rest of [s] after the prefix [p], if any. *)
Fixpoint strip_prefix (p s : str) : option str :=
  match p, s with
  | [], _ => Some s
  | x :: p', y :: s' => if x =? y then strip_prefix p' s' else None
  | _ :: _, [] => None
  end.

Definition startswith (s p : str) : bool :=
  match strip_prefix p s with Some _ => true | None => false end.

(** The longest prefix whose characters satisfy [p], and the rest. *)
Fixpoint span (p : char -> bool) (s : str) : str * str :=
  match s with
  | c :: s' =>
      if p c then let (a, b) := span p s' in (c :: a, b) else ([], s)
  | [] => ([], [])
  end.

(** [sep.join(l)] *)
Fixpoint join (sep : str) (l : list str) : str :=
  match l with
  | [] => []
  | [x] => x
  | x :: l' => x ++ sep ++ join sep l'
  end.

(** [s.split(sep)] for a one-character separator: the pieces between the
    occurrences of [sep], the last one possibly empty; never an empty list. *)
Fixpoint split_on (sep : char) (s : str) : list str :=
  match s with
  | [] => [[]]
  | c :: s' =>
      if c =? sep then [] :: split_on sep s'
      else match split_on sep s' with
           | x :: l => (c :: x) :: l
           | [] => [[c]]
           end
  end.

(* ------------------------------------------------------------------ *)
(** ** Exceptions *)

Inductive exc_class :=
| Exception_         (* raise Exception(...) in the source *)
| KeyError
| IndexError
| TypeError
| AttributeError
| ValueError         (* also binascii.Error and JSONDecodeError, its subclasses *)
| UnicodeError       (* UnicodeEncodeError, UnicodeDecodeError *)
| OverflowError.

Inductive exc := Exc (cls : exc_class) (msg : str).

Definition exc_msg (e : exc) : str := let (_, m) := e in m.
Definition exc_cls (e : exc) : exc_class := let (c, _) := e in c.

Inductive result (A : Type) :=
| Ok (a : A)
| Raise (e : exc).
Arguments Ok {A} a.
Arguments Raise {A} e.

Definition bind {A B} (r : result A) (k : A -> result B) : result B :=
  match r with
  | Ok a => k a
  | Raise e => Raise e
  end.

Notation "x <- r ;; k" := (bind r (fun x => k))
  (at level 61, r at next level, right associativity).
Notation "' p <- r ;; k" := (bind r (fun x => let p := x in k))
  (at level 61, p pattern, r at next level, right associativity).

Definition raise {A} (cls : exc_class) (msg : string) : result A :=
  Raise (Exc cls (py msg)).

Definition is_ok {A} (r : result A) : bool :=
  match r with Ok _ => true | Raise _ => false end.

(* ------------------------------------------------------------------ *)
(** ** Dictionaries *)

Section Dict.
Context {V : Type}.

Definition dict := list (str * V).

Fixpoint dict_get (k : str) (d : dict) : option V :=
  match d with
  | [] => None
  | (k', v) :: d' => if str_eqb k k' then Some v else dict_get k d'
  end.

Definition dict_mem (k : str) (d : dict) : bool :=
  match dict_get k d with Some _ => true | None => false end.

(** [d[k] = v]: an existing key keeps its place, a new one goes last. *)
Fixpoint dict_set (k : str) (v : V) (d : dict) : dict :=
  match d with
  | [] => [(k, v)]
  | (k', v') :: d' =>
      if str_eqb k k' then (k', v) :: d' else (k', v') :: dict_set k v d'
  end.

(** [dict(pairs)] *)
Definition dict_of_pairs (l : list (str * V)) : dict :=
  fold_left (fun d kv => dict_set (fst kv) (snd kv) d) l [].

(** [d[k]] *)
Definition dict_getitem (k : str) (d : dict) : result V :=
  match dict_get k d with
  | Some v => Ok v
  | None => Raise (Exc KeyError (py "'" ++ k ++ py "'"))
  end.
End Dict.
Arguments dict V : clear implicits.

(* ------------------------------------------------------------------ *)
(** ** The model *)

Record netloc_checks := NetlocChecks {
  netloc_error : str -> option str
}.

Section Testing.

(** [str.isalnum] on the code points above U+007F.  It is read from the
    Unicode character database, which is data of the interpreter and not of
    this repository; all results hold whatever it answers. *)
Variable unicode_alnum : char -> bool.

(** The checks of a network location for which [urllib.parse.urlsplit]
    calls the address parser or the Unicode database: of the host between
    brackets ([_check_bracketed_netloc], where the interpreter has it) and
    of the characters that NFKC normalisation turns into delimiters
    ([_checknetloc]).  The answer is the message of the [ValueError] they
    raise, or [None] when they pass; like the database, the checks are
    code of the interpreter, and all results hold whatever they answer. *)
Variable interpreter : netloc_checks.

(** *** Character classes of the header pattern *)

Definition in_range (lo hi c : N) : bool := (lo <=? c) && (c <=? hi).

Definition is_digit (c : char) : bool := in_range 48 57 c.

(** [s.isascii()] *)
Definition is_ascii (s : str) : bool := forallb (fun c => c <? 128) s.

Definition ascii_alnum (c : char) : bool :=
  is_digit c || in_range 65 90 c || in_range 97 122 c.

(** [\w] of a [str] pattern: alphanumeric or underscore. *)
Definition is_word (c : char) : bool :=
  if c <? 128 then ascii_alnum c || (c =? 95) else unicode_alnum c.

(** [[\w=\.\@\-_/]] *)
Definition is_val (c : char) : bool :=
  is_word c ||
  (c =? 61) || (c =? 46) || (c =? 64) || (c =? 45) || (c =? 95) || (c =? 47).

Definition dquote : char := 34.
Definition equals : char := 61.

(** *** [re.findall] with the pattern of [parse_header]

    The pattern is: group 1, one or more word characters; an equals sign
    and a double quote; group 2, one or more value characters; a double
    quote.

    [match_here] is one match attempt at the start of [s], with greedy
    runs.  Greedy is exact here: the run of word characters cannot be
    shortened, as the character after the key must be the equals sign,
    which is not a word character; the value cannot be shortened, as the
    character after it must be the double quote, which is not a value
    character ([match_here_iff] below).  The result is the two groups and
    the text after the match. *)
Definition match_here (s : str) : option (str * str * str) :=
  let (k, r1) := span is_word s in
  match k, strip_prefix [equals; dquote] r1 with
  | _ :: _, Some r2 =>
      let (v, r3) := span is_val r2 in
      match v, r3 with
      | _ :: _, c :: r4 => if c =? dquote then Some (k, v, r4) else None
      | _, _ => None
      end
  | _, _ => None
  end.

(** The scan of [findall]: the matches from left to right, the search
    resuming after a match, or one character further where there is none.
    [fuel] bounds the number of attempts. *)
Fixpoint findall_fuel (fuel : nat) (s : str) : list (str * str) :=
  match fuel with
  | O => []
  | S fuel' =>
      match match_here s with
      | Some (k, v, rest) => (k, v) :: findall_fuel fuel' rest
      | None =>
          match s with
          | [] => []
          | _ :: s' => findall_fuel fuel' s'
          end
      end
  end.

Definition findall (s : str) : list (str * str) :=
  findall_fuel (S (length s)) s.

(** *** [str(n)] for an [int] *)

Fixpoint dec_digits (fuel : nat) (n : N) (acc : str) : str :=
  match fuel with
  | O => acc
  | S fuel' =>
      let acc' := (48 + n mod 10) :: acc in
      if n <? 10 then acc' else dec_digits fuel' (n / 10) acc'
  end.

Definition str_of_N (n : N) : str :=
  dec_digits (S (N.to_nat (N.log2 n))) n [].

Definition str_of_Z (z : Z) : str :=
  match z with
  | Zneg p => 45 :: str_of_N (Npos p)
  | _ => str_of_N (Z.to_N z)
  end.

(** *** Hexadecimal digits, lower case *)

Definition hex_digit (n : N) : char :=
  let d := n mod 16 in if d <? 10 then 48 + d else 87 + d.

(** [n] on [k] hexadecimal digits, the most significant first. *)
Fixpoint hex_fixed (k : nat) (n : N) : str :=
  match k with
  | O => []
  | S k' => hex_fixed k' (n / 16) ++ [hex_digit n]
  end.

(** *** UTF-8 *)

Definition is_surrogate (c : char) : bool := in_range 55296 57343 c.

Definition utf8_encode_char (c : char) : result bytes :=
  if c <? 128 then Ok [c]
  else if c <? 2048 then Ok [192 + c / 64; 128 + c mod 64]
  else if c <? 65536 then
    if is_surrogate c then raise UnicodeError "surrogates not allowed"
    else Ok [224 + c / 4096; 128 + (c / 64) mod 64; 128 + c mod 64]
  else if c <? 1114112 then
    Ok [240 + c / 262144; 128 + (c / 4096) mod 64;
        128 + (c / 64) mod 64; 128 + c mod 64]
  else raise UnicodeError "code point out of range".

(** [s.encode('utf-8')] *)
Fixpoint utf8_encode (s : str) : result bytes :=
  match s with
  | [] => Ok []
  | c :: s' =>
      b <- utf8_encode_char c ;;
      r <- utf8_encode s' ;;
      Ok (b ++ r)
  end.

Definition is_cont (b : N) : bool := in_range 128 191 b.

(** [b.decode('utf-8')], strict: overlong forms, surrogates and code
    points above U+10FFFF are refused. *)
Fixpoint utf8_decode (b : bytes) : result str :=
  let bad := raise UnicodeError "invalid utf-8" in
  match b with
  | [] => Ok []
  | b0 :: r0 =>
      if b0 <? 128 then
        s <- utf8_decode r0 ;; Ok (b0 :: s)
      else if in_range 192 223 b0 then
        match r0 with
        | b1 :: r1 =>
            let c := (b0 - 192) * 64 + (b1 - 128) in
            if is_cont b1 && (128 <=? c) then
              s <- utf8_decode r1 ;; Ok (c :: s)
            else bad
        | _ => bad
        end
      else if in_range 224 239 b0 then
        match r0 with
        | b1 :: b2 :: r2 =>
            let c := (b0 - 224) * 4096 + (b1 - 128) * 64 + (b2 - 128) in
            if is_cont b1 && is_cont b2 && (2048 <=? c)
               && negb (is_surrogate c) then
              s <- utf8_decode r2 ;; Ok (c :: s)
            else bad
        | _ => bad
        end
      else if in_range 240 247 b0 then
        match r0 with
        | b1 :: b2 :: b3 :: r3 =>
            let c := (b0 - 240) * 262144 + (b1 - 128) * 4096
                     + (b2 - 128) * 64 + (b3 - 128) in
            if is_cont b1 && is_cont b2 && is_cont b3 && (65536 <=? c)
               && (c <? 1114112) then
              s <- utf8_decode r3 ;; Ok (c :: s)
            else bad
        | _ => bad
        end
      else bad
  end.

(** *** [base64] *)

(** The character of a 6-bit value in the standard alphabet. *)
Definition b64_char (n : N) : char :=
  if n <? 26 then 65 + n
  else if n <? 52 then 71 + n
  else if n <? 62 then n - 4
  else if n =? 62 then 43
  else 47.

(** [binascii.b2a_base64] without the newline: three bytes give four
    characters; a last group of one or two bytes is padded. *)
Fixpoint b64encode_bytes (b : bytes) : str :=
  match b with
  | [] => []
  | [x] => [b64_char (x / 4); b64_char ((x mod 4) * 16); 61; 61]
  | [x; y] =>
      [b64_char (x / 4); b64_char ((x mod 4) * 16 + y / 16);
       b64_char ((y mod 16) * 4); 61]
  | x :: y :: z :: b' =>
      b64_char (x / 4) :: b64_char ((x mod 4) * 16 + y / 16)
      :: b64_char ((y mod 16) * 4 + z / 64) :: b64_char (z mod 64)
      :: b64encode_bytes b'
  end.

(** [base64.b64encode(b).decode('utf-8')]: the output is ASCII. *)
Definition b64encode (b : bytes) : str := b64encode_bytes b.

(** The 6-bit value of an alphabet character. *)
Definition b64_value (c : char) : option N :=
  if in_range 65 90 c then Some (c - 65)
  else if in_range 97 122 c then Some (c - 71)
  else if in_range 48 57 c then Some (c + 4)
  else if c =? 43 then Some 62
  else if c =? 47 then Some 63
  else None.

(** The state of the decoder of [binascii.a2b_base64]: the position in
    the current group of four, the bits left over from the previous
    character, the pad characters seen since the last data character, and
    the bytes written, the last one first. *)
Record a2b_state := A2B {
  quad_pos : N;
  leftchar : N;
  pads : N;
  written : bytes
}.

(** The loop of [binascii.a2b_base64] (not strict): characters outside
    the alphabet are skipped; a pad character ends the input once the
    group, with the pads, is complete, and is skipped otherwise.  The
    result is the final state and whether the loop ended on padding. *)
Fixpoint a2b_loop (s : str) (st : a2b_state) : a2b_state * bool :=
  match s with
  | [] => (st, false)
  | c :: s' =>
      if c =? 61 then
        let p := pads st + 1 in
        if (2 <=? quad_pos st) && (4 <=? quad_pos st + p) then (st, true)
        else
          if 2 <=? quad_pos st
          then a2b_loop s' (A2B (quad_pos st) (leftchar st) p (written st))
          else a2b_loop s' st
      else
        match b64_value c with
        | None => a2b_loop s' st
        | Some v =>
            let l := leftchar st in
            let w := written st in
            a2b_loop s'
              (if quad_pos st =? 0 then A2B 1 v 0 w
               else if quad_pos st =? 1
               then A2B 2 (v mod 16) 0 ((l * 4 + v / 16) :: w)
               else if quad_pos st =? 2
               then A2B 3 (v mod 4) 0 ((l * 16 + v / 4) :: w)
               else A2B 0 0 0 ((l * 64 + v) :: w))
        end
  end.

Definition a2b_base64 (s : str) : result bytes :=
  let (st, padded) := a2b_loop s (A2B 0 0 0 []) in
  if padded || (quad_pos st =? 0) then Ok (rev (written st))
  else if quad_pos st =? 1
  then raise ValueError "Invalid base64-encoded string"
  else raise ValueError "Incorrect padding".

(** [base64.b64decode(s)] for a [str] argument: the text must be ASCII. *)
Definition b64decode (s : str) : result bytes :=
  if forallb (fun c => c <? 128) s then a2b_base64 s
  else raise ValueError "string argument should contain only ASCII characters".

(** *** SHA-1 *)

Definition w32 (x : N) : N := x mod 4294967296.

Definition rotl (k x : N) : N :=
  w32 (N.lor (N.shiftl x k) (N.shiftr x (32 - k))).

Definition not32 (x : N) : N := N.lxor x 4294967295.

(** Four bytes as a 32-bit word, big endian. *)
Definition be32 (a b c d : N) : N := ((a * 256 + b) * 256 + c) * 256 + d.

(** The bytes of [n] on [k] bytes, big endian. *)
Fixpoint be_bytes (k : nat) (n : N) : bytes :=
  match k with
  | O => []
  | S k' => be_bytes k' (n / 256) ++ [n mod 256]
  end.

(** The message, a bit 1, zeros up to 56 modulo 64, the bit length on
    eight bytes. *)
Definition sha1_pad (m : bytes) : bytes :=
  let len := N.of_nat (length m) in
  let zeros := N.to_nat ((119 - len mod 64) mod 64) in
  m ++ [128] ++ repeat 0 zeros ++ be_bytes 8 (8 * len).

Fixpoint words_of (fuel : nat) (b : bytes) : list N :=
  match fuel, b with
  | S f, a :: b1 :: c :: d :: r => be32 a b1 c d :: words_of f r
  | _, _ => []
  end.

(** The message schedule, the most recent word first: [sched] holds
    [W(t-1), W(t-2), ...]. *)
Fixpoint extend_sched (n : nat) (sched : list N) : list N :=
  match n with
  | O => sched
  | S n' =>
      let w := rotl 1 (N.lxor (N.lxor (nth 2 sched 0) (nth 7 sched 0))
                              (N.lxor (nth 13 sched 0) (nth 15 sched 0))) in
      extend_sched n' (w :: sched)
  end.

Definition sha1_f (t : nat) (b c d : N) : N :=
  if Nat.ltb t 20 then N.lor (N.land b c) (N.land (not32 b) d)
  else if Nat.ltb t 40 then N.lxor (N.lxor b c) d
  else if Nat.ltb t 60
  then N.lor (N.lor (N.land b c) (N.land b d)) (N.land c d)
  else N.lxor (N.lxor b c) d.

Definition sha1_k (t : nat) : N :=
  if Nat.ltb t 20 then 1518500249
  else if Nat.ltb t 40 then 1859775393
  else if Nat.ltb t 60 then 2400959708
  else 3395469782.

Definition sha1_state := (N * N * N * N * N)%type.

Fixpoint sha1_rounds (t : nat) (ws : list N) (st : sha1_state)
  : sha1_state :=
  match ws with
  | [] => st
  | w :: ws' =>
      let '(a, b, c, d, e) := st in
      let tmp := w32 (rotl 5 a + sha1_f t b c d + e + sha1_k t + w) in
      sha1_rounds (S t) ws' (tmp, a, rotl 30 b, c, d)
  end.

Definition sha1_block (st : sha1_state) (block : bytes) : sha1_state :=
  let ws := rev (extend_sched 64 (rev (words_of 16 block))) in
  let '(a, b, c, d, e) := st in
  let '(a', b', c', d', e') := sha1_rounds 0 ws st in
  (w32 (a + a'), w32 (b + b'), w32 (c + c'), w32 (d + d'), w32 (e + e')).

Fixpoint sha1_blocks (n : nat) (st : sha1_state) (b : bytes) : sha1_state :=
  match n with
  | O => st
  | S n' => sha1_blocks n' (sha1_block st (firstn 64 b)) (skipn 64 b)
  end.

Definition sha1_init : sha1_state :=
  (1732584193, 4023233417, 2562383102, 271733878, 3285377520).

(** [hashlib.sha1(m).hexdigest()] *)
Definition sha1_hexdigest (m : bytes) : str :=
  let p := sha1_pad m in
  let '(a, b, c, d, e) := sha1_blocks (length p / 64) sha1_init p in
  hex_fixed 8 a ++ hex_fixed 8 b ++ hex_fixed 8 c ++ hex_fixed 8 d
  ++ hex_fixed 8 e.

(** Rendering of a [str] of the model as a Rocq string, for examples
    (characters above 255 are truncated). *)
Definition show (s : str) : string :=
  string_of_list_ascii (map ascii_of_N s).

(** *** JSON values

    The values [json.loads] builds and [json.dumps] accepts: [None],
    [bool], [int], [float], [str], [list] and [dict] with [str] keys.
    Floating point arithmetic is outside the model: a float is kept as
    the text of its literal, where [json.dumps] writes the notation of
    Python for its value (1.5 for 1.50, 100.0 for 1e2).  So the text of
    [dumps] is the text of [json.dumps] on values without floats
    ([float_free], [plain_json]), and on a float that is written as
    Python writes it. *)
Inductive json :=
| JNull
| JBool (b : bool)
| JInt (z : Z)
| JFloat (lit : str)
| JStr (s : str)
| JArr (l : list json)
| JObj (d : list (str * json)).

(** *** [json.dumps] (default separators, [ensure_ascii]) *)

Definition escape_char (c : char) : str :=
  if c =? 34 then [92; 34]
  else if c =? 92 then [92; 92]
  else if c =? 10 then [92; 110]
  else if c =? 13 then [92; 114]
  else if c =? 9 then [92; 116]
  else if c =? 8 then [92; 98]
  else if c =? 12 then [92; 102]
  else if in_range 32 126 c then [c]
  else if c <? 65536 then 92 :: 117 :: hex_fixed 4 c
  else
    let n := c - 65536 in
    (92 :: 117 :: hex_fixed 4 (55296 + (n / 1024) mod 1024))
    ++ (92 :: 117 :: hex_fixed 4 (56320 + n mod 1024)).

Definition encode_string (s : str) : str :=
  34 :: flat_map escape_char s ++ [34].

(** Order of [str]: by code points, a proper prefix first. *)
Fixpoint str_leb (a b : str) : bool :=
  match a, b with
  | [], _ => true
  | _ :: _, [] => false
  | x :: a', y :: b' => (x <? y) || ((x =? y) && str_leb a' b')
  end.

(** [sorted(items)] on the keys (the keys of a dictionary are distinct,
    so the values are never compared). *)
Fixpoint insert_item {V} (kv : str * V) (l : list (str * V))
  : list (str * V) :=
  match l with
  | [] => [kv]
  | kv' :: l' =>
      if str_leb (fst kv) (fst kv') then kv :: l
      else kv' :: insert_item kv l'
  end.

Definition sort_items {V} (l : list (str * V)) : list (str * V) :=
  fold_right insert_item [] l.

Definition item_sep : str := [44; 32].
Definition key_sep : str := [58; 32].

Definition dumps_item (kv : str * str) : str :=
  encode_string (fst kv) ++ key_sep ++ snd kv.

Fixpoint dumps (sort_keys : bool) (v : json) : str :=
  match v with
  | JNull => py "null"
  | JBool true => py "true"
  | JBool false => py "false"
  | JInt z => str_of_Z z
  | JFloat lit => lit
  | JStr s => encode_string s
  | JArr l => 91 :: join item_sep (map (fun x => dumps sort_keys x) l) ++ [93]
  | JObj d =>
      let items := map (fun kv : str * json => let (k, x) := kv in
                                  (k, dumps sort_keys x)) d in
      let items := if sort_keys then sort_items items else items in
      123 :: join item_sep (map dumps_item items) ++ [125]
  end.

Definition json_dumps (v : json) : str := dumps false v.

(** *** [json.loads] *)

Definition is_ws (c : char) : bool :=
  (c =? 32) || (c =? 9) || (c =? 10) || (c =? 13).

Fixpoint skip_ws (s : str) : str :=
  match s with
  | c :: s' => if is_ws c then skip_ws s' else s
  | [] => []
  end.

Definition hex_value (c : char) : option N :=
  if is_digit c then Some (c - 48)
  else if in_range 97 102 c then Some (c - 87)
  else if in_range 65 70 c then Some (c - 55)
  else None.

Definition hex4 (a b c d : char) : option N :=
  match hex_value a, hex_value b, hex_value c, hex_value d with
  | Some x, Some y, Some z, Some t => Some (((x * 16 + y) * 16 + z) * 16 + t)
  | _, _, _, _ => None
  end.

Definition unescape (e : char) : option char :=
  if e =? 34 then Some 34
  else if e =? 92 then Some 92
  else if e =? 47 then Some 47
  else if e =? 98 then Some 8
  else if e =? 102 then Some 12
  else if e =? 110 then Some 10
  else if e =? 114 then Some 13
  else if e =? 116 then Some 9
  else None.

Definition cons_res (c : char) (r : option (str * str))
  : option (str * str) :=
  match r with
  | Some (s, rest) => Some (c :: s, rest)
  | None => None
  end.

(** The body of a string, after its opening quote (strict mode): the
    decoded text and what follows the closing quote.  A high surrogate
    escape followed by a low surrogate escape is one character. *)
Fixpoint scanstring (s : str) : option (str * str) :=
  match s with
  | [] => None
  | c :: r =>
      if c =? 34 then Some ([], r)
      else if c =? 92 then
        match r with
        | [] => None
        | e :: r1 =>
            if e =? 117 then
              match r1 with
              | a :: b :: c1 :: d :: r2 =>
                  match hex4 a b c1 d with
                  | None => None
                  | Some n =>
                      if in_range 55296 56319 n then
                        match r2 with
                        | bs :: u :: a2 :: b2 :: c2 :: d2 :: r3 =>
                            match (if (bs =? 92) && (u =? 117)
                                   then hex4 a2 b2 c2 d2 else None) with
                            | Some n2 =>
                                if in_range 56320 57343 n2
                                then cons_res
                                       (65536 + (n - 55296) * 1024
                                        + (n2 - 56320))
                                       (scanstring r3)
                                else cons_res n (scanstring r2)
                            | None => cons_res n (scanstring r2)
                            end
                        | _ => cons_res n (scanstring r2)
                        end
                      else cons_res n (scanstring r2)
                  end
              | _ => None
              end
            else
              match unescape e with
              | Some x => cons_res x (scanstring r1)
              | None => None
              end
        end
      else if c <? 32 then None
      else cons_res c (scanstring r)
  end.

(** The value of a run of decimal digits. *)
Definition digits_value (s : str) : N :=
  fold_left (fun a d => a * 10 + (d - 48)) s 0.

(** The fraction of a number at the start of [s], if any: a dot and one or
    more digits. *)
Definition scan_frac (s : str) : str * str :=
  match s with
  | dot :: d :: _ =>
      if (dot =? 46) && is_digit d
      then let (f, r) := span is_digit (tl s) in (dot :: f, r)
      else ([], s)
  | _ => ([], s)
  end.

(** The exponent of a number at the start of [s], if any: the letter e, an
    optional sign, and one or more digits. *)
Definition scan_exp (s : str) : str * str :=
  match s with
  | e :: r =>
      if (e =? 101) || (e =? 69) then
        let (sg, r') := match r with
                        | g :: r' => if (g =? 43) || (g =? 45)
                                     then ([g], r') else ([], r)
                        | [] => ([], r)
                        end in
        match span is_digit r' with
        | ([], _) => ([], s)
        | (ds, r'') => (e :: sg ++ ds, r'')
        end
      else ([], s)
  | [] => ([], s)
  end.

(** A number at the start of [s]: an optional minus sign, an integer part
    without leading zero, an optional fraction, an optional exponent.  With
    a fraction or an exponent the number is a float. *)
Definition scan_number (s : str) : option (json * str) :=
  let (neg, s1) := match s with
                   | c :: r => if c =? 45 then (true, r) else (false, s)
                   | [] => (false, s)
                   end in
  match s1 with
  | [] => None
  | c :: r =>
      if is_digit c then
        let (ip, s2) := if c =? 48 then ([c], r) else span is_digit s1 in
        let (frac, s3) := scan_frac s2 in
        let (ex, s4) := scan_exp s3 in
        match frac, ex with
        | [], [] =>
            let n := Z.of_N (digits_value ip) in
            Some (JInt (if neg then (- n)%Z else n), s4)
        | _, _ =>
            Some (JFloat ((if neg then [45] else []) ++ ip ++ frac ++ ex), s4)
        end
      else None
  end.

(** [scan_once]: one value at the start of [s] and the text after it.
    [parse_array] and [parse_object] read the items that follow an opening
    bracket or brace; [acc] holds the items read so far, the last first.
    [fuel] bounds the depth of the calls. *)
Fixpoint scan_once (fuel : nat) (s : str) : option (json * str) :=
  match fuel with
  | O => None
  | S f =>
      match s with
      | [] => None
      | c :: r =>
          if c =? 34 then
            match scanstring r with
            | Some (x, r') => Some (JStr x, r')
            | None => None
            end
          else if c =? 123 then
            match skip_ws r with
            | c' :: r' =>
                if c' =? 125 then Some (JObj [], r')
                else parse_object f (c' :: r') []
            | [] => None
            end
          else if c =? 91 then
            match skip_ws r with
            | c' :: r' =>
                if c' =? 93 then Some (JArr [], r')
                else parse_array f (c' :: r') []
            | [] => None
            end
          else
            match strip_prefix (py "null") s with
            | Some r' => Some (JNull, r')
            | None =>
            match strip_prefix (py "true") s with
            | Some r' => Some (JBool true, r')
            | None =>
            match strip_prefix (py "false") s with
            | Some r' => Some (JBool false, r')
            | None =>
            match strip_prefix (py "NaN") s with
            | Some r' => Some (JFloat (py "NaN"), r')
            | None =>
            match strip_prefix (py "Infinity") s with
            | Some r' => Some (JFloat (py "Infinity"), r')
            | None =>
            match strip_prefix (py "-Infinity") s with
            | Some r' => Some (JFloat (py "-Infinity"), r')
            | None => scan_number s
            end end end end end end
      end
  end

with parse_array (fuel : nat) (s : str) (acc : list json)
  : option (json * str) :=
  match fuel with
  | O => None
  | S f =>
      match scan_once f s with
      | None => None
      | Some (x, r) =>
          match skip_ws r with
          | c :: r' =>
              if c =? 93 then Some (JArr (rev (x :: acc)), r')
              else if c =? 44 then parse_array f (skip_ws r') (x :: acc)
              else None
          | [] => None
          end
      end
  end

with parse_object (fuel : nat) (s : str) (acc : list (str * json))
  : option (json * str) :=
  match fuel with
  | O => None
  | S f =>
      match s with
      | q :: s1 =>
          if q =? 34 then
            match scanstring s1 with
            | None => None
            | Some (k, r) =>
                match skip_ws r with
                | colon :: r1 =>
                    if colon =? 58 then
                      match scan_once f (skip_ws r1) with
                      | None => None
                      | Some (x, r2) =>
                          match skip_ws r2 with
                          | c :: r' =>
                              if c =? 125
                              then Some (JObj (dict_of_pairs
                                                 (rev ((k, x) :: acc))), r')
                              else if c =? 44
                              then parse_object f (skip_ws r')
                                                ((k, x) :: acc)
                              else None
                          | [] => None
                          end
                      end
                    else None
                | [] => None
                end
            end
          else None
      | [] => None
      end
  end.

(** [json.loads(s)] for a [str]: one value, white space around it
    allowed, nothing else.  The text of the error is not modelled (it
    carries a position and is never read by the source).  The limits of
    the interpreter are outside the model too: the recursion limit, which
    bounds the nesting, and the cap on the digits of an integer (4300
    from CPython 3.11 on).  [json_loads s = Ok v] stands for
    [json.loads(s)] returning [v], on a text within these limits. *)
Definition json_loads (s : str) : result json :=
  if startswith s [65279] then raise ValueError "Unexpected UTF-8 BOM"
  else
    match scan_once (2 * length s + 2) (skip_ws s) with
    | None => raise ValueError "JSONDecodeError"
    | Some (v, r) =>
        match skip_ws r with
        | [] => Ok v
        | _ :: _ => raise ValueError "JSONDecodeError: Extra data"
        end
    end.

(** *** Dynamic typing

    The values the source handles without checking their type come from
    [json.loads]; the operations below are those of the interpreter on
    such values.  The wording of the messages is CPython's. *)

Definition type_name (v : json) : str :=
  match v with
  | JNull => py "NoneType"
  | JBool _ => py "bool"
  | JInt _ => py "int"
  | JFloat _ => py "float"
  | JStr _ => py "str"
  | JArr _ => py "list"
  | JObj _ => py "dict"
  end.

Definition no_attribute {A} (v : json) (attr : string) : result A :=
  Raise (Exc AttributeError
           (py "'" ++ type_name v ++ py "' object has no attribute '"
            ++ py attr ++ py "'")).

(** [sub in s] for two [str]. *)
Fixpoint is_infix (sub s : str) : bool :=
  startswith s sub ||
  match s with
  | [] => false
  | _ :: s' => is_infix sub s'
  end.

(** [k in v] for a [str] [k]. *)
Definition py_contains (k : str) (v : json) : result bool :=
  match v with
  | JObj d => Ok (dict_mem k d)
  | JArr l => Ok (existsb (fun x => match x with
                                    | JStr s => str_eqb s k
                                    | _ => false
                                    end) l)
  | JStr s => Ok (is_infix k s)
  | _ => Raise (Exc TypeError
                  (py "argument of type '" ++ type_name v
                   ++ py "' is not iterable"))
  end.

(** [v[k]] for a [str] [k]. *)
Definition py_getitem (k : str) (v : json) : result json :=
  match v with
  | JObj d => dict_getitem k d
  | JArr _ => raise TypeError
                "list indices must be integers or slices, not str"
  | JStr _ => raise TypeError "string indices must be integers"
  | _ => Raise (Exc TypeError
                  (py "'" ++ type_name v ++ py "' object is not subscriptable"))
  end.

(** [v.get(k, default)] *)
Definition py_get (k : str) (default : json) (v : json) : result json :=
  match v with
  | JObj d => Ok (match dict_get k d with Some x => x | None => default end)
  | _ => no_attribute v "get"
  end.

(** *** [datetime] *)

Record datetime := DateTime {
  dt_year : N; dt_month : N; dt_day : N;
  dt_hour : N; dt_minute : N; dt_second : N
}.

Definition is_leap (y : N) : bool :=
  (y mod 4 =? 0) && (negb (y mod 100 =? 0) || (y mod 400 =? 0)).

Definition days_in_month (y m : N) : N :=
  if m =? 2 then (if is_leap y then 29 else 28)
  else if (m =? 4) || (m =? 6) || (m =? 9) || (m =? 11) then 30
  else 31.

(** What [datetime.now()] can return. *)
Definition valid_datetime (t : datetime) : Prop :=
  1 <= dt_year t <= 9999 /\ 1 <= dt_month t <= 12 /\
  1 <= dt_day t <= days_in_month (dt_year t) (dt_month t) /\
  dt_hour t < 24 /\ dt_minute t < 60 /\ dt_second t < 60.

(** [t + datetime.timedelta(days=1)]: the same time on the next day of
    the calendar; there is no day after 9999-12-31. *)
Definition add_one_day (t : datetime) : result datetime :=
  let with_date y m d :=
    DateTime y m d (dt_hour t) (dt_minute t) (dt_second t) in
  if dt_day t <? days_in_month (dt_year t) (dt_month t)
  then Ok (with_date (dt_year t) (dt_month t) (dt_day t + 1))
  else if dt_month t <? 12
  then Ok (with_date (dt_year t) (dt_month t + 1) 1)
  else if dt_year t <? 9999
  then Ok (with_date (dt_year t + 1) 1 1)
  else raise OverflowError "date value out of range".

Definition pad2 (n : N) : str := [48 + (n / 10) mod 10; 48 + n mod 10].

(** [t.strftime('%Y-%m-%dT%H:%M:%S')].  The year is written without
    padding, as the C library of the platform does; from the year 1000 on
    it has four digits. *)
Definition strftime_iso (t : datetime) : str :=
  str_of_N (dt_year t) ++ [45] ++ pad2 (dt_month t) ++ [45]
  ++ pad2 (dt_day t) ++ [84] ++ pad2 (dt_hour t) ++ [58]
  ++ pad2 (dt_minute t) ++ [58] ++ pad2 (dt_second t).

(** *** The header codec *)

(** One [key="value"] part of the header. *)
Definition format_part (kv : str * str) : str :=
  fst kv ++ [equals; dquote] ++ snd kv ++ [dquote].

(** The header text of a list of parts: the scheme, then the parts
    separated by a comma and a space. *)
Definition wire (parts : list (str * str)) : str :=
  py "Hawk " ++ join (py ", ") (map format_part parts).

(** [build_header(client_id, ext_data)].  [ts] is what [int(time.time())]
    returns and [nonce] what [random.randint(0, 100000)] returns; the
    values of [out] are kept as the text [str] gives them. *)
Definition build_header (ts nonce : Z) (client_id : str)
  (ext_data : option json) : result str :=
  let out := [(py "id", client_id); (py "ts", str_of_Z ts);
              (py "nonce", str_of_Z nonce)] in
  out <- match ext_data with
         | Some e =>
             json_data <- utf8_encode (dumps true e) ;;
             Ok (dict_set (py "ext") (b64encode json_data) out)
         | None => Ok out
         end ;;
  let mac_contents := join [10] (map snd out) in
  mac_bytes <- utf8_encode mac_contents ;;
  let out := dict_set (py "mac") (sha1_hexdigest mac_bytes) out in
  Ok (wire out).

Definition mandatory_parts : list str :=
  [py "id"; py "mac"; py "ts"; py "nonce"].

(** The loop over the mandatory parts. *)
Fixpoint check_parts (ks : list str) (parts : dict str) : result unit :=
  match ks with
  | [] => Ok tt
  | k :: ks' =>
      if dict_mem k parts then check_parts ks' parts
      else Raise (Exc Exception_ (py "Missing header part " ++ k))
  end.

(** [json.loads(base64.b64decode(e).decode('utf-8'))] *)
Definition decode_ext (e : str) : result json :=
  b <- b64decode e ;;
  t <- utf8_decode b ;;
  json_loads t.

(** The body of the [try] of [parse_header]. *)
Definition load_ext (parts : dict str) : result json :=
  e <- dict_getitem (py "ext") parts ;;
  decode_ext e.

(** [parse_header(header)] for a [str].  ([re.findall] never returns
    [None]: the test on it is dead code.) *)
Definition parse_header (header : str) : result (str * json) :=
  if negb (startswith header (py "Hawk "))
  then raise Exception_ "Missing Hawk prefix"
  else
    let parts := dict_of_pairs (findall header) in
    _ <- check_parts mandatory_parts parts ;;
    let ext_data := match load_ext parts with
                    | Ok v => v
                    | Raise _ => JObj []
                    end in
    i <- dict_getitem (py "id") parts ;;
    Ok (i, ext_data).

(** [parse_header] on any value: only a [str] has [startswith]. *)
Definition parse_header_dyn (header : json) : result (str * json) :=
  match header with
  | JStr h => parse_header h
  | _ => no_attribute header "startswith"
  end.

(** *** Responses *)

Inductive body_t :=
| BodyText (s : str)
| BodyBytes (b : bytes).

Record response := Response {
  http_code : N;
  headers : dict str;
  body : body_t
}.

Definition json_headers : dict str :=
  [(py "Content-Type", py "application/json")].

Definition text_headers : dict str :=
  [(py "Content-Type", py "text/plain")].

(** *** [mock_auth_taskcluster] *)

(** The body of the [try]: the response body and the status. *)
Definition taskcluster_try (now : datetime) (payload : json)
  : result (json * N) :=
  has <- py_contains (py "authorization") payload ;;
  if negb has then raise Exception_ "Missing authorization"
  else
    auth <- py_getitem (py "authorization") payload ;;
    r <- parse_header_dyn auth ;;
    let (client_id, ext_data) := r in
    expires <- add_one_day now ;;
    scopes <- py_get (py "scopes") (JArr []) ext_data ;;
    Ok (JObj [(py "status", JStr (py "auth-success"));
              (py "scopes", scopes);
              (py "scheme", JStr (py "hawk"));
              (py "clientId", JStr client_id);
              (py "expires", JStr (strftime_iso expires))],
        200).

Definition failure_body (e : exc) : json :=
  JObj [(py "status", JStr (py "auth-failure"));
        (py "message", JStr (exc_msg e))].

(** [mock_auth_taskcluster(request)]: [request_body] is [request.body]
    and [now] what [datetime.datetime.now()] returns. *)
Definition mock_auth_taskcluster (now : datetime) (request_body : str)
  : result response :=
  payload <- json_loads request_body ;;
  let (b, code) := match taskcluster_try now payload with
                   | Ok r => r
                   | Raise e => (failure_body e, 401)
                   end in
  Ok (Response code json_headers (BodyText (json_dumps b))).

(** *** [mock_auth_auth0] *)

Definition AUTH0_DUMMY_USERINFO : json :=
  JObj [
    (py "family_name", JStr (py "Moran"));
    (py "given_name", JStr (py "Lydia"));
    (py "nickname", JStr (py "Lydia Moran"));
    (py "groups", JArr [JStr (py "avengers"); JStr (py "JusticeLeague");
                        JStr (py "x_men"); JStr (py "the_specials");
                        JStr (py "fantastic4")]);
    (py "emails", JArr [JStr (py "lmoran@mozilla.com")]);
    (py "dn", JStr (py "mail=lmoran@mozilla.com,o=com,dc=mozilla"));
    (py "organizationUnits",
     JStr (py "mail=lmoran@mozilla.com,o=com,dc=mozilla"));
    (py "email", JStr (py "lmoran@mozilla.com"));
    (py "name", JStr (py "Lydia Moran"));
    (py "picture",
     JStr (py "http://people.mozilla.com/~faaborg/files/shiretoko/firefoxIcon/firefox-128.png"));
    (py "email_verified", JBool true);
    (py "clientID", JStr (py "abcdefghijklmnopqrstuvwxyz123456"));
    (py "updated_at", JStr (py "2017-04-25T09:36:57.950Z"));
    (py "user_id", JStr (py "ad|Mozilla-LDAP|lmoran"));
    (py "identities",
     JArr [JObj [(py "user_id", JStr (py "Mozilla-LDAP|lmoran"));
                 (py "provider", JStr (py "ad"));
                 (py "connection", JStr (py "Mozilla-LDAP"));
                 (py "isSocial", JBool false)]]);
    (py "created_at", JStr (py "2017-03-07T10:14:51.077Z"));
    (py "multifactor", JArr [JStr (py "duo")]);
    (py "sub", JStr (py "ad|Mozilla-LDAP|lmoran"))
  ].

(** [s.split(sep, 1)]: around the first occurrence of [sep]. *)
Fixpoint partition_on (sep : char) (s : str) : str * option str :=
  match s with
  | [] => ([], None)
  | c :: s' =>
      if c =? sep then ([], Some s')
      else let (a, b) := partition_on sep s' in (c :: a, b)
  end.

(** *** [urllib.parse.urlparse]

    The steps of [urlsplit] (CPython 3.11) that decide the query. *)

(** [url.lstrip(_WHATWG_C0_CONTROL_OR_SPACE)] *)
Definition c0_control_or_space (c : char) : bool := c <=? 32.

Fixpoint lstrip (p : char -> bool) (s : str) : str :=
  match s with
  | [] => []
  | c :: s' => if p c then lstrip p s' else s
  end.

(** The tab, the carriage return and the line feed are removed
    ([_UNSAFE_URL_BYTES_TO_REMOVE]). *)
Definition unsafe_url_byte (c : char) : bool :=
  (c =? 9) || (c =? 13) || (c =? 10).

Definition remove_unsafe (s : str) : str :=
  filter (fun c => negb (unsafe_url_byte c)) s.

Definition ascii_alpha (c : char) : bool :=
  in_range 97 122 c || in_range 65 90 c.

(** [scheme_chars]: the ASCII letters, the digits and [+ - .] *)
Definition is_scheme_char (c : char) : bool :=
  ascii_alpha c || in_range 48 57 c || (c =? 43) || (c =? 45) || (c =? 46).

(** The URL after its scheme: the text before the first colon is a scheme
    when it starts with an ASCII letter and holds scheme characters
    only. *)
Definition strip_scheme (url : str) : str :=
  match url with
  | [] => []
  | c :: _ =>
      match span is_scheme_char url with
      | (_, x :: rest) => if (x =? 58) && ascii_alpha c then rest else url
      | _ => url
      end
  end.

(** [_splitnetloc(url, 2)], on the text after the two slashes: the
    network location ends at the first slash, question mark or number
    sign. *)
Definition netloc_char (c : char) : bool :=
  negb ((c =? 47) || (c =? 63) || (c =? 35)).

Definition splitnetloc (s : str) : str * str := span netloc_char s.

(** The checks of the network location: a bracket without its pair is
    refused here; a host between brackets and a network location that is
    not ASCII go through the checks of the interpreter. *)
Definition check_netloc (netloc : str) : result unit :=
  let opening := existsb (N.eqb 91) netloc in
  let closing := existsb (N.eqb 93) netloc in
  if xorb opening closing then raise ValueError "Invalid IPv6 URL"
  else if (opening && closing) || negb (is_ascii netloc) then
    match netloc_error interpreter netloc with
    | Some msg => Raise (Exc ValueError msg)
    | None => Ok tt
    end
  else Ok tt.

(** The URL after its network location, which two slashes announce. *)
Definition after_netloc (url : str) : result str :=
  match url with
  | x :: y :: rest =>
      if (x =? 47) && (y =? 47) then
        let (netloc, url) := splitnetloc rest in
        _ <- check_netloc netloc ;;
        Ok url
      else Ok url
  | _ => Ok url
  end.

(** [urllib.parse.urlparse(url).query], or the [ValueError] that
    [urlparse] raises: after the scheme and the network location, the
    fragment is cut at the first number sign, and the query starts after
    the first question mark before it. *)
Definition url_query (url : str) : result str :=
  let url := remove_unsafe (lstrip c0_control_or_space url) in
  url <- after_netloc (strip_scheme url) ;;
  let url := fst (partition_on 35 url) in
  Ok (match snd (partition_on 63 url) with
      | Some q => q
      | None => []
      end).

(** [l[1]] *)
Definition second {A} (l : list A) : result A :=
  match l with
  | _ :: x :: _ => Ok x
  | _ => raise IndexError "list index out of range"
  end.

(** The dictionary comprehension over the parameters. *)
Fixpoint query_dict (params : list str) (d : dict str)
  : result (dict str) :=
  match params with
  | [] => Ok d
  | param :: rest =>
      v <- second (split_on 61 param) ;;
      query_dict rest (dict_set (hd [] (split_on 61 param)) v d)
  end.

Definition str_get (k default : str) (d : dict str) : str :=
  match dict_get k d with Some v => v | None => default end.

(** [mock_auth_auth0(request)]: [url] is [request.url]. *)
Definition mock_auth_auth0 (url : str) : result response :=
  query_string <- url_query url ;;
  query <- query_dict (split_on 38 query_string) [] ;;
  if str_eqb (str_get (py "access_token") (py "badtoken") query)
             (py "badtoken")
  then Ok (Response 200 text_headers (BodyBytes (py "Unauthorized")))
  else Ok (Response 200 json_headers
             (BodyText (json_dumps AUTH0_DUMMY_USERINFO))).

Definition index_error : exc := Exc IndexError (py "list index out of range").

(** The parameters of a query string, as the comprehension of
    [mock_auth_auth0] walks them. *)
Definition query_params (query : str) : list str :=
  split_on 38 query.

Definition unauthorized : response :=
  Response 200 text_headers (BodyBytes (py "Unauthorized")).

Definition authorized : response :=
  Response 200 json_headers (BodyText (json_dumps AUTH0_DUMMY_USERINFO)).

Definition missing_part (k : str) : exc :=
  Exc Exception_ (py "Missing header part " ++ k).

Definition missing_authorization : exc :=
  Exc Exception_ (py "Missing authorization").

(** The body of a success response. *)
Definition success_body (scopes : json) (client_id expires : str) : json :=
  JObj [(py "status", JStr (py "auth-success"));
        (py "scopes", scopes);
        (py "scheme", JStr (py "hawk"));
        (py "clientId", JStr client_id);
        (py "expires", JStr expires)].

(** The [scopes] entry of the extension data, or the empty list. *)
Definition scopes_of (ext : dict json) : json :=
  match dict_get (py "scopes") ext with
  | Some s => s
  | None => JArr []
  end.

(** The shape YYYY-MM-DDTHH:MM:SS: nineteen characters, digits around two
    hyphens, a T and two colons. *)
Definition is_iso_timestamp (s : str) : bool :=
  match s with
  | [y1; y2; y3; y4; h1; m1; m2; h2; d1; d2; t; hh1; hh2; c1; mi1; mi2;
     c2; s1; s2] =>
      forallb is_digit [y1; y2; y3; y4; m1; m2; d1; d2; hh1; hh2; mi1; mi2;
                        s1; s2]
      && (h1 =? 45) && (h2 =? 45) && (t =? 84) && (c1 =? 58) && (c2 =? 58)
  | _ => false
  end.

(** Every date but the last of the calendar has a next day. *)
Definition has_next_day (t : datetime) : bool :=
  negb ((dt_year t =? 9999) && (dt_month t =? 12) && (dt_day t =? 31)).

(** [date.toordinal()]: the number of the day, 0001-01-01 being day 1. *)
Definition days_before_year (y : N) : N :=
  (y - 1) * 365 + (y - 1) / 4 - (y - 1) / 100 + (y - 1) / 400.

Definition days_before_month (y m : N) : N :=
  nth (N.to_nat m) [0; 0; 31; 59; 90; 120; 151; 181; 212; 243; 273; 304; 334] 0
  + (if (2 <? m) && is_leap y then 1 else 0).

Definition toordinal (t : datetime) : N :=
  days_before_year (dt_year t) + days_before_month (dt_year t) (dt_month t)
  + dt_day t.

(** Text that UTF-8 can encode: code points of Unicode, no surrogate. *)
Definition encodable (s : str) : bool :=
  forallb (fun c => (c <? 1114112) && negb (is_surrogate c)) s.

(** The literal of every float of [v] is ASCII text, as the literals that
    [repr] writes are. *)
Fixpoint floats_ascii (v : json) : bool :=
  match v with
  | JFloat lit => is_ascii lit
  | JArr l => forallb floats_ascii l
  | JObj d => forallb (fun kv : str * json => floats_ascii (snd kv)) d
  | _ => true
  end.

(** The [ext] part of the header: the base64 text of the JSON text with
    sorted keys, when extension data is given. *)
Definition ext_part (ext_data : option json) : list (str * str) :=
  match ext_data with
  | Some e => [(py "ext", b64encode (dumps true e))]
  | None => []
  end.

(** The parts of the header that come before [mac], in their order. *)
Definition signed_parts (ts nonce : Z) (client_id : str)
  (ext_data : option json) : list (str * str) :=
  [(py "id", client_id); (py "ts", str_of_Z ts);
   (py "nonce", str_of_Z nonce)] ++ ext_part ext_data.

Definition is_hex_digit (c : char) : bool :=
  is_digit c || in_range 97 102 c.

(** The characters a match of the header pattern can hold: the value
    characters (which include the word characters and the equals sign)
    and the double quote.  Any other character separates matches. *)
Definition token_char (c : char) : bool := is_val c || (c =? dquote).

Definition is_sep (c : char) : bool := negb (token_char c).

(** A value the pattern accepts: not empty, made of value characters. *)
Definition value_text (v : str) : bool :=
  match v with
  | [] => false
  | _ :: _ => forallb is_val v
  end.

(** A key the pattern accepts: not empty, made of word characters. *)
Definition key_text (k : str) : bool :=
  match k with
  | [] => false
  | _ :: _ => forallb is_word k
  end.

(** The text before a part of the header: nothing, or text that ends
    with a separator (in the wire format, the space after the scheme or
    after a comma). *)
Definition field_boundary (pre : str) : Prop :=
  pre = [] \/ exists p c, pre = p ++ [c] /\ is_sep c = true.

(** The value of the last pair with key [k]. *)
Definition last_value {V} (k : str) (l : list (str * V)) : option V :=
  fold_left (fun acc kv => if str_eqb k (fst kv) then Some (snd kv) else acc)
            l None.

(** [parse_header] after the test of the prefix, on the dictionary of the
    parts. *)
Definition parse_parts (parts : dict str) : result (str * json) :=
  _ <- check_parts mandatory_parts parts ;;
  let ext_data := match load_ext parts with
                  | Ok v => v
                  | Raise _ => JObj []
                  end in
  i <- dict_getitem (py "id") parts ;;
  Ok (i, ext_data).

(** The keys of a dictionary are distinct. *)
Fixpoint distinct (l : list str) : bool :=
  match l with
  | [] => true
  | k :: l' => negb (existsb (str_eqb k) l') && distinct l'
  end.

(** JSON data as a dictionary of Python holds it, floats apart: the
    strings are Unicode text (code points, no lone surrogate) and the keys
    of every mapping are distinct. *)
Fixpoint plain_json (v : json) : bool :=
  match v with
  | JFloat _ => false
  | JStr s => encodable s
  | JArr l => forallb plain_json l
  | JObj d =>
      distinct (map fst d)
      && forallb (fun kv : str * json =>
                    encodable (fst kv) && plain_json (snd kv)) d
  | _ => true
  end.

(** The value with the keys of every mapping in the order of
    [sort_keys]. *)
Fixpoint canon (v : json) : json :=
  match v with
  | JArr l => JArr (map (fun x => canon x) l)
  | JObj d =>
      JObj (sort_items
              (map (fun kv : str * json => let (k, x) := kv in
                                           (k, canon x)) d))
  | _ => v
  end.

(** Equality of JSON values as Python compares them: lists item by item,
    mappings key by key, whatever the order of the keys. *)
Inductive json_equiv : json -> json -> Prop :=
| equiv_null : json_equiv JNull JNull
| equiv_bool b : json_equiv (JBool b) (JBool b)
| equiv_int z : json_equiv (JInt z) (JInt z)
| equiv_float lit : json_equiv (JFloat lit) (JFloat lit)
| equiv_str s : json_equiv (JStr s) (JStr s)
| equiv_arr l1 l2 :
    Forall2 json_equiv l1 l2 -> json_equiv (JArr l1) (JArr l2)
| equiv_obj d1 d2 d2' :
    Permutation d2 d2' ->
    Forall2 (fun kv1 kv2 => fst kv1 = fst kv2 /\
                            json_equiv (snd kv1) (snd kv2)) d1 d2' ->
    json_equiv (JObj d1) (JObj d2).

(** What may follow a value in JSON text: the end, a comma, or a closing
    bracket or brace. *)
Definition delimited (rest : str) : Prop :=
  match rest with
  | [] => True
  | c :: _ => c = 44 \/ c = 93 \/ c = 125
  end.

(** A function applied to the values of a list of items. *)
Definition on_snd {A B} (f : A -> B) (kv : str * A) : str * B :=
  (fst kv, f (snd kv)).

(** [scan_once] reads the text of [v] back, with enough fuel for the
    length of the text, whatever follows the value. *)
Definition reads_back (v : json) : Prop :=
  forall fuel rest,
    (length (dumps true v) <= fuel)%nat -> delimited rest ->
    scan_once fuel (dumps true v ++ rest) = Some (canon v, rest).

(** The first mandatory part that the parts lack, in the order of the
    loop of [parse_header]. *)
Definition first_missing (parts : dict str) : option str :=
  find (fun k => negb (dict_mem k parts)) mandatory_parts.

(** The extension data that [parse_header] returns for the parts. *)
Definition ext_of_parts (parts : dict str) : json :=
  match load_ext parts with
  | Ok v => v
  | Raise _ => JObj []
  end.

(** The key and the value that the comprehension of [mock_auth_auth0]
    takes from a parameter: the pieces before and after its first equals
    sign (the value stops at the second). *)
Definition param_pair (param : str) : str * str :=
  (hd [] (split_on 61 param), nth 1 (split_on 61 param) []).

(** *** [get_app_config] *)

(** The values of a configuration: [True], the random bytes of the secret
    key, or a value given by the caller. *)
Inductive config_value :=
| CfgBool (b : bool)
| CfgBytes (b : bytes)
| CfgJson (v : json).

(** [d.update(other)]: the items of [other], set one after the other. *)
Definition dict_update {V} (d other : dict V) : dict V :=
  fold_left (fun d kv => dict_set (fst kv) (snd kv) d) other d.

Definition default_config (secret_key : bytes) : dict config_value :=
  [(py "TESTING", CfgBool true); (py "SECRET_KEY", CfgBytes secret_key)].

(** [get_app_config(extra_config)]: [secret_key] is what [os.urandom(24)]
    returns. *)
Definition get_app_config (secret_key : bytes)
  (extra_config : dict config_value) : dict config_value :=
  dict_update (default_config secret_key) extra_config.

(** The keys of every mapping inside a value are distinct, as in a
    dictionary of Python. *)
Fixpoint distinct_keys (v : json) : bool :=
  match v with
  | JArr l => forallb distinct_keys l
  | JObj d =>
      distinct (map fst d)
      && forallb (fun kv : str * json => distinct_keys (snd kv)) d
  | _ => true
  end.

(** The order of [sort_items]: by the keys. *)
Definition key_le {V} (a b : str * V) : Prop :=
  str_leb (fst a) (fst b) = true.

(** No floating-point number inside the value.  (A float is kept as the
    text of its literal; [json.dumps] writes it in the notation of
    Python, so the text of a response is stated for values without
    floats only.) *)
Fixpoint float_free (v : json) : bool :=
  match v with
  | JFloat _ => false
  | JArr l => forallb float_free l
  | JObj d => forallb (fun kv : str * json => float_free (snd kv)) d
  | _ => true
  end.



(* ================================================================ *)
(** * Properties *)

(** Linear arithmetic with division and remainder by constants. *)
Ltac nlia := zify; Z.to_euclidean_division_equations; lia.

(* ---------------------------------------------------------------- *)
(** ** Text and dictionaries: basic facts *)

Lemma str_eqb_refl (a : str) : str_eqb a a = true.
Proof.
  induction a as [|x a IH]; simpl; [reflexivity|].
  now rewrite N.eqb_refl, IH.
Qed.

Lemma str_eqb_eq (a b : str) : str_eqb a b = true <-> a = b.
Proof.
  split.
  - revert b; induction a as [|x a IH]; intros [|y b]; simpl;
      try discriminate; [reflexivity|].
    intros H. apply andb_prop in H as [H1 H2].
    apply N.eqb_eq in H1. subst y. f_equal. now apply IH.
  - intros ->. apply str_eqb_refl.
Qed.

Lemma str_eqb_neq (a b : str) : str_eqb a b = false <-> a <> b.
Proof.
  split.
  - intros H E. apply str_eqb_eq in E. congruence.
  - intros H. destruct (str_eqb a b) eqn:E; [|reflexivity].
    apply str_eqb_eq in E. contradiction.
Qed.

Lemma strip_prefix_app (p s : str) : strip_prefix p (p ++ s) = Some s.
Proof.
  induction p as [|x p IH]; simpl; [reflexivity|].
  now rewrite N.eqb_refl.
Qed.

Lemma strip_prefix_Some (p s r : str) :
  strip_prefix p s = Some r -> s = p ++ r.
Proof.
  revert s; induction p as [|x p IH]; intros s; simpl.
  - now intros [= ->].
  - destruct s as [|y s]; [discriminate|].
    destruct (x =? y) eqn:E; [|discriminate].
    apply N.eqb_eq in E. subst y. intros H. f_equal. now apply IH.
Qed.

Lemma startswith_app (p s : str) : startswith (p ++ s) p = true.
Proof. unfold startswith. now rewrite strip_prefix_app. Qed.

Lemma startswith_true (s p : str) :
  startswith s p = true <-> exists r, s = p ++ r.
Proof.
  unfold startswith. split.
  - destruct (strip_prefix p s) as [l|] eqn:E; [|discriminate].
    intros _. exists l. now apply strip_prefix_Some.
  - intros [r ->]. now rewrite strip_prefix_app.
Qed.

(** *** [split] *)

Lemma split_on_nonempty (sep : char) (s : str) : split_on sep s <> [].
Proof.
  destruct s as [|c s]; simpl; [discriminate|].
  destruct (c =? sep); [discriminate|].
  destruct (split_on sep s); discriminate.
Qed.

Lemma split_on_no_sep (sep : char) (s : str) :
  ~ In sep s -> split_on sep s = [s].
Proof.
  induction s as [|c s IH]; simpl; [reflexivity|].
  intros H. destruct (c =? sep) eqn:E.
  - apply N.eqb_eq in E. exfalso. apply H. now left.
  - rewrite IH; [reflexivity|]. intros Hin. apply H. now right.
Qed.

Lemma split_on_sep (sep : char) (a b : str) :
  ~ In sep a -> split_on sep (a ++ sep :: b) = a :: split_on sep b.
Proof.
  induction a as [|c a IH]; simpl; intros H.
  - now rewrite N.eqb_refl.
  - destruct (c =? sep) eqn:E.
    + apply N.eqb_eq in E. exfalso. apply H. now left.
    + rewrite IH; [reflexivity|]. intros Hin. apply H. now right.
Qed.

Lemma split_on_has_sep (sep : char) (s : str) :
  In sep s -> exists a b l, split_on sep s = a :: b :: l.
Proof.
  induction s as [|c s IH]; simpl; [intros []|].
  intros H. destruct (c =? sep) eqn:E.
  - destruct (split_on sep s) as [|x l] eqn:Es.
    + now apply split_on_nonempty in Es.
    + now exists [], x, l.
  - destruct H as [H|H]; [apply N.eqb_neq in E; congruence|].
    destruct (IH H) as (a & b & l & ->). now exists (c :: a), b, l.
Qed.

(** A parameter has a second piece exactly when it holds an equals
    sign. *)
Lemma second_split_ok (p : str) :
  In 61 p -> exists v, second (split_on 61 p) = Ok v.
Proof.
  intros H. destruct (split_on_has_sep 61 p H) as (a & b & l & ->).
  now exists b.
Qed.

Lemma second_split_raise (p : str) :
  ~ In 61 p -> second (split_on 61 p) = Raise index_error.
Proof. intros H. now rewrite split_on_no_sep. Qed.

Lemma in_char_dec (c : char) (s : str) : {In c s} + {~ In c s}.
Proof. apply in_dec, N.eq_dec. Qed.

Lemma query_dict_raise (ps : list str) :
  Exists (fun p => ~ In 61 p) ps ->
  forall d, query_dict ps d = Raise index_error.
Proof.
  induction 1 as [p ps H|p ps H IH]; intros d; simpl.
  - now rewrite second_split_raise.
  - destruct (in_char_dec 61 p) as [Hin|Hnin].
    + destruct (second_split_ok p Hin) as [v ->]. simpl. apply IH.
    + now rewrite second_split_raise.
Qed.

Lemma query_dict_ok (ps : list str) :
  forall d d', query_dict ps d = Ok d' -> Forall (fun p => In 61 p) ps.
Proof.
  induction ps as [|p ps IH]; intros d d'; simpl; [constructor|].
  destruct (in_char_dec 61 p) as [Hin|Hnin].
  - destruct (second_split_ok p Hin) as [v ->]. simpl.
    intros H. constructor; [assumption|]. eapply IH, H.
  - now rewrite second_split_raise.
Qed.

Lemma partition_on_no_sep (sep : char) (s : str) :
  ~ In sep s -> partition_on sep s = (s, None).
Proof.
  induction s as [|c s IH]; simpl; [reflexivity|].
  intros H. destruct (c =? sep) eqn:E.
  - apply N.eqb_eq in E. exfalso. apply H. now left.
  - rewrite IH; [reflexivity|]. intros Hin. apply H. now right.
Qed.

(* ---------------------------------------------------------------- *)
(** ** The userinfo responder *)

Lemma mock_auth_auth0_query (url q : str) :
  url_query url = Ok q ->
  mock_auth_auth0 url =
    (query <- query_dict (query_params q) [] ;;
     if str_eqb (str_get (py "access_token") (py "badtoken") query)
                (py "badtoken")
     then Ok unauthorized else Ok authorized).
Proof. intros H. unfold mock_auth_auth0. now rewrite H. Qed.

Lemma mock_auth_auth0_value_error (url : str) (e : exc) :
  url_query url = Raise e -> mock_auth_auth0 url = Raise e.
Proof. intros H. unfold mock_auth_auth0. now rewrite H. Qed.

Lemma mock_auth_auth0_raise (url q : str) :
  url_query url = Ok q ->
  Exists (fun p => ~ In 61 p) (query_params q) ->
  mock_auth_auth0 url = Raise index_error.
Proof.
  intros Hq H. rewrite (mock_auth_auth0_query url q Hq).
  now rewrite query_dict_raise.
Qed.

Lemma mock_auth_auth0_ok (url q : str) :
  url_query url = Ok q ->
  is_ok (mock_auth_auth0 url) = true ->
  Forall (fun p => In 61 p) (query_params q).
Proof.
  intros Hq. rewrite (mock_auth_auth0_query url q Hq).
  destruct (query_dict (query_params q) []) as [d|e] eqn:E;
    [|discriminate].
  intros _. eapply query_dict_ok, E.
Qed.

(** The response to a query string made of the one parameter
    [access_token]: only the text up to the second equals sign counts. *)
Lemma mock_auth_auth0_token (url v rest : str) :
  url_query url = Ok (py "access_token=" ++ v ++ rest) ->
  ~ In 61 v -> ~ In 38 (v ++ rest) ->
  rest = [] \/ (exists r, rest = 61 :: r) ->
  mock_auth_auth0 url =
    Ok (if str_eqb v (py "badtoken") then unauthorized else authorized).
Proof.
  intros Hq Hv Hamp Hrest. rewrite (mock_auth_auth0_query url _ Hq).
  unfold query_params.
  assert (Hsplit : split_on 38 (py "access_token=" ++ v ++ rest)
                   = [py "access_token=" ++ v ++ rest]).
  { apply split_on_no_sep. intros Hin. apply in_app_or in Hin as [Hin|Hin].
    - revert Hin. vm_compute. intuition discriminate.
    - contradiction. }
  rewrite Hsplit. cbn [query_dict].
  assert (Hs : exists l, split_on 61 (py "access_token=" ++ v ++ rest)
                         = py "access_token" :: v :: l).
  { change (py "access_token=" ++ v ++ rest)
      with (py "access_token" ++ 61 :: (v ++ rest)).
    rewrite split_on_sep by (vm_compute; intuition discriminate).
    destruct Hrest as [->|[r ->]].
    - rewrite app_nil_r, split_on_no_sep by assumption. now exists [].
    - rewrite split_on_sep by assumption. now eexists. }
  destruct Hs as [l ->]. cbn [second hd bind dict_set].
  unfold str_get. cbn [dict_get]. rewrite str_eqb_refl.
  destruct (str_eqb v (py "badtoken")); reflexivity.
Qed.

Lemma mock_auth_auth0_sentinel (url q : str) (query : dict str) :
  url_query url = Ok q ->
  query_dict (query_params q) [] = Ok query ->
  mock_auth_auth0 url =
    Ok (match dict_get (py "access_token") query with
        | None => unauthorized
        | Some v => if str_eqb v (py "badtoken") then unauthorized
                    else authorized
        end).
Proof.
  intros Hq H. rewrite (mock_auth_auth0_query url q Hq), H.
  cbn [bind]. unfold str_get.
  destruct (dict_get (py "access_token") query) as [v|].
  - now destruct (str_eqb v (py "badtoken")).
  - now rewrite str_eqb_refl.
Qed.

(** C4, at a request without query string: the token is absent and the
    responder raises instead of answering [Unauthorized]. *)
Theorem auth0_no_query_raises :
  let url := py "https://auth.mozilla.auth0.com/userinfo" in
  url_query url = Ok [] /\
  mock_auth_auth0 url = Raise index_error /\
  mock_auth_auth0 url <> Ok unauthorized.
Proof.
  cbv zeta. split; [vm_compute; reflexivity|].
  split; [vm_compute; reflexivity|].
  vm_compute. discriminate.
Qed.

(* ---------------------------------------------------------------- *)
(** ** Dictionaries built from pairs *)

Section DictFacts.
Context {V : Type}.
Implicit Types (d : dict V) (l : list (str * V)).

Lemma dict_get_set_same k v d : dict_get k (dict_set k v d) = Some v.
Proof.
  induction d as [|[k' v'] d IH]; simpl.
  - now rewrite str_eqb_refl.
  - destruct (str_eqb k k') eqn:E; simpl; now rewrite E.
Qed.

Lemma dict_get_set_other k k' v d :
  k <> k' -> dict_get k (dict_set k' v d) = dict_get k d.
Proof.
  intros Hk. induction d as [|[k'' v''] d IH]; simpl.
  - now apply str_eqb_neq in Hk as ->.
  - destruct (str_eqb k' k'') eqn:E; simpl.
    + apply str_eqb_eq in E. subst k''.
      now apply str_eqb_neq in Hk as ->.
    + now rewrite IH.
Qed.

Lemma dict_get_In k d :
  dict_get k d <> None <-> In k (map fst d).
Proof.
  induction d as [|[k' v'] d IH]; simpl; [tauto|].
  destruct (str_eqb k k') eqn:E.
  - apply str_eqb_eq in E. subst. split; [now left|discriminate].
  - apply str_eqb_neq in E. rewrite IH. split; [now right|].
    intros [H|H]; [congruence|assumption].
Qed.

Lemma dict_get_fold k l : forall d,
  dict_get k (fold_left (fun d kv => dict_set (fst kv) (snd kv) d) l d)
    <> None
  <-> In k (map fst l) \/ dict_get k d <> None.
Proof.
  induction l as [|[k' v'] l IH]; intros d; simpl; [tauto|].
  rewrite IH. destruct (str_eqb k k') eqn:E.
  - apply str_eqb_eq in E. subst k'. rewrite dict_get_set_same.
    split; [now left; left|]. intros _. right. discriminate.
  - apply str_eqb_neq in E. rewrite dict_get_set_other by assumption.
    split; [tauto|]. intros [[H|H]|H]; [congruence|tauto|tauto].
Qed.

(** A key is in [dict(pairs)] when some pair has it. *)
Lemma dict_mem_of_pairs k l :
  dict_mem k (dict_of_pairs l) = true <-> In k (map fst l).
Proof.
  unfold dict_mem.
  pose proof (dict_get_fold k l []) as H. fold (dict_of_pairs l) in H.
  simpl in H. destruct (dict_get k (dict_of_pairs l)).
  - split; [|reflexivity]. intros _.
    destruct H as [H _]. destruct H as [H|H];
      [discriminate|assumption|congruence].
  - split; [discriminate|]. intros Hin.
    destruct H as [_ H]. exfalso. apply H; [now left|reflexivity].
Qed.

Lemma dict_mem_of_pairs_false k l :
  dict_mem k (dict_of_pairs l) = false <-> ~ In k (map fst l).
Proof.
  rewrite <- dict_mem_of_pairs.
  destruct (dict_mem k (dict_of_pairs l)); split; congruence.
Qed.

Lemma dict_mem_getitem k d :
  dict_mem k d = true -> exists v, dict_get k d = Some v.
Proof.
  unfold dict_mem. destruct (dict_get k d) as [v|]; [|discriminate].
  intros _. now exists v.
Qed.
End DictFacts.

(* ---------------------------------------------------------------- *)
(** ** [parse_header]: errors *)

Lemma check_parts_raise (parts : dict str) (ks : list str) (k : str) :
  In k ks -> dict_mem k parts = false ->
  exists k', In k' ks /\ dict_mem k' parts = false /\
             check_parts ks parts = Raise (missing_part k').
Proof.
  induction ks as [|k0 ks IH]; simpl; [intros []|].
  intros Hin Hk. destruct (dict_mem k0 parts) eqn:E.
  - destruct Hin as [->|Hin]; [congruence|].
    destruct (IH Hin Hk) as (k' & H1 & H2 & H3).
    exists k'. now repeat split; [right|..].
  - exists k0. now repeat split; [left|..].
Qed.

Lemma check_parts_ok (parts : dict str) (ks : list str) :
  (forall k, In k ks -> dict_mem k parts = true) ->
  check_parts ks parts = Ok tt.
Proof.
  induction ks as [|k0 ks IH]; simpl; [reflexivity|].
  intros H. rewrite (H k0) by now left. apply IH. intros k Hk.
  apply H. now right.
Qed.

Lemma parse_header_no_prefix (h : str) :
  startswith h (py "Hawk ") = false ->
  parse_header h = raise Exception_ "Missing Hawk prefix".
Proof. intros H. unfold parse_header. now rewrite H. Qed.

(** The result of [parse_header] on a header with its prefix and its four
    mandatory parts. *)
Lemma parse_header_accepts (h : str) :
  startswith h (py "Hawk ") = true ->
  (forall k, In k mandatory_parts -> In k (map fst (findall h))) ->
  exists client_id,
    dict_get (py "id") (dict_of_pairs (findall h)) = Some client_id /\
    parse_header h =
      Ok (client_id,
          match load_ext (dict_of_pairs (findall h)) with
          | Ok v => v
          | Raise _ => JObj []
          end).
Proof.
  intros Hp Hall. unfold parse_header. rewrite Hp. cbn [negb].
  rewrite check_parts_ok.
  2:{ intros k Hk. apply dict_mem_of_pairs. now apply Hall. }
  cbn [bind]. unfold dict_getitem.
  destruct (dict_mem_getitem (py "id") (dict_of_pairs (findall h)))
    as [cid Hcid].
  { apply dict_mem_of_pairs, Hall. now left. }
  exists cid. split; [assumption|]. now rewrite Hcid.
Qed.

(** C5.  A string that does not start with the scheme prefix is refused
    with the message of the missing prefix; a header with the prefix in
    which one of [id], [mac], [ts], [nonce] is matched by no part is
    refused with the message that names a mandatory part it lacks. *)
Theorem parse_header_errors (h : str) :
  (startswith h (py "Hawk ") = false ->
   parse_header h = Raise (Exc Exception_ (py "Missing Hawk prefix")))
  /\ (startswith h (py "Hawk ") = true ->
      forall k, In k mandatory_parts -> ~ In k (map fst (findall h)) ->
      exists k', In k' mandatory_parts /\
                 ~ In k' (map fst (findall h)) /\
                 parse_header h = Raise (missing_part k')).
Proof.
  split.
  - apply parse_header_no_prefix.
  - intros Hp k Hk Hmiss. apply dict_mem_of_pairs_false in Hmiss.
    destruct (check_parts_raise _ _ _ Hk Hmiss) as (k' & H1 & H2 & H3).
    exists k'. split; [assumption|]. split.
    + now apply dict_mem_of_pairs_false.
    + unfold parse_header. rewrite Hp. cbn [negb]. now rewrite H3.
Qed.

(** C7.  On a header with its prefix and its four mandatory parts,
    [parse_header] returns the identifier with the empty mapping whenever
    there is no [ext] part, or its value is not base64, or the bytes are
    not UTF-8, or the text is not JSON. *)
Theorem parse_header_ext_resilient (h : str) :
  let parts := dict_of_pairs (findall h) in
  startswith h (py "Hawk ") = true ->
  (forall k, In k mandatory_parts -> In k (map fst (findall h))) ->
  (dict_get (py "ext") parts = None \/
   exists e, dict_get (py "ext") parts = Some e /\
     (is_ok (b64decode e) = false \/
      exists b, b64decode e = Ok b /\
        (is_ok (utf8_decode b) = false \/
         exists t, utf8_decode b = Ok t /\ is_ok (json_loads t) = false))) ->
  exists client_id,
    dict_get (py "id") parts = Some client_id /\
    parse_header h = Ok (client_id, JObj []).
Proof.
  intros parts Hp Hall Hext.
  destruct (parse_header_accepts h Hp Hall) as (cid & Hcid & Hparse).
  exists cid. split; [assumption|]. rewrite Hparse. f_equal. f_equal.
  fold parts. unfold load_ext, dict_getitem, decode_ext.
  destruct Hext as [->|(e & -> & He)]; [reflexivity|]. cbn [bind].
  destruct He as [He|(b & -> & Hb)].
  { destruct (b64decode e); [discriminate|reflexivity]. }
  cbn [bind]. destruct Hb as [Hb|(t & -> & Ht)].
  { destruct (utf8_decode b); [discriminate|reflexivity]. }
  cbn [bind]. destruct (json_loads t); [discriminate|reflexivity].
Qed.

(* ---------------------------------------------------------------- *)
(** ** Dates *)

Lemma days_in_month_bounds (y m : N) : 28 <= days_in_month y m <= 31.
Proof.
  unfold days_in_month.
  destruct (m =? 2); [destruct (is_leap y); lia|].
  destruct ((m =? 4) || (m =? 6) || (m =? 9) || (m =? 11)); lia.
Qed.

(** [add_one_day] returns a date on every day but the last. *)
Lemma add_one_day_ok (t : datetime) :
  valid_datetime t -> has_next_day t = true ->
  exists t', add_one_day t = Ok t' /\ valid_datetime t' /\
             dt_year t <= dt_year t'.
Proof.
  intros (Hy & Hm & Hd & Hh & Hmi & Hs) Hn.
  unfold add_one_day, valid_datetime.
  pose proof (days_in_month_bounds (dt_year t) (dt_month t)) as Hb.
  destruct (dt_day t <? days_in_month (dt_year t) (dt_month t)) eqn:E1.
  { apply N.ltb_lt in E1. eexists. split; [reflexivity|]. simpl. lia. }
  apply N.ltb_ge in E1.
  destruct (dt_month t <? 12) eqn:E2.
  { apply N.ltb_lt in E2. eexists. split; [reflexivity|]. simpl.
    pose proof (days_in_month_bounds (dt_year t) (dt_month t + 1)). lia. }
  apply N.ltb_ge in E2.
  destruct (dt_year t <? 9999) eqn:E3.
  { apply N.ltb_lt in E3. eexists. split; [reflexivity|]. simpl.
    pose proof (days_in_month_bounds (dt_year t + 1) 1). lia. }
  apply N.ltb_ge in E3. exfalso.
  assert (dt_year t = 9999) as Ey by lia.
  assert (dt_month t = 12) as Em by lia.
  unfold has_next_day in Hn. rewrite Ey, Em in *. simpl in Hn.
  assert (dt_day t = 31) as Ed.
  { unfold days_in_month in *. simpl in *. lia. }
  rewrite Ed in Hn. discriminate.
Qed.

(** *** Decimal digits *)

Lemma is_digit_48 (d : N) : d < 10 -> is_digit (48 + d) = true.
Proof.
  intros H. unfold is_digit, in_range.
  apply andb_true_intro; split; apply N.leb_le; lia.
Qed.

Lemma mod10_lt (n : N) : n mod 10 < 10.
Proof. apply N.mod_lt. discriminate. Qed.

Lemma pad2_digits (n : N) : forallb is_digit (pad2 n) = true.
Proof.
  unfold pad2. cbn [forallb].
  now rewrite !is_digit_48 by apply mod10_lt.
Qed.

(** With enough fuel the digits of [n] are those of [n / 10] followed by
    the last. *)
Lemma dec_digits_acc (fuel : nat) : forall n acc,
  dec_digits fuel n acc = dec_digits fuel n [] ++ acc.
Proof.
  induction fuel as [|f IH]; intros n acc; simpl; [reflexivity|].
  destruct (n <? 10); [reflexivity|].
  rewrite IH. rewrite (IH _ [_]). now rewrite <- app_assoc.
Qed.

Lemma dec_digits_enough (fuel : nat) : forall n f',
  n < 2 ^ N.of_nat fuel -> (1 <= fuel)%nat /\ (fuel <= f')%nat ->
  dec_digits f' n [] = dec_digits fuel n [].
Proof.
  induction fuel as [|f IH]; intros n f' Hn Hf; [lia|].
  destruct f' as [|f']; [lia|]. simpl.
  destruct (n <? 10) eqn:E; [reflexivity|]. apply N.ltb_ge in E.
  rewrite dec_digits_acc, (dec_digits_acc f).
  f_equal.
  rewrite Nat2N.inj_succ, N.pow_succ_r' in Hn.
  assert (Hd : n / 10 < 2 ^ N.of_nat f).
  { apply N.Div0.div_lt_upper_bound. lia. }
  apply IH; [assumption|].
  destruct f as [|f]; [|lia].
  change (2 ^ N.of_nat 0) with 1 in Hd. clear - Hd E. nlia.
Qed.

Lemma str_of_N_step (n : N) :
  10 <= n -> str_of_N n = str_of_N (n / 10) ++ [48 + n mod 10].
Proof.
  intros H. unfold str_of_N.
  set (f := N.to_nat (N.log2 n)).
  set (g := S (N.to_nat (N.log2 (n / 10)))).
  assert (Hlog : n < 2 ^ N.succ (N.log2 n)) by (apply N.log2_spec; lia).
  rewrite N.pow_succ_r' in Hlog.
  assert (Hq : 0 < n / 10) by (clear - H; nlia).
  assert (Hg : n / 10 < 2 ^ N.of_nat g).
  { unfold g. rewrite Nat2N.inj_succ, N2Nat.id. now apply N.log2_spec. }
  assert (Hgf : (1 <= g)%nat /\ (g <= f)%nat).
  { unfold g, f.
    assert (N.log2 (n / 10) < N.log2 n); [|lia].
    apply N.log2_lt_pow2; [assumption|].
    apply N.Div0.div_lt_upper_bound. lia. }
  clearbody f g.
  rewrite <- (dec_digits_enough g (n / 10) f Hg Hgf).
  cbn [dec_digits]. assert ((n <? 10) = false) as -> by (apply N.ltb_ge; lia).
  apply dec_digits_acc.
Qed.

Lemma str_of_N_small (n : N) : n < 10 -> str_of_N n = [48 + n].
Proof.
  intros H. unfold str_of_N. cbn [dec_digits].
  assert ((n <? 10) = true) as -> by (apply N.ltb_lt; lia).
  now rewrite N.mod_small.
Qed.

Lemma str_of_N_digits (n : N) : forallb is_digit (str_of_N n) = true.
Proof.
  induction n as [n IH] using (well_founded_induction N.lt_wf_0).
  destruct (N.lt_ge_cases n 10) as [H|H].
  - rewrite str_of_N_small by assumption. cbn [forallb].
    now rewrite is_digit_48.
  - rewrite str_of_N_step, forallb_app by assumption.
    rewrite IH. 2:{ apply N.Div0.div_lt_upper_bound. lia. }
    cbn [forallb]. now rewrite is_digit_48 by apply mod10_lt.
Qed.

Lemma str_of_N_nonempty (n : N) : str_of_N n <> [].
Proof.
  destruct (N.lt_ge_cases n 10) as [H|H].
  - now rewrite str_of_N_small.
  - rewrite str_of_N_step by assumption. now destruct (str_of_N (n / 10)).
Qed.

(** From 1000 to 9999 a year has four digits. *)
Lemma str_of_N_four (n : N) :
  1000 <= n <= 9999 ->
  str_of_N n = [48 + n / 1000; 48 + (n / 100) mod 10;
                48 + (n / 10) mod 10; 48 + n mod 10].
Proof.
  intros H.
  rewrite (str_of_N_step n) by lia.
  rewrite (str_of_N_step (n / 10)) by (clear - H; nlia).
  rewrite (str_of_N_step (n / 10 / 10)) by (clear - H; nlia).
  rewrite str_of_N_small by (clear - H; nlia).
  cbn [app].
  assert (n / 10 / 10 / 10 = n / 1000) as -> by (clear; nlia).
  assert (n / 10 / 10 = n / 100) as -> by (clear; nlia).
  reflexivity.
Qed.

Lemma strftime_iso_shape (t : datetime) :
  1000 <= dt_year t <= 9999 -> is_iso_timestamp (strftime_iso t) = true.
Proof.
  intros H. unfold strftime_iso. rewrite str_of_N_four by assumption.
  unfold pad2. cbn -[N.div N.modulo N.add is_digit].
  rewrite !is_digit_48; try apply mod10_lt; [reflexivity|].
  apply N.Div0.div_lt_upper_bound. lia.
Qed.

Lemma is_leap_spec (y : N) :
  is_leap y = true <-> (y mod 4 = 0 /\ (y mod 100 <> 0 \/ y mod 400 = 0)).
Proof.
  unfold is_leap.
  rewrite andb_true_iff, orb_true_iff, negb_true_iff, !N.eqb_eq, N.eqb_neq.
  tauto.
Qed.

Lemma days_before_year_succ (y : N) :
  1 <= y ->
  days_before_year (y + 1)
  = days_before_year y + 365 + (if is_leap y then 1 else 0).
Proof.
  intros Hy. unfold days_before_year.
  replace (y + 1 - 1) with y by lia.
  destruct (is_leap y) eqn:E.
  - apply is_leap_spec in E. clear - E Hy. nlia.
  - assert (H : ~ (y mod 4 = 0 /\ (y mod 100 <> 0 \/ y mod 400 = 0))).
    { rewrite <- is_leap_spec. congruence. }
    clear - H Hy. nlia.
Qed.

Lemma days_before_month_succ (y m : N) :
  1 <= m <= 11 ->
  days_before_month y (m + 1) = days_before_month y m + days_in_month y m.
Proof.
  intros Hm.
  assert (Hc : m = 1 \/ m = 2 \/ m = 3 \/ m = 4 \/ m = 5 \/ m = 6 \/ m = 7
               \/ m = 8 \/ m = 9 \/ m = 10 \/ m = 11) by lia.
  unfold days_before_month, days_in_month.
  repeat (destruct Hc as [->|Hc]); [..|subst m];
    destruct (is_leap y); reflexivity.
Qed.

(** [add_one_day] is the day of the next ordinal, at the same time: it
    is [t + timedelta(days=1)]. *)
Lemma add_one_day_ordinal (t t' : datetime) :
  valid_datetime t -> add_one_day t = Ok t' ->
  toordinal t' = toordinal t + 1 /\
  (dt_hour t', dt_minute t', dt_second t')
  = (dt_hour t, dt_minute t, dt_second t).
Proof.
  intros (Hy & Hm & Hd & _) H. unfold add_one_day in H.
  destruct (dt_day t <? days_in_month (dt_year t) (dt_month t)) eqn:E1.
  { injection H as <-. unfold toordinal. simpl. split; [lia|reflexivity]. }
  apply N.ltb_ge in E1.
  destruct (dt_month t <? 12) eqn:E2.
  { apply N.ltb_lt in E2. injection H as <-. unfold toordinal. simpl.
    split; [|reflexivity].
    rewrite days_before_month_succ by lia. lia. }
  apply N.ltb_ge in E2.
  destruct (dt_year t <? 9999) eqn:E3; [|discriminate].
  injection H as <-. unfold toordinal. simpl. split; [|reflexivity].
  rewrite days_before_year_succ by lia.
  assert (dt_month t = 12) as Em by lia. rewrite Em in *.
  unfold days_before_month, days_in_month in *. simpl in *.
  destruct (is_leap (dt_year t)), (is_leap (dt_year t + 1)); lia.
Qed.

(* ---------------------------------------------------------------- *)
(** ** The Taskcluster responder *)

Lemma mock_auth_taskcluster_unfold (now : datetime) (request_body : str)
  (payload : json) :
  json_loads request_body = Ok payload ->
  mock_auth_taskcluster now request_body =
    match taskcluster_try now payload with
    | Ok (b, code) =>
        Ok (Response code json_headers (BodyText (json_dumps b)))
    | Raise e =>
        Ok (Response 401 json_headers (BodyText (json_dumps (failure_body e))))
    end.
Proof.
  intros H. unfold mock_auth_taskcluster. rewrite H. cbn [bind].
  destruct (taskcluster_try now payload) as [[b code]|e]; reflexivity.
Qed.


Lemma taskcluster_try_missing (now : datetime) (d : dict json) :
  dict_get (py "authorization") d = None ->
  taskcluster_try now (JObj d) = Raise missing_authorization.
Proof.
  intros H. unfold taskcluster_try. cbn [py_contains bind].
  unfold dict_mem. now rewrite H.
Qed.

Lemma taskcluster_try_header (now : datetime) (d : dict json) (auth : json) :
  dict_get (py "authorization") d = Some auth ->
  taskcluster_try now (JObj d) =
    (r <- parse_header_dyn auth ;;
     let (client_id, ext_data) := r in
     expires <- add_one_day now ;;
     scopes <- py_get (py "scopes") (JArr []) ext_data ;;
     Ok (success_body scopes client_id (strftime_iso expires), 200)).
Proof.
  intros H. unfold taskcluster_try. cbn [py_contains bind].
  unfold dict_mem. rewrite H. cbn [negb py_getitem].
  unfold dict_getitem. rewrite H. reflexivity.
Qed.



(** C2, as amended.  When the body is a JSON object whose [authorization]
    is a header that [parse_header] accepts with a mapping as extension
    data, whose scopes hold no floating-point number, and the clock is not
    on the last day of the calendar, the response is 200 with the success
    body: the [scopes] entry of the extension data or the empty list, the
    scheme, the decoded identifier, and, under the key [expires], the next
    day at the same time; from the year 1000 on, that text has the shape
    YYYY-MM-DDTHH:MM:SS. *)
Theorem taskcluster_success (now : datetime) (request_body h client_id : str)
  (d ext : dict json) :
  valid_datetime now -> has_next_day now = true ->
  json_loads request_body = Ok (JObj d) ->
  dict_get (py "authorization") d = Some (JStr h) ->
  parse_header h = Ok (client_id, JObj ext) ->
  float_free (scopes_of ext) = true ->
  exists expires,
    add_one_day now = Ok expires /\
    toordinal expires = toordinal now + 1 /\
    (1000 <= dt_year now ->
     is_iso_timestamp (strftime_iso expires) = true) /\
    mock_auth_taskcluster now request_body =
      Ok (Response 200 json_headers
            (BodyText (json_dumps (success_body (scopes_of ext) client_id
                                     (strftime_iso expires))))).
Proof.
  intros Hv Hn Hl Hd Hp _.
  destruct (add_one_day_ok now Hv Hn) as (t' & Ht' & Hv' & Hy).
  exists t'. split; [assumption|]. split.
  { now apply (add_one_day_ordinal now t' Hv Ht'). }
  split.
  { intros H1000. apply strftime_iso_shape.
    destruct Hv' as [Hy' _]. lia. }
  rewrite (mock_auth_taskcluster_unfold _ _ _ Hl).
  rewrite (taskcluster_try_header _ _ _ Hd). cbn [parse_header_dyn].
  rewrite Hp. cbn [bind]. rewrite Ht'. reflexivity.
Qed.

(* ---------------------------------------------------------------- *)
(** ** Induction on JSON values *)

Lemma json_induction (P : json -> Prop) :
  P JNull -> (forall b, P (JBool b)) -> (forall z, P (JInt z)) ->
  (forall lit, P (JFloat lit)) -> (forall s, P (JStr s)) ->
  (forall l, Forall P l -> P (JArr l)) ->
  (forall d, Forall (fun kv => P (snd kv)) d -> P (JObj d)) ->
  forall v, P v.
Proof.
  intros HN HB HI HF HS HA HO.
  fix IH 1. intros [| b | z | lit | s | l | d];
    [exact HN | apply HB | apply HI | apply HF | apply HS | |].
  - apply HA. induction l as [|x l IHl]; constructor; [apply IH|exact IHl].
  - apply HO. induction d as [|[k x] d IHd]; constructor;
      [apply IH|exact IHd].
Qed.

(* ---------------------------------------------------------------- *)
(** ** ASCII text and UTF-8 *)

Lemma is_ascii_Forall (s : str) :
  is_ascii s = true <-> Forall (fun c => c < 128) s.
Proof.
  unfold is_ascii. rewrite forallb_forall, Forall_forall.
  split; intros H c Hc; apply N.ltb_lt; auto.
Qed.

Lemma is_ascii_app (a b : str) :
  is_ascii (a ++ b) = is_ascii a && is_ascii b.
Proof. apply forallb_app. Qed.

Lemma utf8_encode_ascii (s : str) :
  is_ascii s = true -> utf8_encode s = Ok s.
Proof.
  induction s as [|c s IH]; simpl; [reflexivity|].
  intros H. apply andb_prop in H as [Hc Hs].
  unfold utf8_encode_char. rewrite Hc. cbn [bind]. now rewrite IH.
Qed.

Lemma utf8_encode_app (a b : str) (x y : bytes) :
  utf8_encode a = Ok x -> utf8_encode b = Ok y ->
  utf8_encode (a ++ b) = Ok (x ++ y).
Proof.
  revert x; induction a as [|c a IH]; simpl; intros x Ha Hb.
  - injection Ha as <-. assumption.
  - destruct (utf8_encode_char c) as [bc|]; [|discriminate].
    cbn [bind] in *. destruct (utf8_encode a) as [xa|]; [|discriminate].
    cbn [bind] in *. injection Ha as <-.
    rewrite (IH xa eq_refl Hb). cbn [bind]. now rewrite app_assoc.
Qed.

Lemma utf8_encode_encodable (s : str) :
  encodable s = true -> exists b, utf8_encode s = Ok b.
Proof.
  induction s as [|c s IH]; simpl; [now exists []|].
  intros H. apply andb_prop in H as [Hc Hs].
  apply andb_prop in Hc as [Hr Hsur].
  destruct (IH Hs) as [b ->].
  unfold utf8_encode_char. rewrite Hr.
  apply negb_true_iff in Hsur. rewrite Hsur.
  destruct (c <? 128); [now eexists|].
  destruct (c <? 2048); [now eexists|].
  destruct (c <? 65536); now eexists.
Qed.

(** *** The text the encoder writes is ASCII *)

Lemma is_ascii_py_digit (d : N) : d < 10 -> (48 + d <? 128) = true.
Proof. intros H. apply N.ltb_lt. lia. Qed.

Lemma is_digit_ascii (s : str) :
  forallb is_digit s = true -> is_ascii s = true.
Proof.
  unfold is_ascii. rewrite !forallb_forall. intros H c Hc.
  specialize (H c Hc). unfold is_digit, in_range in H.
  apply andb_prop in H as [_ H]. apply N.leb_le in H.
  apply N.ltb_lt. lia.
Qed.

Lemma str_of_N_ascii (n : N) : is_ascii (str_of_N n) = true.
Proof. apply is_digit_ascii, str_of_N_digits. Qed.

Lemma str_of_Z_ascii (z : Z) : is_ascii (str_of_Z z) = true.
Proof.
  destruct z as [|q|q]; unfold str_of_Z; apply str_of_N_ascii.
Qed.

Lemma hex_digit_is_hex (n : N) : is_hex_digit (hex_digit n) = true.
Proof.
  unfold is_hex_digit, hex_digit, is_digit, in_range.
  assert (H : n mod 16 < 16) by (apply N.mod_lt; discriminate).
  set (d := n mod 16) in *. clearbody d.
  destruct (d <? 10) eqn:E.
  - apply N.ltb_lt in E. apply orb_true_iff. left.
    apply andb_true_intro; split; apply N.leb_le; lia.
  - apply N.ltb_ge in E. apply orb_true_iff. right.
    apply andb_true_intro; split; apply N.leb_le; lia.
Qed.

Lemma hex_fixed_is_hex (k : nat) : forall n,
  forallb is_hex_digit (hex_fixed k n) = true.
Proof.
  induction k as [|k IH]; intros n; simpl; [reflexivity|].
  rewrite forallb_app, IH. simpl. now rewrite hex_digit_is_hex.
Qed.

Lemma hex_fixed_length (k : nat) : forall n, length (hex_fixed k n) = k.
Proof.
  induction k as [|k IH]; intros n; simpl; [reflexivity|].
  rewrite length_app, IH. simpl. lia.
Qed.

Lemma is_hex_ascii (s : str) :
  forallb is_hex_digit s = true -> is_ascii s = true.
Proof.
  unfold is_ascii. rewrite !forallb_forall. intros H c Hc.
  specialize (H c Hc). unfold is_hex_digit, is_digit, in_range in H.
  apply N.ltb_lt.
  apply orb_prop in H as [H|H]; apply andb_prop in H as [_ H];
    apply N.leb_le in H; lia.
Qed.

(** The digest is forty hexadecimal digits. *)
Lemma sha1_hexdigest_hex (m : bytes) :
  forallb is_hex_digit (sha1_hexdigest m) = true /\
  length (sha1_hexdigest m) = 40%nat.
Proof.
  unfold sha1_hexdigest.
  destruct (sha1_blocks _ _ _) as [[[[a b] c] d] e].
  rewrite !forallb_app, !length_app, !hex_fixed_is_hex, !hex_fixed_length.
  split; reflexivity.
Qed.

Lemma hex_fixed_ascii (k : nat) (n : N) : is_ascii (hex_fixed k n) = true.
Proof. apply is_hex_ascii, hex_fixed_is_hex. Qed.

Lemma escape_char_ascii (c : char) : is_ascii (escape_char c) = true.
Proof.
  unfold escape_char.
  repeat match goal with
         | |- context [if ?b then _ else _] =>
             destruct b eqn:?; [try reflexivity|]
         end.
  - unfold in_range in *. unfold is_ascii. cbn [forallb].
    rewrite andb_true_r.
    apply andb_prop in Heqb6 as [_ H]. apply N.leb_le in H.
    apply N.ltb_lt. lia.
  - change (is_ascii ([92; 117] ++ hex_fixed 4 c) = true).
    rewrite is_ascii_app. apply andb_true_intro. split; [reflexivity|].
    apply is_hex_ascii, hex_fixed_is_hex.
  - match goal with
    | |- is_ascii ((92 :: 117 :: ?x) ++ 92 :: 117 :: ?y) = true =>
        change (is_ascii (([92; 117] ++ x) ++ [92; 117] ++ y) = true)
    end.
    rewrite !is_ascii_app, !hex_fixed_ascii. reflexivity.
Qed.

Lemma encode_string_ascii (s : str) : is_ascii (encode_string s) = true.
Proof.
  unfold encode_string.
  change (is_ascii ([34] ++ flat_map escape_char s ++ [34]) = true).
  rewrite !is_ascii_app.
  assert (H : is_ascii (flat_map escape_char s) = true).
  { induction s as [|c s IH]; [reflexivity|].
    cbn [flat_map]. now rewrite is_ascii_app, escape_char_ascii. }
  rewrite H. reflexivity.
Qed.

Lemma join_ascii (sep : str) (l : list str) :
  is_ascii sep = true -> Forall (fun x => is_ascii x = true) l ->
  is_ascii (join sep l) = true.
Proof.
  intros Hsep H. induction H as [|x l Hx Hl IH]; [reflexivity|].
  destruct l as [|y l]; [exact Hx|].
  change (is_ascii (x ++ sep ++ join sep (y :: l)) = true).
  now rewrite !is_ascii_app, Hx, Hsep, IH.
Qed.

Lemma insert_item_Forall {V} (P : str * V -> Prop) kv (l : list (str * V)) :
  P kv -> Forall P l -> Forall P (insert_item kv l).
Proof.
  intros Hkv H. induction H as [|x l Hx Hl IH]; simpl.
  - now constructor.
  - destruct (str_leb (fst kv) (fst x)); repeat constructor; assumption.
Qed.

Lemma sort_items_Forall {V} (P : str * V -> Prop) (l : list (str * V)) :
  Forall P l -> Forall P (sort_items l).
Proof.
  induction 1 as [|x l Hx Hl IH]; simpl; [constructor|].
  now apply insert_item_Forall.
Qed.

Lemma dumps_ascii (sort_keys : bool) (v : json) :
  floats_ascii v = true -> is_ascii (dumps sort_keys v) = true.
Proof.
  induction v as [| b | z | lit | s | l IH | d IH] using json_induction;
    intros H.
  - reflexivity.
  - now destruct b.
  - apply str_of_Z_ascii.
  - exact H.
  - apply encode_string_ascii.
  - cbn [dumps floats_ascii] in *.
    change (is_ascii ([91] ++ join item_sep (map (fun x => dumps sort_keys x) l)
                      ++ [93]) = true).
    rewrite !is_ascii_app.
    apply andb_true_intro. split; [reflexivity|]. rewrite andb_true_r.
    apply join_ascii; [reflexivity|].
    rewrite forallb_forall in H. rewrite Forall_forall in *.
    intros x Hx. apply in_map_iff in Hx as (y & <- & Hy). auto.
  - cbn [dumps floats_ascii] in *.
    match goal with
    | |- is_ascii (123 :: ?body ++ [125]) = true =>
        change (is_ascii ([123] ++ body ++ [125]) = true)
    end.
    rewrite !is_ascii_app.
    apply andb_true_intro. split; [reflexivity|]. rewrite andb_true_r.
    apply join_ascii; [reflexivity|].
    rewrite Forall_forall. intros x Hx.
    apply in_map_iff in Hx as ([k t] & <- & Hy).
    assert (Hall : Forall (fun kv : str * str => is_ascii (snd kv) = true)
                     (map (fun kv : str * json =>
                             let (k, x) := kv in (k, dumps sort_keys x)) d)).
    { rewrite forallb_forall in H. rewrite Forall_forall in *.
      intros y Hy'. apply in_map_iff in Hy' as ([k' x'] & <- & Hin).
      simpl. apply (IH _ Hin). apply (H _ Hin). }
    assert (Ht : is_ascii t = true).
    { destruct sort_keys.
      - apply sort_items_Forall in Hall. rewrite Forall_forall in Hall.
        apply (Hall _ Hy).
      - rewrite Forall_forall in Hall. apply (Hall _ Hy). }
    unfold dumps_item. cbn [fst snd].
    now rewrite !is_ascii_app, encode_string_ascii, Ht.
Qed.

(* ---------------------------------------------------------------- *)
(** ** [build_header] *)

Lemma b64_char_ascii (n : N) : (b64_char n <? 128) = true.
Proof.
  apply N.ltb_lt. unfold b64_char.
  destruct (n <? 26) eqn:E1; [apply N.ltb_lt in E1; lia|].
  destruct (n <? 52) eqn:E2; [apply N.ltb_lt in E2; lia|].
  destruct (n <? 62) eqn:E3; [apply N.ltb_lt in E3; lia|].
  destruct (n =? 62); lia.
Qed.

Lemma b64encode_ascii : forall b, is_ascii (b64encode b) = true.
Proof.
  unfold b64encode, is_ascii.
  fix IH 1. intros [|x [|y [|z b]]];
    cbn [b64encode_bytes forallb]; rewrite ?b64_char_ascii;
    try reflexivity.
  apply IH.
Qed.

Lemma b64encode_nonempty (b : bytes) : b <> [] -> b64encode b <> [].
Proof. destruct b as [|x [|y [|z b]]]; [congruence|discriminate..]. Qed.

Lemma build_header_parts (ts nonce : Z) (client_id : str)
  (ext_data : option json) :
  encodable client_id = true ->
  (forall e, ext_data = Some e -> floats_ascii e = true) ->
  let parts := signed_parts ts nonce client_id ext_data in
  exists mac_bytes,
    utf8_encode (join [10] (map snd parts)) = Ok mac_bytes /\
    build_header ts nonce client_id ext_data
    = Ok (wire (parts ++ [(py "mac", sha1_hexdigest mac_bytes)])) /\
    forallb is_hex_digit (sha1_hexdigest mac_bytes) = true /\
    length (sha1_hexdigest mac_bytes) = 40%nat.
Proof.
  intros Hid Hext parts.
  destruct (utf8_encode_encodable client_id Hid) as [idb Hidb].
  assert (Htail : forall rest, is_ascii rest = true ->
            utf8_encode (client_id ++ rest) = Ok (idb ++ rest)).
  { intros rest Hr. apply utf8_encode_app; [assumption|].
    now apply utf8_encode_ascii. }
  assert (Hmac : exists mac_bytes,
            utf8_encode (join [10] (map snd parts)) = Ok mac_bytes).
  { unfold parts, signed_parts.
    destruct ext_data as [e|]; cbn [ext_part app map snd join];
      eexists; apply Htail.
    - change (is_ascii ([10] ++ str_of_Z ts ++ [10] ++ str_of_Z nonce
                        ++ [10] ++ b64encode (dumps true e)) = true).
      now rewrite !is_ascii_app, !str_of_Z_ascii, b64encode_ascii.
    - change (is_ascii ([10] ++ str_of_Z ts ++ [10] ++ str_of_Z nonce)
              = true).
      now rewrite !is_ascii_app, !str_of_Z_ascii. }
  destruct Hmac as [mac_bytes Hmac]. exists mac_bytes.
  split; [assumption|]. split; [|apply sha1_hexdigest_hex].
  unfold build_header. revert Hmac. unfold parts, signed_parts.
  destruct ext_data as [e|]; cbn [ext_part app]; intros Hmac.
  - rewrite (utf8_encode_ascii (dumps true e))
      by (apply dumps_ascii; now apply Hext).
    cbn [bind].
    change (dict_set (py "ext") (b64encode (dumps true e))
              [(py "id", client_id); (py "ts", str_of_Z ts);
               (py "nonce", str_of_Z nonce)])
      with [(py "id", client_id); (py "ts", str_of_Z ts);
            (py "nonce", str_of_Z nonce);
            (py "ext", b64encode (dumps true e))].
    rewrite Hmac. reflexivity.
  - cbn [bind]. rewrite Hmac. reflexivity.
Qed.

(** X1.  For a client identifier that UTF-8 can encode (and extension
    data whose floats are written in ASCII), [build_header] returns the
    scheme followed by the parts [id], [ts], [nonce], then [ext] exactly
    when extension data is given, then [mac], each written as the key, an
    equals sign and the value between double quotes, separated by a comma
    and a space; [ext] is the base64 text of the JSON text with sorted
    keys, and [mac] is the SHA-1 digest, forty hexadecimal digits, of the
    values of the parts before it joined by newlines. *)
Theorem build_header_wire (ts nonce : Z) (client_id : str)
  (ext_data : option json) :
  encodable client_id = true ->
  (forall e, ext_data = Some e -> floats_ascii e = true) ->
  let parts := signed_parts ts nonce client_id ext_data in
  exists mac_bytes,
    utf8_encode (join [10] (map snd parts)) = Ok mac_bytes /\
    build_header ts nonce client_id ext_data
    = Ok (wire (parts ++ [(py "mac", sha1_hexdigest mac_bytes)])) /\
    forallb is_hex_digit (sha1_hexdigest mac_bytes) = true /\
    length (sha1_hexdigest mac_bytes) = 40%nat.
Proof. exact (build_header_parts ts nonce client_id ext_data). Qed.

(* ---------------------------------------------------------------- *)
(** ** The header pattern *)

Lemma span_spec (p : char -> bool) (s a b : str) :
  span p s = (a, b) ->
  s = a ++ b /\ forallb p a = true /\
  match b with [] => True | c :: _ => p c = false end.
Proof.
  revert a b; induction s as [|c s IH]; intros a b; simpl.
  - intros [= <- <-]. auto.
  - destruct (p c) eqn:E.
    + destruct (span p s) as [a' b'] eqn:Es. intros [= <- <-].
      destruct (IH a' b' eq_refl) as (-> & Ha & Hb).
      split; [reflexivity|]. split; [|assumption].
      apply andb_true_intro. split; assumption.
    + intros [= <- <-]. auto.
Qed.

Lemma span_app_stop (p : char -> bool) (a b : str) :
  forallb p a = true ->
  match b with [] => True | c :: _ => p c = false end ->
  span p (a ++ b) = (a, b).
Proof.
  intros Ha Hb. induction a as [|c a IH]; simpl.
  - destruct b as [|c b]; [reflexivity|]. simpl. now rewrite Hb.
  - simpl in Ha. apply andb_prop in Ha as [Hc Ha].
    now rewrite Hc, IH.
Qed.

Lemma span_length (p : char -> bool) (s a b : str) :
  span p s = (a, b) -> length s = (length a + length b)%nat.
Proof.
  intros H. apply span_spec in H as (-> & _). apply length_app.
Qed.

Lemma is_word_equals : is_word equals = false.
Proof. reflexivity. Qed.

Lemma is_val_dquote : is_val dquote = false.
Proof. reflexivity. Qed.

Lemma is_word_is_val (c : char) : is_word c = true -> is_val c = true.
Proof. intros H. unfold is_val. now rewrite H. Qed.

Lemma key_text_spec (k : str) :
  key_text k = true <-> k <> [] /\ forallb is_word k = true.
Proof.
  destruct k as [|c k]; simpl.
  - split; [discriminate|]. intros [H _]. congruence.
  - split; [|tauto]. intros H. split; [discriminate|assumption].
Qed.

Lemma value_text_spec (v : str) :
  value_text v = true <-> v <> [] /\ forallb is_val v = true.
Proof.
  destruct v as [|c v]; simpl.
  - split; [discriminate|]. intros [H _]. congruence.
  - split; [|tauto]. intros H. split; [discriminate|assumption].
Qed.

(** A match at the start of [s] is the one way to read [s] as a key, an
    equals sign, a double quote, a value and a double quote: whatever the
    order in which a matcher tries the lengths of the runs, it finds this
    match or none. *)
Lemma match_here_iff (s k v r : str) :
  match_here s = Some (k, v, r) <->
  s = format_part (k, v) ++ r /\ key_text k = true /\ value_text v = true.
Proof.
  unfold format_part. cbn [fst snd]. split.
  - unfold match_here.
    destruct (span is_word s) as [k' r1] eqn:E1.
    destruct k' as [|c k']; [discriminate|].
    destruct (strip_prefix [equals; dquote] r1) as [r2|] eqn:E2;
      [|discriminate].
    destruct (span is_val r2) as [v' r3] eqn:E3.
    destruct v' as [|c' v']; [discriminate|].
    destruct r3 as [|q r4]; [discriminate|].
    destruct (q =? dquote) eqn:Eq; [|discriminate].
    intros [= <- <- <-]. apply N.eqb_eq in Eq. subst q.
    apply span_spec in E1 as (-> & Hk & _).
    apply strip_prefix_Some in E2 as ->.
    apply span_spec in E3 as (-> & Hv & _).
    split; [|split; assumption].
    now rewrite <- !app_assoc.
  - intros (-> & Hk & Hv).
    apply key_text_spec in Hk as [Hk0 Hk].
    apply value_text_spec in Hv as [Hv0 Hv].
    unfold match_here. rewrite <- !app_assoc.
    rewrite (span_app_stop is_word k) by (assumption || exact is_word_equals).
    destruct k as [|c k]; [congruence|].
    cbn [app strip_prefix]. rewrite !N.eqb_refl.
    rewrite (span_app_stop is_val v) by (assumption || exact is_val_dquote).
    destruct v as [|c' v]; [congruence|].
    now rewrite N.eqb_refl.
Qed.

Lemma match_here_shorter (s k v r : str) :
  match_here s = Some (k, v, r) -> (length r < length s)%nat.
Proof.
  intros H. apply match_here_iff in H as (-> & _).
  unfold format_part. cbn [fst snd]. rewrite !length_app. simpl. lia.
Qed.

(** *** The scan *)

Lemma findall_fuel_enough (n : nat) : forall m s,
  (length s < n)%nat -> (length s < m)%nat ->
  findall_fuel n s = findall_fuel m s.
Proof.
  induction n as [|n IH]; intros m s Hn Hm; [lia|].
  destruct m as [|m]; [lia|]. simpl.
  destruct (match_here s) as [[[k v] r]|] eqn:E.
  - apply match_here_shorter in E. f_equal. apply IH; lia.
  - destruct s as [|c s]; [reflexivity|]. simpl in *. apply IH; lia.
Qed.

(** The equation of the scan. *)
Lemma findall_eq (s : str) :
  findall s =
    match match_here s with
    | Some (k, v, rest) => (k, v) :: findall rest
    | None => match s with
              | [] => []
              | _ :: s' => findall s'
              end
    end.
Proof.
  unfold findall at 1. cbn [findall_fuel].
  destruct (match_here s) as [[[k v] r]|] eqn:E.
  - f_equal. unfold findall. apply match_here_shorter in E.
    apply findall_fuel_enough; lia.
  - destruct s as [|c s]; [reflexivity|].
    unfold findall. apply findall_fuel_enough; simpl; lia.
Qed.

Lemma findall_match (k v r : str) :
  key_text k = true -> value_text v = true ->
  findall (format_part (k, v) ++ r) = (k, v) :: findall r.
Proof.
  intros Hk Hv. rewrite findall_eq.
  assert (H : match_here (format_part (k, v) ++ r) = Some (k, v, r)).
  { apply match_here_iff. auto. }
  now rewrite H.
Qed.

(** *** Separators *)

Lemma format_part_token (k v : str) :
  key_text k = true -> value_text v = true ->
  forallb token_char (format_part (k, v)) = true.
Proof.
  intros Hk Hv.
  apply key_text_spec in Hk as [_ Hk].
  apply value_text_spec in Hv as [_ Hv].
  unfold format_part. cbn [fst snd]. rewrite !forallb_app.
  assert (Hk' : forallb token_char k = true).
  { rewrite forallb_forall in *. intros c Hc. unfold token_char.
    now rewrite (is_word_is_val c (Hk c Hc)). }
  assert (Hv' : forallb token_char v = true).
  { rewrite forallb_forall in *. intros c Hc. unfold token_char.
    now rewrite (Hv c Hc). }
  rewrite Hk', Hv'. reflexivity.
Qed.

(** Text without separator that is a prefix of a text cut at a separator
    ends before the cut. *)
Lemma prefix_before_sep (m : str) : forall r p c x,
  forallb token_char m = true -> is_sep c = true ->
  m ++ r = p ++ c :: x ->
  exists r', p = m ++ r' /\ r = r' ++ c :: x.
Proof.
  induction m as [|a m IH]; intros r p c x Hm Hc H.
  - exists p. auto.
  - simpl in Hm. apply andb_prop in Hm as [Ha Hm].
    destruct p as [|b p].
    + simpl in H. injection H as -> _.
      unfold is_sep in Hc. rewrite Ha in Hc. discriminate.
    + simpl in H. injection H as -> H.
      destruct (IH r p c x Hm Hc H) as (r' & -> & ->).
      now exists r'.
Qed.

(** A match attempt before a separator does not look past it. *)
Lemma match_here_sep (p x y : str) (c : char) (k v r : str) :
  is_sep c = true ->
  match_here (p ++ c :: x) = Some (k, v, r) ->
  exists r', r = r' ++ c :: x /\ (length r' < length p)%nat /\
             match_here (p ++ c :: y) = Some (k, v, r' ++ c :: y).
Proof.
  intros Hc H. apply match_here_iff in H as (H & Hk & Hv).
  symmetry in H.
  destruct (prefix_before_sep _ _ _ _ _ (format_part_token k v Hk Hv) Hc H)
    as (r' & -> & ->).
  exists r'. split; [reflexivity|]. split.
  - rewrite length_app. unfold format_part. cbn [fst snd].
    rewrite !length_app. simpl. lia.
  - apply match_here_iff. rewrite <- app_assoc. auto.
Qed.

(** The scan of a text cut at a separator is the scan of what comes
    before, then the scan of what comes after. *)
Lemma findall_sep (c : char) (x : str) :
  is_sep c = true ->
  forall p, findall (p ++ c :: x) = findall (p ++ [c]) ++ findall x.
Proof.
  intros Hc p.
  induction p as [p IH] using (induction_ltof1 _ (@length char)).
  unfold ltof in IH.
  rewrite (findall_eq (p ++ c :: x)), (findall_eq (p ++ [c])).
  destruct (match_here (p ++ c :: x)) as [[[k v] r]|] eqn:E.
  - destruct (match_here_sep p x [] c k v r Hc E) as (r' & -> & Hlen & E').
    rewrite E'. cbn [app]. f_equal. now apply IH.
  - destruct (match_here (p ++ [c])) as [[[k v] r]|] eqn:E'.
    + destruct (match_here_sep p [] x c k v r Hc E') as (r' & _ & _ & E'').
      congruence.
    + destruct p as [|a p]; cbn [app].
      * rewrite (findall_eq []). reflexivity.
      * apply IH. simpl. lia.
Qed.

(* ---------------------------------------------------------------- *)
(** ** The digest is not read *)

Lemma parse_header_parts (h : str) :
  parse_header h =
    if negb (startswith h (py "Hawk "))
    then raise Exception_ "Missing Hawk prefix"
    else parse_parts (dict_of_pairs (findall h)).
Proof. reflexivity. Qed.

Lemma dict_get_fold_last {V} (k : str) (l : list (str * V)) : forall d,
  dict_get k (fold_left (fun d kv => dict_set (fst kv) (snd kv) d) l d)
  = fold_left (fun acc kv => if str_eqb k (fst kv) then Some (snd kv)
                             else acc) l (dict_get k d).
Proof.
  induction l as [|[k' v'] l IH]; intros d; simpl; [reflexivity|].
  rewrite IH. f_equal. destruct (str_eqb k k') eqn:E.
  - apply str_eqb_eq in E. subst k'. apply dict_get_set_same.
  - apply str_eqb_neq in E. now apply dict_get_set_other.
Qed.

(** A lookup in [dict(pairs)] finds the value of the last pair with the
    key. *)
Lemma dict_get_of_pairs {V} (k : str) (l : list (str * V)) :
  dict_get k (dict_of_pairs l) = last_value k l.
Proof.
  unfold dict_of_pairs, last_value.
  exact (dict_get_fold_last k l []).
Qed.

Lemma last_value_from_Some {V} (k : str) (l : list (str * V)) : forall x,
  fold_left (fun acc kv => if str_eqb k (fst kv) then Some (snd kv)
                           else acc) l (Some x) <> None.
Proof.
  induction l as [|[k' v'] l IH]; intros x; simpl; [discriminate|].
  destruct (str_eqb k k'); apply IH.
Qed.

(** Changing the value of one pair changes no lookup of another key,
    and keeps the key present. *)
Lemma dict_get_other_pair {V} (k k0 : str) (v1 v2 : V)
  (l1 l2 : list (str * V)) :
  k <> k0 ->
  dict_get k (dict_of_pairs (l1 ++ (k0, v1) :: l2))
  = dict_get k (dict_of_pairs (l1 ++ (k0, v2) :: l2)).
Proof.
  intros Hk. rewrite !dict_get_of_pairs. unfold last_value.
  rewrite !fold_left_app. cbn [fold_left fst snd].
  now apply str_eqb_neq in Hk as ->.
Qed.

Lemma dict_mem_same_pair {V} (k0 : str) (v : V) (l1 l2 : list (str * V)) :
  dict_mem k0 (dict_of_pairs (l1 ++ (k0, v) :: l2)) = true.
Proof.
  apply dict_mem_of_pairs. rewrite map_app. apply in_or_app. right.
  now left.
Qed.

Lemma parse_parts_mac (v1 v2 : str) (l1 l2 : list (str * str)) :
  parse_parts (dict_of_pairs (l1 ++ (py "mac", v1) :: l2))
  = parse_parts (dict_of_pairs (l1 ++ (py "mac", v2) :: l2)).
Proof.
  assert (Hget : forall k, k <> py "mac" ->
            dict_get k (dict_of_pairs (l1 ++ (py "mac", v1) :: l2))
            = dict_get k (dict_of_pairs (l1 ++ (py "mac", v2) :: l2))).
  { intros k Hk. now apply dict_get_other_pair. }
  unfold parse_parts, mandatory_parts, check_parts, load_ext, dict_getitem,
    dict_mem.
  rewrite (Hget (py "id")), (Hget (py "ts")), (Hget (py "nonce")),
    (Hget (py "ext")) by (vm_compute; discriminate).
  pose proof (dict_mem_same_pair (py "mac") v1 l1 l2) as H1.
  pose proof (dict_mem_same_pair (py "mac") v2 l1 l2) as H2.
  unfold dict_mem in H1, H2.
  destruct (dict_get (py "mac")
              (dict_of_pairs (l1 ++ (py "mac", v1) :: l2)));
    [|discriminate].
  destruct (dict_get (py "mac")
              (dict_of_pairs (l1 ++ (py "mac", v2) :: l2)));
    [|discriminate].
  reflexivity.
Qed.

Lemma strip_prefix_app_long (p : str) : forall a x,
  (length p <= length a)%nat ->
  strip_prefix p (a ++ x)
  = match strip_prefix p a with
    | Some r => Some (r ++ x)
    | None => None
    end.
Proof.
  induction p as [|c p IH]; intros a x H; [reflexivity|].
  destruct a as [|b a]; simpl in H; [lia|]. simpl.
  destruct (c =? b); [|reflexivity]. apply IH. lia.
Qed.

Lemma startswith_app_long (p a x y : str) :
  (length p <= length a)%nat ->
  startswith (a ++ x) p = startswith (a ++ y) p.
Proof.
  intros H. unfold startswith.
  rewrite !strip_prefix_app_long by assumption.
  now destruct (strip_prefix p a).
Qed.

(** The scan of a header around its [mac] part. *)
Lemma findall_mac_part (pre post v : str) :
  field_boundary pre -> value_text v = true ->
  exists before,
    findall (pre ++ format_part (py "mac", v) ++ post)
    = before ++ (py "mac", v) :: findall post /\
    before = findall pre.
Proof.
  intros Hb Hv. exists (findall pre). split; [|reflexivity].
  destruct Hb as [->|(p & c & -> & Hc)].
  - cbn [app]. rewrite (findall_eq []). cbn [app].
    now apply findall_match.
  - rewrite <- app_assoc. cbn [app].
    rewrite findall_sep by assumption. f_equal.
    now apply findall_match.
Qed.

(** C8.  Two headers that differ only in the value of the [mac] part
    (a part of the header: its key starts the text or follows a
    separator; both values are values that the pattern accepts) get the
    same result from [parse_header]. *)
Theorem parse_header_ignores_mac (pre post v1 v2 : str) :
  field_boundary pre ->
  value_text v1 = true -> value_text v2 = true ->
  parse_header (pre ++ format_part (py "mac", v1) ++ post)
  = parse_header (pre ++ format_part (py "mac", v2) ++ post).
Proof.
  intros Hb H1 H2. rewrite !parse_header_parts.
  destruct (findall_mac_part pre post v1 Hb H1) as (b1 & -> & ->).
  destruct (findall_mac_part pre post v2 Hb H2) as (b2 & -> & ->).
  rewrite parse_parts_mac with (v2 := v2).
  assert (Hs : startswith (pre ++ format_part (py "mac", v1) ++ post)
                 (py "Hawk ")
               = startswith (pre ++ format_part (py "mac", v2) ++ post)
                   (py "Hawk ")).
  { unfold format_part. cbn [fst snd].
    change (py "mac" ++ [equals; dquote] ++ v1 ++ [dquote])
      with ((py "mac" ++ [equals; dquote]) ++ (v1 ++ [dquote])).
    change (py "mac" ++ [equals; dquote] ++ v2 ++ [dquote])
      with ((py "mac" ++ [equals; dquote]) ++ (v2 ++ [dquote])).
    rewrite <- !(app_assoc (py "mac" ++ [equals; dquote])).
    rewrite !(app_assoc pre).
    apply startswith_app_long. rewrite !length_app.
    change (length (py "mac")) with 3%nat.
    change (length (py "Hawk ")) with 5%nat. cbn [length]. lia. }
  now rewrite Hs.
Qed.

(* ---------------------------------------------------------------- *)
(** ** Decoding what the encoder wrote *)

Lemma utf8_decode_ascii (s : str) :
  is_ascii s = true -> utf8_decode s = Ok s.
Proof.
  induction s as [|c s IH]; intros H; [reflexivity|].
  simpl in H. apply andb_prop in H as [Hc Hs].
  cbn [utf8_decode]. rewrite Hc, (IH Hs). reflexivity.
Qed.

(** *** base64 *)

Lemma b64_value_char (n : N) :
  n < 64 -> b64_value (b64_char n) = Some n /\ (b64_char n =? 61) = false.
Proof.
  intros H. unfold b64_char, b64_value, in_range.
  destruct (n <? 26) eqn:E1.
  { apply N.ltb_lt in E1.
    assert ((65 <=? 65 + n) = true) as -> by (apply N.leb_le; lia).
    assert ((65 + n <=? 90) = true) as -> by (apply N.leb_le; lia).
    cbn [andb]. split; [f_equal; lia|apply N.eqb_neq; lia]. }
  apply N.ltb_ge in E1.
  destruct (n <? 52) eqn:E2.
  { apply N.ltb_lt in E2.
    assert ((71 + n <=? 90) = false) as -> by (apply N.leb_gt; lia).
    rewrite andb_false_r.
    assert ((97 <=? 71 + n) = true) as -> by (apply N.leb_le; lia).
    assert ((71 + n <=? 122) = true) as -> by (apply N.leb_le; lia).
    cbn [andb]. split; [f_equal; lia|apply N.eqb_neq; lia]. }
  apply N.ltb_ge in E2.
  destruct (n <? 62) eqn:E3.
  { apply N.ltb_lt in E3.
    assert ((65 <=? n - 4) = false) as -> by (apply N.leb_gt; lia).
    assert ((97 <=? n - 4) = false) as -> by (apply N.leb_gt; lia).
    assert ((48 <=? n - 4) = true) as -> by (apply N.leb_le; lia).
    assert ((n - 4 <=? 57) = true) as -> by (apply N.leb_le; lia).
    cbn [andb]. split; [f_equal; lia|apply N.eqb_neq; lia]. }
  apply N.ltb_ge in E3.
  destruct (n =? 62) eqn:E4.
  { apply N.eqb_eq in E4. subst n. split; reflexivity. }
  apply N.eqb_neq in E4. assert (n = 63) as -> by lia.
  split; reflexivity.
Qed.

(** The steps of the decoder on a character of the alphabet, by position
    in the group of four. *)
Lemma a2b_loop_char0 (n l q : N) (w : bytes) (s : str) :
  n < 64 ->
  a2b_loop (b64_char n :: s) (A2B 0 l q w) = a2b_loop s (A2B 1 n 0 w).
Proof.
  intros H. destruct (b64_value_char n H) as [Hv Hp].
  cbn [a2b_loop]. now rewrite Hp, Hv.
Qed.

Lemma a2b_loop_char1 (n l q : N) (w : bytes) (s : str) :
  n < 64 ->
  a2b_loop (b64_char n :: s) (A2B 1 l q w)
  = a2b_loop s (A2B 2 (n mod 16) 0 ((l * 4 + n / 16) :: w)).
Proof.
  intros H. destruct (b64_value_char n H) as [Hv Hp].
  cbn [a2b_loop]. now rewrite Hp, Hv.
Qed.

Lemma a2b_loop_char2 (n l q : N) (w : bytes) (s : str) :
  n < 64 ->
  a2b_loop (b64_char n :: s) (A2B 2 l q w)
  = a2b_loop s (A2B 3 (n mod 4) 0 ((l * 16 + n / 4) :: w)).
Proof.
  intros H. destruct (b64_value_char n H) as [Hv Hp].
  cbn [a2b_loop]. now rewrite Hp, Hv.
Qed.

Lemma a2b_loop_char3 (n l q : N) (w : bytes) (s : str) :
  n < 64 ->
  a2b_loop (b64_char n :: s) (A2B 3 l q w)
  = a2b_loop s (A2B 0 0 0 ((l * 64 + n) :: w)).
Proof.
  intros H. destruct (b64_value_char n H) as [Hv Hp].
  cbn [a2b_loop]. now rewrite Hp, Hv.
Qed.

(** The decoder on the text the encoder wrote: it writes the bytes back,
    and stops on the padding or at the end of a group. *)
Lemma a2b_loop_encoded : forall (b : bytes) (w : bytes),
  Forall (fun x => x < 256) b ->
  exists st padded,
    a2b_loop (b64encode_bytes b) (A2B 0 0 0 w) = (st, padded) /\
    written st = rev b ++ w /\
    (padded = true \/ quad_pos st = 0).
Proof.
  fix IH 1. intros [|x [|y [|z b]]] w Hb.
  - exists (A2B 0 0 0 w), false. repeat split. now right.
  - apply Forall_inv in Hb. cbv beta in Hb.
    cbn [b64encode_bytes].
    rewrite a2b_loop_char0, a2b_loop_char1 by (clear - Hb; nlia).
    eexists. exists true. split; [reflexivity|].
    cbn [written rev app]. split; [|now left].
    f_equal. clear - Hb. nlia.
  - pose proof (Forall_inv Hb) as Hx.
    pose proof (Forall_inv (Forall_inv_tail Hb)) as Hy.
    cbv beta in Hx, Hy. cbn [b64encode_bytes].
    rewrite a2b_loop_char0, a2b_loop_char1, a2b_loop_char2
      by (clear - Hx Hy; nlia).
    eexists. exists true. split; [reflexivity|].
    cbn [written rev app]. split; [|now left].
    f_equal; [|f_equal]; clear - Hx Hy; nlia.
  - pose proof (Forall_inv Hb) as Hx.
    pose proof (Forall_inv (Forall_inv_tail Hb)) as Hy.
    pose proof (Forall_inv (Forall_inv_tail (Forall_inv_tail Hb))) as Hz.
    pose proof (Forall_inv_tail (Forall_inv_tail (Forall_inv_tail Hb)))
      as Hrest.
    cbv beta in Hx, Hy, Hz. cbn [b64encode_bytes].
    rewrite a2b_loop_char0, a2b_loop_char1, a2b_loop_char2, a2b_loop_char3
      by (clear - Hx Hy Hz; nlia).
    match goal with
    | |- context [a2b_loop (b64encode_bytes b) (A2B 0 0 0 ?w')] =>
        destruct (IH b w' Hrest) as (st & padded & Hrun & Hw & Hq)
    end.
    exists st, padded. split; [exact Hrun|]. split; [|assumption].
    rewrite Hw. cbn [rev]. rewrite <- !app_assoc. cbn [app].
    f_equal. f_equal; [|f_equal; [|f_equal]]; clear - Hx Hy Hz; nlia.
Qed.

Lemma ascii_bytes (s : str) :
  is_ascii s = true -> Forall (fun x => x < 256) s.
Proof.
  intros H. apply is_ascii_Forall in H.
  eapply Forall_impl; [|exact H]. simpl. intros; lia.
Qed.

(** [b64decode] gives back the bytes that [b64encode] was given. *)
Lemma b64decode_b64encode (b : bytes) :
  Forall (fun x => x < 256) b -> b64decode (b64encode b) = Ok b.
Proof.
  intros Hb. unfold b64decode.
  pose proof (b64encode_ascii b) as Ha. unfold is_ascii in Ha. rewrite Ha.
  unfold a2b_base64, b64encode.
  destruct (a2b_loop_encoded b [] Hb) as (st & padded & Hrun & Hw & Hq).
  rewrite Hrun, Hw, app_nil_r, rev_involutive.
  destruct Hq as [Hq|Hq]; rewrite Hq; [reflexivity|].
  now rewrite orb_true_r.
Qed.

(* ---------------------------------------------------------------- *)
(** ** Reading back the JSON text of the encoder *)

(** *** Strings *)

Lemma hex_value_digit (n : N) : hex_value (hex_digit n) = Some (n mod 16).
Proof.
  unfold hex_digit, hex_value, is_digit, in_range.
  assert (H : n mod 16 < 16) by (apply N.mod_lt; discriminate).
  set (d := n mod 16) in *. clearbody d.
  destruct (d <? 10) eqn:E.
  - apply N.ltb_lt in E.
    assert ((48 <=? 48 + d) = true) as -> by (apply N.leb_le; lia).
    assert ((48 + d <=? 57) = true) as -> by (apply N.leb_le; lia).
    cbn [andb]. f_equal. lia.
  - apply N.ltb_ge in E.
    assert ((87 + d <=? 57) = false) as -> by (apply N.leb_gt; lia).
    rewrite andb_false_r.
    assert ((97 <=? 87 + d) = true) as -> by (apply N.leb_le; lia).
    assert ((87 + d <=? 102) = true) as -> by (apply N.leb_le; lia).
    cbn [andb]. f_equal. lia.
Qed.

Lemma hex_fixed_4 (n : N) :
  hex_fixed 4 n = [hex_digit (n / 16 / 16 / 16); hex_digit (n / 16 / 16);
                   hex_digit (n / 16); hex_digit n].
Proof. reflexivity. Qed.

Lemma hex4_digits (n : N) :
  n < 65536 ->
  hex4 (hex_digit (n / 16 / 16 / 16)) (hex_digit (n / 16 / 16))
       (hex_digit (n / 16)) (hex_digit n) = Some n.
Proof.
  intros H. unfold hex4. rewrite !hex_value_digit. f_equal.
  clear - H. nlia.
Qed.

(** The equations of [scanstring] on an escape. *)
Lemma scanstring_escape_u (a b c d : char) (r : str) :
  scanstring (92 :: 117 :: a :: b :: c :: d :: r) =
    match hex4 a b c d with
    | None => None
    | Some n =>
        if in_range 55296 56319 n then
          match r with
          | bs :: u :: a2 :: b2 :: c2 :: d2 :: r3 =>
              match (if (bs =? 92) && (u =? 117)
                     then hex4 a2 b2 c2 d2 else None) with
              | Some n2 =>
                  if in_range 56320 57343 n2
                  then cons_res (65536 + (n - 55296) * 1024 + (n2 - 56320))
                                (scanstring r3)
                  else cons_res n (scanstring r)
              | None => cons_res n (scanstring r)
              end
          | _ => cons_res n (scanstring r)
          end
        else cons_res n (scanstring r)
    end.
Proof. reflexivity. Qed.

Lemma scanstring_plain (c : char) (r : str) :
  (c =? 34) = false -> (c =? 92) = false -> (c <? 32) = false ->
  scanstring (c :: r) = cons_res c (scanstring r).
Proof. intros H1 H2 H3. cbn [scanstring]. now rewrite H1, H2, H3. Qed.

(** Reading the escape of a character gives the character. *)
Lemma scanstring_escape_char (c : char) (r : str) :
  (c <? 1114112) = true -> is_surrogate c = false ->
  scanstring (escape_char c ++ r) = cons_res c (scanstring r).
Proof.
  intros Hc Hs. unfold escape_char.
  destruct (c =? 34) eqn:E1; [apply N.eqb_eq in E1; now subst c|].
  destruct (c =? 92) eqn:E2; [apply N.eqb_eq in E2; now subst c|].
  destruct (c =? 10) eqn:E3; [apply N.eqb_eq in E3; now subst c|].
  destruct (c =? 13) eqn:E4; [apply N.eqb_eq in E4; now subst c|].
  destruct (c =? 9) eqn:E5; [apply N.eqb_eq in E5; now subst c|].
  destruct (c =? 8) eqn:E6; [apply N.eqb_eq in E6; now subst c|].
  destruct (c =? 12) eqn:E7; [apply N.eqb_eq in E7; now subst c|].
  destruct (in_range 32 126 c) eqn:E8.
  { cbn [app]. apply scanstring_plain; try assumption.
    unfold in_range in E8. apply andb_prop in E8 as [H _].
    apply N.leb_le in H. apply N.ltb_ge. lia. }
  unfold is_surrogate, in_range in Hs.
  apply N.ltb_lt in Hc.
  destruct (c <? 65536) eqn:E9.
  - apply N.ltb_lt in E9. rewrite hex_fixed_4. cbn [app].
    rewrite scanstring_escape_u, hex4_digits by assumption.
    assert (in_range 55296 56319 c = false) as ->; [|reflexivity].
    unfold in_range. apply andb_false_iff in Hs.
    apply andb_false_iff. destruct Hs as [H|H]; [now left|right].
    apply N.leb_gt in H. apply N.leb_gt. lia.
  - apply N.ltb_ge in E9. rewrite !hex_fixed_4. cbn [app].
    rewrite scanstring_escape_u.
    set (hi := 55296 + (c - 65536) / 1024 mod 1024).
    set (lo := 56320 + (c - 65536) mod 1024).
    assert (Hhi : 55296 <= hi <= 56319)
      by (unfold hi; clear - Hc E9; nlia).
    assert (Hlo : 56320 <= lo <= 57343)
      by (unfold lo; clear - Hc E9; nlia).
    rewrite (hex4_digits hi) by lia.
    assert (in_range 55296 56319 hi = true) as ->.
    { unfold in_range. apply andb_true_intro. split; apply N.leb_le; lia. }
    rewrite !N.eqb_refl. cbn [andb].
    rewrite (hex4_digits lo) by lia.
    assert (in_range 56320 57343 lo = true) as ->.
    { unfold in_range. apply andb_true_intro. split; apply N.leb_le; lia. }
    f_equal. unfold hi, lo. clear - Hc E9. nlia.
Qed.

Lemma scanstring_encoded (s rest : str) :
  encodable s = true ->
  scanstring (flat_map escape_char s ++ 34 :: rest) = Some (s, rest).
Proof.
  induction s as [|c s IH]; intros H; [reflexivity|].
  simpl in H. apply andb_prop in H as [Hc Hs].
  apply andb_prop in Hc as [Hc Hsur]. apply negb_true_iff in Hsur.
  cbn [flat_map]. rewrite <- app_assoc.
  rewrite scanstring_escape_char by assumption.
  now rewrite (IH Hs).
Qed.

(** *** Integers *)

Lemma digits_value_app (a : str) (d : char) :
  digits_value (a ++ [d]) = digits_value a * 10 + (d - 48).
Proof. unfold digits_value. now rewrite fold_left_app. Qed.

Lemma digits_value_str_of_N (n : N) : digits_value (str_of_N n) = n.
Proof.
  induction n as [n IH] using (well_founded_induction N.lt_wf_0).
  destruct (N.lt_ge_cases n 10) as [H|H].
  - rewrite str_of_N_small by assumption. unfold digits_value.
    cbn [fold_left]. lia.
  - rewrite str_of_N_step, digits_value_app by assumption.
    rewrite IH by (clear - H; nlia). clear - H. nlia.
Qed.

(** The text of a natural number starts with a digit, which is zero only
    for zero, written with that one digit. *)
Lemma str_of_N_head (n : N) :
  exists d r, str_of_N n = d :: r /\ is_digit d = true /\
              (d = 48 -> n = 0 /\ r = []).
Proof.
  induction n as [n IH] using (well_founded_induction N.lt_wf_0).
  destruct (N.lt_ge_cases n 10) as [H|H].
  - rewrite str_of_N_small by assumption. exists (48 + n), [].
    split; [reflexivity|]. split; [now apply is_digit_48|].
    intros E. split; [lia|reflexivity].
  - rewrite str_of_N_step by assumption.
    destruct (IH (n / 10)) as (d & r & -> & Hd & H0);
      [clear - H; nlia|].
    exists d, (r ++ [48 + n mod 10]). split; [reflexivity|].
    split; [assumption|]. intros E. destruct (H0 E) as [Hq _].
    exfalso. clear - H Hq. nlia.
Qed.

Lemma delimited_not_digit (rest : str) :
  delimited rest ->
  match rest with [] => True | c :: _ => is_digit c = false end.
Proof.
  destruct rest as [|c rest]; [trivial|]. simpl.
  now intros [->|[->| ->]].
Qed.

Lemma scan_frac_delimited (rest : str) :
  delimited rest -> scan_frac rest = ([], rest).
Proof.
  destruct rest as [|c [|d rest]]; try reflexivity. simpl.
  now intros [->|[->| ->]].
Qed.

Lemma scan_exp_delimited (rest : str) :
  delimited rest -> scan_exp rest = ([], rest).
Proof.
  destruct rest as [|c rest]; [reflexivity|]. simpl.
  now intros [->|[->| ->]].
Qed.

Lemma scan_number_N (n : N) (rest : str) :
  delimited rest ->
  scan_number (str_of_N n ++ rest) = Some (JInt (Z.of_N n), rest) /\
  scan_number (45 :: str_of_N n ++ rest) = Some (JInt (- Z.of_N n), rest).
Proof.
  intros Hrest.
  destruct (str_of_N_head n) as (d & r & E & Hd & H0).
  assert (Hspan : span is_digit (str_of_N n ++ rest) = (str_of_N n, rest)).
  { apply span_app_stop; [apply str_of_N_digits|].
    now apply delimited_not_digit. }
  assert (Hd45 : (d =? 45) = false).
  { unfold is_digit, in_range in Hd. apply andb_prop in Hd as [H _].
    apply N.leb_le in H. apply N.eqb_neq. lia. }
  assert (Hip : (if d =? 48 then ([d], r ++ rest)
                 else span is_digit (d :: r ++ rest))
                = (str_of_N n, rest)).
  { destruct (d =? 48) eqn:E48.
    - apply N.eqb_eq in E48. destruct (H0 E48) as [_ ->].
      now rewrite E.
    - rewrite <- Hspan, E. reflexivity. }
  pose proof (digits_value_str_of_N n) as Hval.
  unfold scan_number. rewrite E in *. cbn [app].
  rewrite Hd45, N.eqb_refl, Hd, Hip.
  rewrite (scan_frac_delimited rest Hrest), (scan_exp_delimited rest Hrest).
  rewrite Hval. split; reflexivity.
Qed.

Lemma scan_number_Z (z : Z) (rest : str) :
  delimited rest ->
  scan_number (str_of_Z z ++ rest) = Some (JInt z, rest).
Proof.
  intros Hrest. destruct z as [|q|q]; unfold str_of_Z.
  - apply (scan_number_N 0 rest Hrest).
  - apply (scan_number_N (N.pos q) rest Hrest).
  - apply (scan_number_N (N.pos q) rest Hrest).
Qed.

(** [scan_once] on text that starts as a number reads a number. *)
Lemma scan_once_digit (f : nat) (d : char) (r : str) :
  is_digit d = true ->
  scan_once (S f) (d :: r) = scan_number (d :: r) /\
  scan_once (S f) (45 :: d :: r) = scan_number (45 :: d :: r).
Proof.
  intros Hd. unfold is_digit, in_range in Hd.
  apply andb_prop in Hd as [H1 H2].
  apply N.leb_le in H1. apply N.leb_le in H2.
  assert (E : forall k, k < 48 \/ 57 < k -> (k =? d) = false /\
                                            (d =? k) = false).
  { intros k Hk. split; apply N.eqb_neq; lia. }
  cbn [scan_once].
  destruct (E 34) as [_ ->]; [lia|].
  destruct (E 123) as [_ ->]; [lia|].
  destruct (E 91) as [_ ->]; [lia|].
  change (py "null") with (110 :: py "ull").
  change (py "true") with (116 :: py "rue").
  change (py "false") with (102 :: py "alse").
  change (py "NaN") with (78 :: py "aN").
  change (py "Infinity") with (73 :: py "nfinity").
  change (py "-Infinity") with (45 :: 73 :: py "nfinity").
  cbn [strip_prefix].
  destruct (E 110) as [-> _]; [lia|].
  destruct (E 116) as [-> _]; [lia|].
  destruct (E 102) as [-> _]; [lia|].
  destruct (E 78) as [-> _]; [lia|].
  destruct (E 73) as [-> _]; [lia|].
  destruct (E 45) as [-> _]; [lia|].
  split; reflexivity.
Qed.

Lemma scan_once_int (f : nat) (z : Z) (rest : str) :
  delimited rest ->
  scan_once (S f) (str_of_Z z ++ rest) = Some (JInt z, rest).
Proof.
  intros Hrest. rewrite <- (scan_number_Z z rest Hrest).
  destruct z as [|q|q]; unfold str_of_Z.
  - destruct (str_of_N_head (Z.to_N 0)) as (d & r & -> & Hd & _).
    apply (scan_once_digit f d (r ++ rest) Hd).
  - destruct (str_of_N_head (Z.to_N (Z.pos q))) as (d & r & -> & Hd & _).
    apply (scan_once_digit f d (r ++ rest) Hd).
  - destruct (str_of_N_head (N.pos q)) as (d & r & -> & Hd & _).
    apply (scan_once_digit f d (r ++ rest) Hd).
Qed.

(** *** Sorted items *)

Lemma insert_item_perm {V} (kv : str * V) (l : list (str * V)) :
  Permutation (insert_item kv l) (kv :: l).
Proof.
  induction l as [|x l IH]; simpl; [reflexivity|].
  destruct (str_leb (fst kv) (fst x)); [reflexivity|].
  rewrite IH. apply perm_swap.
Qed.

Lemma sort_items_perm {V} (l : list (str * V)) :
  Permutation (sort_items l) l.
Proof.
  induction l as [|x l IH]; simpl; [reflexivity|].
  rewrite insert_item_perm. now constructor.
Qed.

Lemma insert_item_map {A B} (f : A -> B) (kv : str * A)
  (l : list (str * A)) :
  insert_item (on_snd f kv) (map (on_snd f) l)
  = map (on_snd f) (insert_item kv l).
Proof.
  induction l as [|x l IH]; simpl; [reflexivity|].
  destruct (str_leb (fst kv) (fst x)); [reflexivity|].
  simpl. now rewrite IH.
Qed.

(** Sorting looks at the keys only. *)
Lemma sort_items_map {A B} (f : A -> B) (l : list (str * A)) :
  sort_items (map (on_snd f) l) = map (on_snd f) (sort_items l).
Proof.
  induction l as [|x l IH]; simpl; [reflexivity|].
  now rewrite IH, insert_item_map.
Qed.

Lemma map_on_snd {A B} (f : A -> B) (l : list (str * A)) :
  map (fun kv : str * A => let (k, x) := kv in (k, f x)) l
  = map (on_snd f) l.
Proof. apply map_ext. now intros [k x]. Qed.

Lemma map_fst_on_snd {A B} (f : A -> B) (l : list (str * A)) :
  map fst (map (on_snd f) l) = map fst l.
Proof. rewrite map_map. apply map_ext. reflexivity. Qed.

Lemma distinct_NoDup (l : list str) : distinct l = true -> NoDup l.
Proof.
  induction l as [|k l IH]; simpl; intros H; [constructor|].
  apply andb_prop in H as [H1 H2]. constructor; [|now apply IH].
  intros Hin. apply negb_true_iff in H1.
  assert (existsb (str_eqb k) l = true); [|congruence].
  apply existsb_exists. exists k. split; [assumption|apply str_eqb_refl].
Qed.

Lemma dict_set_fresh {V} (k : str) (v : V) (d : dict V) :
  ~ In k (map fst d) -> dict_set k v d = d ++ [(k, v)].
Proof.
  induction d as [|[k' v'] d IH]; simpl; intros H; [reflexivity|].
  destruct (str_eqb k k') eqn:E.
  - apply str_eqb_eq in E. subst. exfalso. apply H. now left.
  - rewrite IH; [reflexivity|]. intros Hin. apply H. now right.
Qed.

Lemma fold_dict_set_distinct {V} (l : list (str * V)) : forall d,
  NoDup (map fst (d ++ l)) ->
  fold_left (fun d kv => dict_set (fst kv) (snd kv) d) l d = d ++ l.
Proof.
  induction l as [|[k v] l IH]; intros d H; simpl.
  - now rewrite app_nil_r.
  - rewrite dict_set_fresh.
    + rewrite IH; rewrite <- app_assoc; [reflexivity|assumption].
    + rewrite map_app in H. simpl in H.
      apply NoDup_remove_2 in H. intros Hin. apply H.
      apply in_or_app. now left.
Qed.

(** A dictionary built from pairs with distinct keys is the list of the
    pairs. *)
Lemma dict_of_pairs_distinct {V} (l : list (str * V)) :
  NoDup (map fst l) -> dict_of_pairs l = l.
Proof. intros H. unfold dict_of_pairs. now rewrite fold_dict_set_distinct. Qed.

(** *** The first character of a value *)

Lemma skip_ws_stop (c : char) (r : str) :
  is_ws c = false -> skip_ws (c :: r) = c :: r.
Proof. intros H. simpl. now rewrite H. Qed.

Lemma dumps_head (v : json) :
  plain_json v = true ->
  exists c r, dumps true v = c :: r /\ is_ws c = false /\
              (c =? 93) = false /\ (c =? 125) = false.
Proof.
  destruct v as [| [|] | z | lit | s | l | d]; intros H;
    try (eexists; eexists; split; [reflexivity|]; repeat split; fail);
    try discriminate.
  assert (Hn : forall n, exists c r, str_of_N n = c :: r /\ is_ws c = false
                         /\ (c =? 93) = false /\ (c =? 125) = false).
  { intros n. destruct (str_of_N_head n) as (c & r & E & Hd & _).
    exists c, r. split; [assumption|].
    unfold is_digit, in_range in Hd. apply andb_prop in Hd as [H1 H2].
    apply N.leb_le in H1. apply N.leb_le in H2. unfold is_ws.
    assert ((c =? 32) = false) as -> by (apply N.eqb_neq; lia).
    assert ((c =? 9) = false) as -> by (apply N.eqb_neq; lia).
    assert ((c =? 10) = false) as -> by (apply N.eqb_neq; lia).
    assert ((c =? 13) = false) as -> by (apply N.eqb_neq; lia).
    repeat split; apply N.eqb_neq; lia. }
  destruct z as [|q|q]; cbn [dumps]; unfold str_of_Z.
  - apply Hn.
  - apply Hn.
  - eexists; eexists; split; [reflexivity|]; repeat split.
Qed.

(** *** Lists and mappings *)

Lemma join_cons2 (sep a b : str) (l : list str) :
  join sep (a :: b :: l) = a ++ sep ++ join sep (b :: l).
Proof. reflexivity. Qed.

Lemma scan_once_arr (f : nat) (r : str) :
  scan_once (S f) (91 :: r) =
    match skip_ws r with
    | c' :: r' => if c' =? 93 then Some (JArr [], r')
                  else parse_array f (c' :: r') []
    | [] => None
    end.
Proof. reflexivity. Qed.

Lemma scan_once_obj (f : nat) (r : str) :
  scan_once (S f) (123 :: r) =
    match skip_ws r with
    | c' :: r' => if c' =? 125 then Some (JObj [], r')
                  else parse_object f (c' :: r') []
    | [] => None
    end.
Proof. reflexivity. Qed.

Lemma scan_once_str (f : nat) (r : str) :
  scan_once (S f) (34 :: r) =
    match scanstring r with
    | Some (x, r') => Some (JStr x, r')
    | None => None
    end.
Proof. reflexivity. Qed.

Lemma parse_array_eq (f : nat) (s : str) (acc : list json) :
  parse_array (S f) s acc =
    match scan_once f s with
    | None => None
    | Some (x, r) =>
        match skip_ws r with
        | c :: r' =>
            if c =? 93 then Some (JArr (rev (x :: acc)), r')
            else if c =? 44 then parse_array f (skip_ws r') (x :: acc)
            else None
        | [] => None
        end
    end.
Proof. reflexivity. Qed.

Lemma parse_object_eq (f : nat) (s1 : str) (acc : list (str * json)) :
  parse_object (S f) (34 :: s1) acc =
    match scanstring s1 with
    | None => None
    | Some (k, r) =>
        match skip_ws r with
        | colon :: r1 =>
            if colon =? 58 then
              match scan_once f (skip_ws r1) with
              | None => None
              | Some (x, r2) =>
                  match skip_ws r2 with
                  | c :: r' =>
                      if c =? 125
                      then Some (JObj (dict_of_pairs (rev ((k, x) :: acc))),
                                 r')
                      else if c =? 44
                      then parse_object f (skip_ws r') ((k, x) :: acc)
                      else None
                  | [] => None
                  end
              end
            else None
        | [] => None
        end
    end.
Proof. reflexivity. Qed.

(** White space before a value is skipped up to the value. *)
Lemma skip_ws_value (v : json) (z : str) :
  plain_json v = true ->
  skip_ws (32 :: dumps true v ++ z) = dumps true v ++ z /\
  skip_ws (dumps true v ++ z) = dumps true v ++ z.
Proof.
  intros H. destruct (dumps_head v H) as (c & r & -> & Hc & _).
  cbn [app]. change (skip_ws (32 :: c :: r ++ z)) with (skip_ws (c :: r ++ z)).
  now rewrite skip_ws_stop.
Qed.

Lemma parse_array_items (l : list json) :
  Forall (fun x => plain_json x = true /\ reads_back x) l -> l <> [] ->
  forall fuel acc rest,
    (length (join item_sep (map (dumps true) l)) + 1 <= fuel)%nat ->
    parse_array fuel (join item_sep (map (dumps true) l) ++ 93 :: rest) acc
    = Some (JArr (rev acc ++ map canon l), rest).
Proof.
  induction l as [|x l IH]; [congruence|].
  intros HF _ fuel acc rest Hfuel.
  pose proof (Forall_inv HF) as [Hpx Hrx].
  pose proof (Forall_inv_tail HF) as HFl.
  destruct fuel as [|f]; [lia|]. rewrite parse_array_eq.
  destruct l as [|y l].
  - cbn [map join] in *.
    rewrite (Hrx f (93 :: rest)) by (lia || (right; now left)).
    rewrite skip_ws_stop by reflexivity. rewrite N.eqb_refl.
    reflexivity.
  - cbn [map] in *. rewrite join_cons2 in *.
    rewrite !length_app in Hfuel. rewrite <- !app_assoc.
    change (item_sep ++ ?z) with (44 :: 32 :: z).
    rewrite (Hrx f) by (lia || now left).
    rewrite skip_ws_stop by reflexivity.
    change (44 =? 93) with false. change (44 =? 44) with true. cbv iota.
    pose proof (Forall_inv HFl) as [Hpy _].
    assert (Hskip : forall z,
              skip_ws (32 :: join item_sep (dumps true y
                                             :: map (dumps true) l) ++ z)
              = join item_sep (dumps true y :: map (dumps true) l) ++ z).
    { intros z. destruct l as [|y' l'].
      - cbn [map join]. apply (skip_ws_value y z Hpy).
      - cbn [map]. rewrite join_cons2, <- app_assoc.
        apply (skip_ws_value y _ Hpy). }
    rewrite Hskip.
    rewrite (IH HFl) by (discriminate ||
          (cbn [map]; change (length item_sep) with 2%nat in Hfuel; lia)).
    cbn [rev map]. now rewrite <- app_assoc.
Qed.

Lemma parse_object_items (items : list (str * json)) :
  Forall (fun kv => encodable (fst kv) = true /\
                    plain_json (snd kv) = true /\ reads_back (snd kv))
         items ->
  items <> [] ->
  forall fuel acc rest,
    (length (join item_sep
               (map dumps_item (map (on_snd (dumps true)) items))) + 1
     <= fuel)%nat ->
    parse_object fuel
      (join item_sep (map dumps_item (map (on_snd (dumps true)) items))
       ++ 125 :: rest) acc
    = Some (JObj (dict_of_pairs (rev acc ++ map (on_snd canon) items)),
            rest).
Proof.
  induction items as [|[k x] l IH]; [congruence|].
  intros HF _ fuel acc rest Hfuel.
  pose proof (Forall_inv HF) as (Hk & Hpx & Hrx). cbn [fst snd] in *.
  pose proof (Forall_inv_tail HF) as HFl.
  destruct fuel as [|f]; [lia|].
  assert (Hitem : forall z,
            dumps_item (on_snd (dumps true) (k, x)) ++ z
            = 34 :: flat_map escape_char k
                 ++ 34 :: 58 :: 32 :: dumps true x ++ z).
  { intros z. unfold dumps_item, on_snd, encode_string. cbn [fst snd].
    cbn [app]. rewrite <- !app_assoc. reflexivity. }
  assert (Hlen : (length (dumps true x) + 4
                  <= length (dumps_item (on_snd (dumps true) (k, x))))%nat).
  { unfold dumps_item, on_snd, encode_string, key_sep. cbn [fst snd].
    repeat (rewrite length_app || cbn [length]). lia. }
  destruct l as [|[k' y] l].
  - cbn [map join] in *. rewrite Hitem, parse_object_eq.
    rewrite scanstring_encoded by assumption.
    rewrite skip_ws_stop by reflexivity. rewrite N.eqb_refl.
    rewrite (proj1 (skip_ws_value x _ Hpx)).
    rewrite (Hrx f (125 :: rest)) by (lia || (right; now right)).
    rewrite skip_ws_stop by reflexivity. rewrite N.eqb_refl.
    reflexivity.
  - cbn [map] in *. rewrite join_cons2 in *.
    rewrite !length_app in Hfuel. rewrite <- !app_assoc.
    rewrite Hitem, parse_object_eq.
    rewrite scanstring_encoded by assumption.
    rewrite skip_ws_stop by reflexivity. rewrite N.eqb_refl.
    rewrite (proj1 (skip_ws_value x _ Hpx)).
    change (item_sep ++ ?z) with (44 :: 32 :: z).
    rewrite (Hrx f) by (lia || now left).
    rewrite skip_ws_stop by reflexivity.
    change (44 =? 125) with false. change (44 =? 44) with true. cbv iota.
    assert (Hskip : forall z,
              skip_ws (32 :: join item_sep
                         (dumps_item (on_snd (dumps true) (k', y))
                          :: map dumps_item (map (on_snd (dumps true)) l))
                       ++ z)
              = join item_sep
                  (dumps_item (on_snd (dumps true) (k', y))
                   :: map dumps_item (map (on_snd (dumps true)) l)) ++ z).
    { intros z. destruct l as [|kv l']; reflexivity. }
    rewrite Hskip.
    rewrite (IH HFl) by (discriminate ||
          (cbn [map]; change (length item_sep) with 2%nat in Hfuel; lia)).
    cbn [rev map]. now rewrite <- app_assoc.
Qed.

(** The text of a value with sorted keys is read back as the value with
    sorted keys. *)
Lemma scan_once_dumps (v : json) : plain_json v = true -> reads_back v.
Proof.
  induction v as [| b | z | lit | s | l IH | d IH] using json_induction;
    intros H fuel rest Hfuel Hrest.
  - destruct fuel as [|f]; [simpl in Hfuel; lia|]. reflexivity.
  - destruct fuel as [|f]; [destruct b; simpl in Hfuel; lia|].
    destruct b; reflexivity.
  - destruct fuel as [|f].
    { exfalso. cbn [dumps] in Hfuel.
      destruct z as [|q|q]; unfold str_of_Z in Hfuel;
        try (destruct (str_of_N_head (Z.to_N 0)) as (c & r & E & _);
             rewrite E in Hfuel; simpl in Hfuel; lia);
        try (destruct (str_of_N_head (Z.to_N (Z.pos q)))
               as (c & r & E & _);
             rewrite E in Hfuel; simpl in Hfuel; lia).
      simpl in Hfuel. lia. }
    now apply scan_once_int.
  - discriminate.
  - destruct fuel as [|f]; [simpl in Hfuel; lia|].
    cbn [dumps canon plain_json] in *. unfold encode_string.
    cbn [app]. rewrite <- app_assoc. cbn [app].
    rewrite scan_once_str, scanstring_encoded by assumption. reflexivity.
  - cbn [dumps canon plain_json] in *.
    destruct fuel as [|f]; [simpl in Hfuel; lia|].
    cbn [app]. rewrite scan_once_arr.
    destruct l as [|x l].
    + reflexivity.
    + assert (HF : Forall (fun x => plain_json x = true /\ reads_back x)
                     (x :: l)).
      { rewrite forallb_forall in H. rewrite Forall_forall in *.
        intros y Hy. split; [now apply H|]. apply IH; [assumption|].
        now apply H. }
      change (map (fun x0 => dumps true x0) (x :: l))
        with (map (dumps true) (x :: l)) in *.
      change (map (fun x0 => canon x0) (x :: l)) with (map canon (x :: l)).
      rewrite <- app_assoc. cbn [app].
      assert (Hstart : exists c r,
                join item_sep (map (dumps true) (x :: l)) ++ 93 :: rest
                = c :: r /\ is_ws c = false /\ (c =? 93) = false).
      { pose proof (Forall_inv HF) as [Hpx _].
        destruct (dumps_head x Hpx) as (c & r & E & Hc & H93 & _).
        destruct l as [|y l]; cbn [map]; [cbn [join]|rewrite join_cons2];
          rewrite E; eexists; eexists; (split; [reflexivity|]);
            split; assumption. }
      destruct Hstart as (c & r & E & Hc & H93).
      rewrite E, skip_ws_stop, H93 by assumption. rewrite <- E.
      rewrite (parse_array_items (x :: l) HF) by
        (discriminate || (cbn [length] in Hfuel; rewrite length_app in Hfuel;
                          cbn [length] in Hfuel; lia)).
      reflexivity.
  - cbn [dumps canon plain_json] in *.
    apply andb_prop in H as [Hdist Hall].
    rewrite !map_on_snd, !sort_items_map in *.
    destruct fuel as [|f]; [simpl in Hfuel; lia|].
    cbn [app]. rewrite scan_once_obj.
    assert (HFd : Forall (fun kv => encodable (fst kv) = true /\
                                    plain_json (snd kv) = true /\
                                    reads_back (snd kv)) d).
    { rewrite forallb_forall in Hall. rewrite Forall_forall in *.
      intros kv Hkv. specialize (Hall kv Hkv).
      apply andb_prop in Hall as [Hk Hp].
      split; [assumption|]. split; [assumption|]. now apply IH. }
    apply sort_items_Forall in HFd.
    assert (Hnodup : NoDup (map fst (map (on_snd canon) (sort_items d)))).
    { rewrite map_fst_on_snd.
      apply (Permutation_NoDup (l := map fst d)).
      - apply Permutation_map. symmetry. apply sort_items_perm.
      - now apply distinct_NoDup. }
    destruct (sort_items d) as [|[k x] items] eqn:Es.
    + reflexivity.
    + rewrite <- app_assoc. cbn [app].
      assert (Hstart : exists r,
                join item_sep
                  (map dumps_item
                     (map (on_snd (dumps true)) ((k, x) :: items)))
                ++ 125 :: rest = 34 :: r).
      { destruct items as [|kv items']; cbn [map];
          [cbn [join]|rewrite join_cons2];
          unfold dumps_item at 1, on_snd at 1, encode_string;
          cbn [fst snd app]; eexists; reflexivity. }
      destruct Hstart as (r & E).
      rewrite E, skip_ws_stop by reflexivity.
      change (34 =? 125) with false. cbv iota. rewrite <- E.
      rewrite (parse_object_items ((k, x) :: items) HFd) by
        (discriminate || (cbn [length] in Hfuel; rewrite length_app in Hfuel;
                          cbn [length] in Hfuel; lia)).
      cbn [rev app]. now rewrite dict_of_pairs_distinct.
Qed.

(** [json.loads] of the text [json.dumps] writes with sorted keys. *)
Lemma json_loads_dumps (v : json) :
  plain_json v = true -> json_loads (dumps true v) = Ok (canon v).
Proof.
  intros H. unfold json_loads.
  destruct (dumps_head v H) as (c & r & E & Hc & _).
  assert (Hbom : startswith (dumps true v) [65279] = false).
  { pose proof (dumps_ascii true v) as Ha.
    assert (Hf : floats_ascii v = true).
    { clear - H. induction v as [| b | z | lit | s | l IH | d IH]
        using json_induction; try reflexivity; try discriminate.
      - cbn [plain_json floats_ascii] in *.
        rewrite forallb_forall in *. rewrite Forall_forall in IH. auto.
      - cbn [plain_json floats_ascii] in *.
        apply andb_prop in H as [_ H].
        rewrite forallb_forall in *. rewrite Forall_forall in IH.
        intros kv Hkv. specialize (H kv Hkv).
        apply andb_prop in H as [_ H]. auto. }
    specialize (Ha Hf). rewrite E in *. cbn [is_ascii forallb] in Ha.
    apply andb_prop in Ha as [Ha _]. apply N.ltb_lt in Ha.
    unfold startswith. cbn [strip_prefix].
    assert ((65279 =? c) = false) as -> by (apply N.eqb_neq; lia).
    reflexivity. }
  rewrite Hbom.
  assert (Hskip : skip_ws (dumps true v) = dumps true v).
  { rewrite E. now apply skip_ws_stop. }
  rewrite Hskip.
  pose proof (scan_once_dumps v H (2 * length (dumps true v) + 2)%nat [])
    as Hscan.
  rewrite app_nil_r in Hscan. rewrite Hscan by (lia || exact I).
  reflexivity.
Qed.

(** *** Equality up to the order of the keys *)

Lemma json_equiv_canon (v : json) : json_equiv v (canon v).
Proof.
  induction v as [| b | z | lit | s | l IH | d IH] using json_induction.
  - constructor.
  - constructor.
  - constructor.
  - constructor.
  - constructor.
  - cbn [canon]. apply equiv_arr.
    change (map (fun x => canon x) l) with (map canon l).
    induction IH as [|x l Hx Hl IHl]; constructor; assumption.
  - cbn [canon]. rewrite map_on_snd.
    apply (equiv_obj d _ (map (on_snd canon) d)).
    + apply sort_items_perm.
    + induction IH as [|kv l Hx Hl IHl]; constructor;
        [split; [reflexivity|assumption]|assumption].
Qed.

(* ---------------------------------------------------------------- *)
(** ** Round trip of the header *)

Lemma plain_floats_ascii (v : json) :
  plain_json v = true -> floats_ascii v = true.
Proof.
  induction v as [| b | z | lit | s | l IH | d IH] using json_induction;
    intros H; try reflexivity; try discriminate.
  - cbn [plain_json floats_ascii] in *.
    rewrite forallb_forall in *. rewrite Forall_forall in IH. auto.
  - cbn [plain_json floats_ascii] in *.
    apply andb_prop in H as [_ H].
    rewrite forallb_forall in *. rewrite Forall_forall in IH.
    intros kv Hkv. specialize (H kv Hkv).
    apply andb_prop in H as [_ H]. auto.
Qed.

(** *** The values of the parts are values of the pattern *)

Lemma is_digit_word (c : char) : is_digit c = true -> is_word c = true.
Proof.
  intros H. unfold is_word, ascii_alnum. rewrite H.
  unfold is_digit, in_range in H. apply andb_prop in H as [_ H].
  apply N.leb_le in H.
  assert ((c <? 128) = true) as -> by (apply N.ltb_lt; lia).
  reflexivity.
Qed.

Lemma is_hex_digit_word (c : char) :
  is_hex_digit c = true -> is_word c = true.
Proof.
  intros H. unfold is_hex_digit in H. apply orb_prop in H as [H|H].
  - now apply is_digit_word.
  - unfold is_word, ascii_alnum, in_range in *.
    apply andb_prop in H as [H1 H2].
    apply N.leb_le in H1. apply N.leb_le in H2.
    assert ((c <? 128) = true) as -> by (apply N.ltb_lt; lia).
    assert ((97 <=? c) = true) as -> by (apply N.leb_le; lia).
    assert ((c <=? 122) = true) as -> by (apply N.leb_le; lia).
    cbn [andb]. now rewrite !orb_true_r.
Qed.

Lemma forallb_impl {A} (p q : A -> bool) (l : list A) :
  (forall x, p x = true -> q x = true) ->
  forallb p l = true -> forallb q l = true.
Proof.
  intros Hpq. rewrite !forallb_forall. auto.
Qed.

Lemma value_text_nonempty (v : str) :
  v <> [] -> forallb is_val v = true -> value_text v = true.
Proof. intros H1 H2. apply value_text_spec. auto. Qed.

Lemma value_text_str_of_N (n : N) : value_text (str_of_N n) = true.
Proof.
  apply value_text_nonempty; [apply str_of_N_nonempty|].
  apply (forallb_impl is_digit); [|apply str_of_N_digits].
  intros c Hc. now apply is_word_is_val, is_digit_word.
Qed.

Lemma value_text_str_of_Z (z : Z) : value_text (str_of_Z z) = true.
Proof.
  destruct z as [|q|q]; unfold str_of_Z; try apply value_text_str_of_N.
  pose proof (value_text_str_of_N (N.pos q)) as H.
  apply value_text_spec in H as [_ H].
  apply value_text_nonempty; [discriminate|].
  cbn [forallb]. now rewrite H.
Qed.

Lemma value_text_digest (m : bytes) : value_text (sha1_hexdigest m) = true.
Proof.
  destruct (sha1_hexdigest_hex m) as [Hhex Hlen].
  apply value_text_nonempty.
  - intros E. rewrite E in Hlen. discriminate.
  - apply (forallb_impl is_hex_digit); [|assumption].
    intros c Hc. now apply is_word_is_val, is_hex_digit_word.
Qed.

Lemma b64_char_val (n : N) :
  (43 =? b64_char n) = true \/ is_val (b64_char n) = true.
Proof.
  unfold b64_char.
  destruct (n <? 26) eqn:E1.
  { right. apply N.ltb_lt in E1. unfold is_val, is_word, ascii_alnum, in_range.
    assert ((65 + n <? 128) = true) as -> by (apply N.ltb_lt; lia).
    assert ((65 <=? 65 + n) = true) as -> by (apply N.leb_le; lia).
    assert ((65 + n <=? 90) = true) as -> by (apply N.leb_le; lia).
    cbn [andb]. now rewrite !orb_true_r. }
  destruct (n <? 52) eqn:E2.
  { right. apply N.ltb_ge in E1. apply N.ltb_lt in E2.
    unfold is_val, is_word, ascii_alnum, in_range.
    assert ((71 + n <? 128) = true) as -> by (apply N.ltb_lt; lia).
    assert ((97 <=? 71 + n) = true) as -> by (apply N.leb_le; lia).
    assert ((71 + n <=? 122) = true) as -> by (apply N.leb_le; lia).
    cbn [andb]. now rewrite !orb_true_r. }
  destruct (n <? 62) eqn:E3.
  { right. apply N.ltb_ge in E2. apply N.ltb_lt in E3.
    unfold is_val, is_word, ascii_alnum, is_digit, in_range.
    assert ((n - 4 <? 128) = true) as -> by (apply N.ltb_lt; lia).
    assert ((48 <=? n - 4) = true) as -> by (apply N.leb_le; lia).
    assert ((n - 4 <=? 57) = true) as -> by (apply N.leb_le; lia).
    reflexivity. }
  destruct (n =? 62); [now left|now right].
Qed.

Lemma b64encode_val : forall b,
  forallb (fun c => (43 =? c) || is_val c) (b64encode b) = true.
Proof.
  assert (H : forall n, (43 =? b64_char n) || is_val (b64_char n) = true).
  { intros n. destruct (b64_char_val n) as [-> | ->];
      [reflexivity|apply orb_true_r]. }
  unfold b64encode. fix IH 1. intros [|x [|y [|z b]]];
    cbn [b64encode_bytes forallb]; rewrite ?H; try reflexivity.
  apply IH.
Qed.

(** The base64 text is a value of the pattern unless it holds a plus
    sign. *)
Lemma value_text_b64encode (b : bytes) :
  b <> [] -> existsb (N.eqb 43) (b64encode b) = false ->
  value_text (b64encode b) = true.
Proof.
  intros Hb Hplus. apply value_text_nonempty;
    [now apply b64encode_nonempty|].
  pose proof (b64encode_val b) as H.
  rewrite forallb_forall in *. intros c Hc. specialize (H c Hc).
  apply orb_prop in H as [H|H]; [|assumption].
  assert (existsb (N.eqb 43) (b64encode b) = true); [|congruence].
  apply existsb_exists. now exists c.
Qed.

(** *** The scan of a header in wire format *)

Lemma findall_nil : findall [] = [].
Proof. reflexivity. Qed.

Lemma findall_after_sep (p x : str) (c : char) :
  is_sep c = true -> findall (p ++ [c]) = [] ->
  findall (p ++ c :: x) = findall x.
Proof. intros Hc Hp. now rewrite findall_sep, Hp. Qed.

Lemma findall_parts (parts : list (str * str)) :
  Forall (fun kv => key_text (fst kv) = true /\ value_text (snd kv) = true)
         parts ->
  findall (join (py ", ") (map format_part parts)) = parts.
Proof.
  induction 1 as [|[k v] l [Hk Hv] Hl IH]; [reflexivity|].
  cbn [fst snd] in *. destruct l as [|q l].
  - cbn [map join]. rewrite <- (app_nil_r (format_part (k, v))).
    now rewrite findall_match, findall_nil.
  - cbn [map]. rewrite join_cons2. rewrite findall_match by assumption.
    f_equal. change (py ", " ++ ?z) with ([44] ++ 32 :: z).
    rewrite findall_after_sep by reflexivity. exact IH.
Qed.

Lemma findall_wire (parts : list (str * str)) :
  Forall (fun kv => key_text (fst kv) = true /\ value_text (snd kv) = true)
         parts ->
  findall (wire parts) = parts.
Proof.
  intros H. unfold wire.
  change (py "Hawk " ++ ?z) with (py "Hawk" ++ 32 :: z).
  rewrite findall_after_sep by reflexivity. now apply findall_parts.
Qed.

Lemma parse_parts_no_ext (i t n m : str) :
  parse_parts (dict_of_pairs [(py "id", i); (py "ts", t); (py "nonce", n);
                               (py "mac", m)])
  = Ok (i, JObj []).
Proof. reflexivity. Qed.

Lemma parse_parts_ext (i t n x m : str) :
  parse_parts (dict_of_pairs [(py "id", i); (py "ts", t); (py "nonce", n);
                               (py "ext", x); (py "mac", m)])
  = Ok (i, match decode_ext x with Ok v => v | Raise _ => JObj [] end).
Proof. reflexivity. Qed.

(** The extension data comes back from its base64 text. *)
Lemma decode_ext_encoded (e : json) :
  plain_json e = true ->
  decode_ext (b64encode (dumps true e)) = Ok (canon e).
Proof.
  intros H. unfold decode_ext.
  pose proof (dumps_ascii true e (plain_floats_ascii e H)) as Ha.
  rewrite b64decode_b64encode by now apply ascii_bytes.
  cbn [bind]. rewrite utf8_decode_ascii by assumption. cbn [bind].
  now apply json_loads_dumps.
Qed.

(** X4.  When the client identifier is a value that the
    header pattern accepts (not empty; word characters and the signs
    [= . @ - _ /]) that UTF-8 can encode, and the extension data, if any,
    is JSON data without floats whose base64 text holds no plus sign,
    [parse_header] of the header that [build_header] returns gives back the
    identifier and extension data equal to the original up to the order of
    the keys; without extension data it gives the empty mapping. *)
Theorem header_round_trip (ts nonce : Z) (client_id : str)
  (ext_data : option json) :
  value_text client_id = true -> encodable client_id = true ->
  (forall e, ext_data = Some e ->
             plain_json e = true /\
             existsb (N.eqb 43) (b64encode (dumps true e)) = false) ->
  exists h decoded,
    build_header ts nonce client_id ext_data = Ok h /\
    parse_header h = Ok (client_id, decoded) /\
    match ext_data with
    | Some e => json_equiv e decoded
    | None => decoded = JObj []
    end.
Proof.
  intros Hid Henc Hext.
  destruct (build_header_parts ts nonce client_id ext_data Henc)
    as (mac_bytes & _ & Hbuild & _).
  { intros e He. apply plain_floats_ascii. now apply Hext. }
  rewrite Hbuild.
  pose proof (value_text_digest mac_bytes) as Hmac.
  pose proof (value_text_str_of_Z ts) as Hts.
  pose proof (value_text_str_of_Z nonce) as Hnonce.
  destruct ext_data as [e|].
  - destruct (Hext e eq_refl) as [Hplain Hplus].
    assert (Hb64 : value_text (b64encode (dumps true e)) = true).
    { apply value_text_b64encode; [|assumption].
      destruct (dumps_head e Hplain) as (c & r & -> & _). discriminate. }
    eexists. exists (canon e). split; [reflexivity|].
    split; [|apply json_equiv_canon].
    rewrite parse_header_parts.
    unfold wire at 1. rewrite startswith_app. cbn [negb].
    rewrite findall_wire.
    2:{ unfold signed_parts, ext_part. cbn [app].
        repeat constructor; cbn [fst snd]; assumption. }
    unfold signed_parts, ext_part. cbn [app].
    now rewrite parse_parts_ext, decode_ext_encoded.
  - eexists. exists (JObj []). split; [reflexivity|].
    split; [|reflexivity].
    rewrite parse_header_parts.
    unfold wire at 1. rewrite startswith_app. cbn [negb].
    rewrite findall_wire.
    2:{ unfold signed_parts, ext_part. cbn [app].
        repeat constructor; cbn [fst snd]; assumption. }
    unfold signed_parts, ext_part. cbn [app].
    now rewrite parse_parts_no_ext.
Qed.

(* ---------------------------------------------------------------- *)
(** ** [parse_header]: every outcome *)

Lemma check_parts_find (parts : dict str) (ks : list str) :
  check_parts ks parts =
    match find (fun k => negb (dict_mem k parts)) ks with
    | Some k => Raise (missing_part k)
    | None => Ok tt
    end.
Proof.
  induction ks as [|k ks IH]; simpl; [reflexivity|].
  destruct (dict_mem k parts); simpl; [exact IH|reflexivity].
Qed.

Lemma find_none_all {A} (p : A -> bool) (l : list A) :
  find p l = None -> forall x, In x l -> p x = false.
Proof.
  induction l as [|a l IH]; simpl; [intros _ x []|].
  destruct (p a) eqn:E; [discriminate|].
  intros H x [<-|Hx]; [assumption|now apply IH].
Qed.

Lemma parse_header_cases (h : str) :
  let parts := dict_of_pairs (findall h) in
  (startswith h (py "Hawk ") = false /\
   parse_header h = Raise (Exc Exception_ (py "Missing Hawk prefix")))
  \/ (startswith h (py "Hawk ") = true /\
      exists k, first_missing parts = Some k /\
                In k mandatory_parts /\ ~ In k (map fst (findall h)) /\
                parse_header h = Raise (missing_part k))
  \/ (startswith h (py "Hawk ") = true /\
      first_missing parts = None /\
      exists client_id,
        last_value (py "id") (findall h) = Some client_id /\
        parse_header h = Ok (client_id, ext_of_parts parts)).
Proof.
  intros parts. rewrite parse_header_parts.
  destruct (startswith h (py "Hawk ")) eqn:Hp; cbn [negb]; [right|now left].
  unfold parse_parts. rewrite check_parts_find.
  unfold first_missing. subst parts.
  destruct (find (fun k => negb (dict_mem k (dict_of_pairs (findall h))))
              mandatory_parts) as [k|] eqn:Hf.
  - left. split; [reflexivity|]. exists k. split; [reflexivity|].
    apply find_some in Hf as [Hin Hk].
    split; [assumption|]. split; [|reflexivity].
    apply negb_true_iff in Hk. now apply dict_mem_of_pairs_false.
  - right. split; [reflexivity|]. split; [reflexivity|].
    pose proof (find_none_all _ _ Hf (py "id") (or_introl eq_refl)) as Hid.
    apply negb_false_iff in Hid.
    destruct (dict_mem_getitem _ _ Hid) as [cid Hcid].
    exists cid. split.
    + now rewrite dict_get_of_pairs in Hcid.
    + cbn [bind]. unfold dict_getitem. now rewrite Hcid.
Qed.

(** X7.  [parse_header] has three outcomes and no other: the error of the
    prefix; the error that names the first mandatory part, in the order
    [id], [mac], [ts], [nonce], that no part of the header has as key; or
    the value of the last [id] part with the extension data.  No
    [KeyError] leaves it. *)
Theorem parse_header_outcomes (h : str) :
  let parts := dict_of_pairs (findall h) in
  (startswith h (py "Hawk ") = false /\
   parse_header h = Raise (Exc Exception_ (py "Missing Hawk prefix")))
  \/ (startswith h (py "Hawk ") = true /\
      exists k, first_missing parts = Some k /\
                In k mandatory_parts /\ ~ In k (map fst (findall h)) /\
                parse_header h = Raise (missing_part k))
  \/ (startswith h (py "Hawk ") = true /\
      first_missing parts = None /\
      exists client_id,
        last_value (py "id") (findall h) = Some client_id /\
        parse_header h = Ok (client_id, ext_of_parts parts)).
Proof. exact (parse_header_cases h). Qed.

(** *** What the scan returns *)

(** Every pair of the scan is a key and a value of the pattern. *)
Lemma findall_texts (s : str) :
  Forall (fun kv => key_text (fst kv) = true /\ value_text (snd kv) = true)
         (findall s).
Proof.
  induction s as [s IH] using (induction_ltof1 _ (@length N)).
  unfold ltof in IH. rewrite findall_eq.
  destruct (match_here s) as [[[k v] r]|] eqn:E.
  - pose proof (match_here_shorter _ _ _ _ E) as Hlen.
    apply match_here_iff in E as (_ & Hk & Hv).
    constructor; [now split|]. now apply IH.
  - destruct s as [|c s]; [constructor|]. apply IH. simpl. lia.
Qed.

Lemma last_value_In {V} (k : str) (l : list (str * V)) (v : V) :
  last_value k l = Some v -> In (k, v) l.
Proof.
  unfold last_value.
  assert (H : forall acc,
            fold_left (fun acc kv => if str_eqb k (fst kv)
                                     then Some (snd kv) else acc) l acc
            = Some v ->
            In (k, v) l \/ acc = Some v).
  { induction l as [|[k' v'] l IH]; intros acc; simpl; [now right|].
    intros H. apply IH in H as [H|H]; [now left; right|].
    destruct (str_eqb k k') eqn:E; [|now right].
    apply str_eqb_eq in E. subst k'. injection H as ->. now left; left. }
  intros Hl. destruct (H None Hl) as [Hin|Hn]; [assumption|discriminate].
Qed.

Lemma parse_header_id_value (h client_id : str) (ext : json) :
  parse_header h = Ok (client_id, ext) -> value_text client_id = true.
Proof.
  intros H.
  destruct (parse_header_cases h)
    as [[_ E]|[(_ & k & _ & _ & _ & E)|(_ & _ & cid & Hl & E)]];
    rewrite E in H; try discriminate.
  injection H as <- _. apply last_value_In in Hl.
  pose proof (findall_texts h) as Hall. rewrite Forall_forall in Hall.
  now destruct (Hall _ Hl).
Qed.

(** X8.  The identifier that [parse_header] returns is a value of the pattern:
    it is never empty and holds no character outside the class. *)
Theorem parse_header_id_text (h client_id : str) (ext : json) :
  parse_header h = Ok (client_id, ext) -> value_text client_id = true.
Proof. exact (parse_header_id_value h client_id ext). Qed.

(** X6.  An identifier that is not a value of the pattern (empty, or with a
    space, a colon, a quote...) does not come back from the header built
    with it. *)
Theorem build_header_id_lost (ts nonce : Z) (client_id h : str)
  (ext_data : option json) :
  value_text client_id = false ->
  build_header ts nonce client_id ext_data = Ok h ->
  forall ext, parse_header h <> Ok (client_id, ext).
Proof.
  intros Hid _ ext H. apply parse_header_id_value in H. congruence.
Qed.

(** X9.  On a header in wire format whose keys and values are texts of the
    pattern, a part that is repeated counts once, with its last value. *)
Theorem parse_header_last_part_wins (parts : list (str * str))
  (client_id : str) (ext : json) :
  Forall (fun kv => key_text (fst kv) = true /\ value_text (snd kv) = true)
         parts ->
  parse_header (wire parts) = Ok (client_id, ext) ->
  last_value (py "id") parts = Some client_id /\
  ext = match last_value (py "ext") parts with
        | Some x => match decode_ext x with
                    | Ok v => v
                    | Raise _ => JObj []
                    end
        | None => JObj []
        end.
Proof.
  intros Hparts H.
  destruct (parse_header_cases (wire parts))
    as [[_ E]|[(_ & k & _ & _ & _ & E)|(_ & _ & cid & Hl & E)]];
    rewrite E in H; try discriminate.
  injection H as <- <-. rewrite findall_wire in * by assumption.
  split; [assumption|].
  unfold ext_of_parts, load_ext, dict_getitem.
  rewrite dict_get_of_pairs.
  now destruct (last_value (py "ext") parts).
Qed.

(* ---------------------------------------------------------------- *)
(** ** [mock_auth_auth0]: every outcome *)

Lemma second_param_pair (p : str) :
  In 61 p -> second (split_on 61 p) = Ok (snd (param_pair p)) /\
             hd [] (split_on 61 p) = fst (param_pair p).
Proof.
  intros H. destruct (split_on_has_sep 61 p H) as (a & b & l & E).
  unfold param_pair. rewrite E. split; reflexivity.
Qed.

Lemma query_dict_pairs (ps : list str) :
  Forall (fun p => In 61 p) ps ->
  forall d, query_dict ps d = Ok (dict_update d (map param_pair ps)).
Proof.
  induction 1 as [|p ps Hp Hps IH]; intros d; [reflexivity|].
  cbn [query_dict]. destruct (second_param_pair p Hp) as [-> ->].
  cbn [bind]. rewrite IH. reflexivity.
Qed.

Lemma mock_auth_auth0_decides (url q : str) :
  url_query url = Ok q ->
  Forall (fun p => In 61 p) (query_params q) ->
  mock_auth_auth0 url =
    Ok (match last_value (py "access_token")
                (map param_pair (query_params q)) with
        | Some v => if str_eqb v (py "badtoken") then unauthorized
                    else authorized
        | None => unauthorized
        end).
Proof.
  intros Hq H.
  rewrite (mock_auth_auth0_sentinel url q
             (dict_of_pairs (map param_pair (query_params q))) Hq).
  - now rewrite dict_get_of_pairs.
  - now rewrite query_dict_pairs.
Qed.

(** X16.  For a URL that [urlparse] accepts, with the query string [q]:
    when every parameter of [q] holds an equals sign, the last
    [access_token] parameter decides: [Unauthorized] when there is none or
    its value is [badtoken], the identity record otherwise. *)
Theorem auth0_last_token_decides (url q : str) :
  url_query url = Ok q ->
  Forall (fun p => In 61 p) (query_params q) ->
  mock_auth_auth0 url =
    Ok (match last_value (py "access_token")
                (map param_pair (query_params q)) with
        | Some v => if str_eqb v (py "badtoken") then unauthorized
                    else authorized
        | None => unauthorized
        end).
Proof. exact (mock_auth_auth0_decides url q). Qed.

(** *** The steps of [urlparse] *)

Lemma partition_on_sep (sep : char) (a b : str) :
  ~ In sep a -> partition_on sep (a ++ sep :: b) = (a, Some b).
Proof.
  induction a as [|c a IH]; simpl; intros H.
  - now rewrite N.eqb_refl.
  - destruct (c =? sep) eqn:E.
    + apply N.eqb_eq in E. exfalso. apply H. now left.
    + rewrite IH; [reflexivity|]. intros Hin. apply H. now right.
Qed.

Lemma partition_on_fst_In (sep c : char) (s : str) :
  In c (fst (partition_on sep s)) -> In c s.
Proof.
  induction s as [|x s IH]; simpl; [trivial|].
  destruct (x =? sep); [intros []|].
  destruct (partition_on sep s) as [a b]. simpl in *.
  intros [H|H]; [now left|right; now apply IH].
Qed.

Lemma check_netloc_raise (netloc : str) (e : exc) :
  check_netloc netloc = Raise e -> exists msg, e = Exc ValueError msg.
Proof.
  unfold check_netloc, raise.
  destruct (xorb _ _); [intros [= <-]; now eexists|].
  destruct (_ || _); [|discriminate].
  destruct (netloc_error interpreter netloc) as [msg|]; [|discriminate].
  intros [= <-]. now eexists.
Qed.

Lemma after_netloc_raise (url : str) (e : exc) :
  after_netloc url = Raise e -> exists msg, e = Exc ValueError msg.
Proof.
  unfold after_netloc.
  destruct url as [|x [|y rest]]; try discriminate.
  destruct ((x =? 47) && (y =? 47)); [|discriminate].
  destruct (splitnetloc rest) as [netloc r].
  destruct (check_netloc netloc) as [u|e'] eqn:E; [discriminate|].
  cbn [bind]. intros [= <-]. now apply (check_netloc_raise netloc).
Qed.

(** [urlparse] raises nothing but [ValueError]. *)
Lemma url_query_raise (url : str) (e : exc) :
  url_query url = Raise e -> exists msg, e = Exc ValueError msg.
Proof.
  unfold url_query.
  destruct (after_netloc _) as [u|e'] eqn:E; [discriminate|].
  cbn [bind]. intros [= <-]. now apply after_netloc_raise in E.
Qed.

Lemma lstrip_In (p : char -> bool) (c : char) (s : str) :
  In c (lstrip p s) -> In c s.
Proof.
  induction s as [|x s IH]; [trivial|]. cbn [lstrip].
  destruct (p x); [|trivial]. intros H. right. now apply IH.
Qed.

Lemma lstrip_app_stop (p : char -> bool) (a b : str) (c : char) :
  p c = false -> lstrip p (a ++ c :: b) = lstrip p a ++ c :: b.
Proof.
  intros Hc. induction a as [|x a IH]; cbn [app lstrip].
  - now rewrite Hc.
  - now destruct (p x).
Qed.

Lemma remove_unsafe_In (c : char) (s : str) :
  In c (remove_unsafe s) -> In c s.
Proof. intros H. now apply filter_In in H. Qed.

Lemma strip_scheme_cases (url : str) :
  strip_scheme url = url \/
  exists a rest, url = a ++ 58 :: rest /\ strip_scheme url = rest /\
                 forallb is_scheme_char a = true.
Proof.
  destruct url as [|c u]; [now left|]. unfold strip_scheme.
  destruct (span is_scheme_char (c :: u)) as [a b] eqn:E.
  destruct (span_spec _ _ _ _ E) as (Eu & Ha & _).
  destruct b as [|x b]; [now left|].
  destruct (x =? 58) eqn:Ex; cbn [andb]; [|now left].
  apply N.eqb_eq in Ex. subst x.
  destruct (ascii_alpha c); [|now left].
  right. now exists a, b.
Qed.

Lemma strip_scheme_In (c : char) (url : str) :
  In c (strip_scheme url) -> In c url.
Proof.
  destruct (strip_scheme_cases url) as [->|(a & rest & -> & -> & _)];
    [trivial|].
  intros H. apply in_or_app. right. now right.
Qed.

Lemma strip_scheme_fragment (url fragment : str) :
  ~ In 35 url ->
  strip_scheme (url ++ 35 :: fragment)
  = strip_scheme url ++ 35 :: fragment.
Proof.
  intros H. destruct url as [|c u]; [reflexivity|].
  unfold strip_scheme. cbn [app].
  destruct (span is_scheme_char (c :: u)) as [a b] eqn:E.
  destruct (span_spec _ _ _ _ E) as (Eu & Ha & Hb).
  change (c :: u ++ 35 :: fragment) with ((c :: u) ++ 35 :: fragment).
  rewrite Eu. destruct b as [|x b].
  - rewrite app_nil_r.
    rewrite (span_app_stop is_scheme_char a (35 :: fragment) Ha)
      by reflexivity.
    reflexivity.
  - rewrite <- app_assoc. cbn [app].
    rewrite (span_app_stop is_scheme_char a (x :: b ++ 35 :: fragment) Ha)
      by exact Hb.
    destruct ((x =? 58) && ascii_alpha c); [reflexivity|].
    now rewrite <- app_assoc.
Qed.

Lemma after_netloc_In (c : char) (url u : str) :
  after_netloc url = Ok u -> In c u -> In c url.
Proof.
  unfold after_netloc.
  destruct url as [|x [|y rest]]; try (intros [= <-]; trivial).
  destruct ((x =? 47) && (y =? 47)); [|intros [= <-]; trivial].
  unfold splitnetloc.
  destruct (span netloc_char rest) as [netloc r] eqn:E.
  destruct (span_spec _ _ _ _ E) as (-> & _ & _).
  destruct (check_netloc netloc); [|discriminate]. cbn [bind].
  intros [= <-] H. right. right. apply in_or_app. now right.
Qed.

Lemma after_netloc_fragment (url fragment : str) :
  ~ In 35 url ->
  after_netloc (url ++ 35 :: fragment)
  = (u <- after_netloc url ;; Ok (u ++ 35 :: fragment)).
Proof.
  intros H. unfold after_netloc.
  destruct url as [|x [|y rest]]; [now destruct fragment| |].
  - cbn [app]. change (35 =? 47) with false.
    now rewrite andb_false_r.
  - cbn [app]. destruct ((x =? 47) && (y =? 47)); [|reflexivity].
    unfold splitnetloc.
    destruct (span netloc_char rest) as [netloc r] eqn:E.
    destruct (span_spec _ _ _ _ E) as (Er & Hn & Hr).
    assert (E' : span netloc_char (rest ++ 35 :: fragment)
                 = (netloc, r ++ 35 :: fragment)).
    { rewrite Er, <- app_assoc. apply span_app_stop; [assumption|].
      destruct r as [|z r]; [reflexivity|exact Hr]. }
    rewrite E'. now destruct (check_netloc netloc).
Qed.

Lemma url_query_fragment (url fragment : str) :
  ~ In 35 url -> url_query (url ++ 35 :: fragment) = url_query url.
Proof.
  intros H. unfold url_query.
  rewrite (lstrip_app_stop c0_control_or_space url fragment 35 eq_refl).
  unfold remove_unsafe at 1. rewrite filter_app. cbn [filter].
  change (negb (unsafe_url_byte 35)) with true. cbv iota.
  fold (remove_unsafe (lstrip c0_control_or_space url)).
  fold (remove_unsafe fragment).
  set (u := remove_unsafe (lstrip c0_control_or_space url)).
  assert (Hu : ~ In 35 u).
  { intros Hin. apply H. unfold u in Hin.
    now apply remove_unsafe_In, lstrip_In in Hin. }
  rewrite (strip_scheme_fragment u _ Hu).
  assert (Hs : ~ In 35 (strip_scheme u)).
  { intros Hin. apply Hu. now apply strip_scheme_In. }
  rewrite (after_netloc_fragment _ _ Hs).
  destruct (after_netloc (strip_scheme u)) as [w|e] eqn:E; [|reflexivity].
  cbn [bind].
  assert (Hw : ~ In 35 w).
  { intros Hin. apply Hs. eapply after_netloc_In; eassumption. }
  rewrite (partition_on_sep 35 w _ Hw), (partition_on_no_sep 35 w Hw).
  reflexivity.
Qed.

(** A URL without question mark has an empty query string. *)
Lemma url_query_no_question_mark (url q : str) :
  ~ In 63 url -> url_query url = Ok q -> q = [].
Proof.
  intros H. unfold url_query.
  destruct (after_netloc _) as [w|e] eqn:E; [|discriminate].
  cbn [bind]. intros [= <-].
  rewrite partition_on_no_sep; [reflexivity|].
  intros Hin. apply H. apply partition_on_fst_In in Hin.
  apply (after_netloc_In 63 _ _ E) in Hin.
  now apply strip_scheme_In, remove_unsafe_In, lstrip_In in Hin.
Qed.

(** X17.  [mock_auth_auth0] has four outcomes and no other: the
    [ValueError] of [urlparse]; [IndexError], when a parameter of the
    query string holds no equals sign; and, with status 200, one of its
    two bodies. *)
Theorem auth0_outcomes (url : str) :
  (exists msg, url_query url = Raise (Exc ValueError msg) /\
               mock_auth_auth0 url = Raise (Exc ValueError msg))
  \/ (exists q, url_query url = Ok q /\
                Exists (fun p => ~ In 61 p) (query_params q) /\
                mock_auth_auth0 url = Raise index_error)
  \/ (exists q, url_query url = Ok q /\
                Forall (fun p => In 61 p) (query_params q) /\
                (mock_auth_auth0 url = Ok unauthorized \/
                 mock_auth_auth0 url = Ok authorized)).
Proof.
  destruct (url_query url) as [q|e] eqn:Hq.
  - right.
    destruct (Forall_Exists_dec (fun p => In 61 p)
                (fun p => in_char_dec 61 p) (query_params q)) as [H|H].
    + right. exists q. split; [reflexivity|]. split; [assumption|].
      rewrite (mock_auth_auth0_decides url q Hq H).
      destruct (last_value _ _) as [v|]; [|now left].
      destruct (str_eqb v (py "badtoken")); [now left|now right].
    + left. exists q. split; [reflexivity|]. split; [assumption|].
      now apply (mock_auth_auth0_raise url q).
  - left. destruct (url_query_raise url e Hq) as [msg ->].
    exists msg. split; [reflexivity|].
    now apply mock_auth_auth0_value_error.
Qed.

(** X18.  The fragment of the URL is not read: what follows the first number
    sign changes nothing. *)
Theorem auth0_fragment_ignored (url fragment : str) :
  ~ In 35 url ->
  mock_auth_auth0 (url ++ 35 :: fragment) = mock_auth_auth0 url.
Proof.
  intros H. unfold mock_auth_auth0.
  now rewrite (url_query_fragment url fragment H).
Qed.

(** X19.  A URL without question mark gets no response: its query string
    is empty, so the responder raises [IndexError], unless [urlparse] has
    raised its [ValueError] before. *)
Theorem auth0_no_question_mark (url : str) :
  ~ In 63 url ->
  (url_query url = Ok [] /\ mock_auth_auth0 url = Raise index_error)
  \/ (exists msg, url_query url = Raise (Exc ValueError msg) /\
                  mock_auth_auth0 url = Raise (Exc ValueError msg)).
Proof.
  intros H. destruct (url_query url) as [q|e] eqn:Hq.
  - left. pose proof (url_query_no_question_mark url q H Hq) as ->.
    split; [reflexivity|].
    apply (mock_auth_auth0_raise url [] Hq). left. intros [].
  - right. destruct (url_query_raise url e Hq) as [msg ->].
    exists msg. split; [reflexivity|].
    now apply mock_auth_auth0_value_error.
Qed.

(* ---------------------------------------------------------------- *)
(** ** [get_app_config] *)

Lemma dict_get_update {V} (k : str) (d other : dict V) :
  dict_get k (dict_update d other) =
    match last_value k other with
    | Some v => Some v
    | None => dict_get k d
    end.
Proof.
  unfold dict_update, last_value. rewrite dict_get_fold_last.
  generalize (dict_get k d) as acc.
  assert (H : forall (acc0 : option V) acc,
            (match acc0 with Some v => Some v | None => acc end)
            = fold_left (fun a kv => if str_eqb k (fst kv)
                                     then Some (snd kv) else a) [] 
                (match acc0 with Some v => Some v | None => acc end))
    by reflexivity.
  clear H.
  assert (G : forall (l : list (str * V)) (a0 : option V) acc,
            fold_left (fun a kv => if str_eqb k (fst kv)
                                   then Some (snd kv) else a) l
              (match a0 with Some v => Some v | None => acc end)
            = match fold_left (fun a kv => if str_eqb k (fst kv)
                                           then Some (snd kv) else a) l a0
              with Some v => Some v | None => acc end).
  { induction l as [|[k' v'] l IH]; intros a0 acc; simpl; [reflexivity|].
    destruct (str_eqb k k').
    - apply (IH (Some v') acc).
    - apply IH. }
  intros acc. apply (G other None acc).
Qed.

(** X20.  The configuration holds every entry of [extra_config], which takes
    precedence over the two defaults, the secret key included; a key
    that [extra_config] lacks has its default, if it is one of the two. *)
Theorem get_app_config_lookup (secret_key : bytes)
  (extra_config : dict config_value) (k : str) :
  dict_get k (get_app_config secret_key extra_config) =
    match last_value k extra_config with
    | Some v => Some v
    | None =>
        if str_eqb k (py "TESTING") then Some (CfgBool true)
        else if str_eqb k (py "SECRET_KEY")
             then Some (CfgBytes secret_key)
             else None
    end.
Proof.
  unfold get_app_config. rewrite dict_get_update.
  destruct (last_value k extra_config); reflexivity.
Qed.

(* ---------------------------------------------------------------- *)
(** ** The parts that [parse_header] does not read *)

Lemma findall_part (pre post k v : str) :
  field_boundary pre -> key_text k = true -> value_text v = true ->
  findall (pre ++ format_part (k, v) ++ post)
  = findall pre ++ (k, v) :: findall post.
Proof.
  intros Hb Hk Hv. destruct Hb as [->|(p & c & -> & Hc)].
  - cbn [app]. rewrite (findall_eq []). cbn [app].
    now apply findall_match.
  - rewrite <- app_assoc. cbn [app].
    rewrite findall_sep by assumption. f_equal.
    now apply findall_match.
Qed.

Lemma dict_mem_pair_value {V} (k k0 : str) (v1 v2 : V)
  (l1 l2 : list (str * V)) :
  dict_mem k (dict_of_pairs (l1 ++ (k0, v1) :: l2))
  = dict_mem k (dict_of_pairs (l1 ++ (k0, v2) :: l2)).
Proof.
  destruct (str_eqb k k0) eqn:E.
  - apply str_eqb_eq in E. subst k0. now rewrite !dict_mem_same_pair.
  - apply str_eqb_neq in E. unfold dict_mem.
    now rewrite (dict_get_other_pair k k0 v1 v2 l1 l2 E).
Qed.

Lemma parse_parts_unread (k v1 v2 : str) (l1 l2 : list (str * str)) :
  k <> py "id" -> k <> py "ext" ->
  parse_parts (dict_of_pairs (l1 ++ (k, v1) :: l2))
  = parse_parts (dict_of_pairs (l1 ++ (k, v2) :: l2)).
Proof.
  intros Hid Hext. unfold parse_parts. rewrite !check_parts_find.
  unfold load_ext, dict_getitem.
  rewrite (dict_get_other_pair (py "id") k v1 v2 l1 l2)
    by congruence.
  rewrite (dict_get_other_pair (py "ext") k v1 v2 l1 l2)
    by congruence.
  replace (find (fun k0 => negb (dict_mem k0
             (dict_of_pairs (l1 ++ (k, v1) :: l2)))) mandatory_parts)
    with (find (fun k0 => negb (dict_mem k0
             (dict_of_pairs (l1 ++ (k, v2) :: l2)))) mandatory_parts);
    [reflexivity|].
  induction mandatory_parts as [|m ms IH]; [reflexivity|].
  cbn [find]. rewrite IH.
  now rewrite (dict_mem_pair_value m k v1 v2 l1 l2).
Qed.

Lemma startswith_prefix (p a x : str) :
  startswith a p = true -> startswith (a ++ x) p = true.
Proof.
  intros H. apply startswith_true in H as [r ->].
  rewrite <- app_assoc. apply startswith_app.
Qed.

(** X11.  Of the parts of a header, [parse_header] reads only the values of
    [id] and [ext]: in a header with the scheme prefix, changing the
    value of any other part (the timestamp, the nonce, the digest, a
    part of another name) for another value of the pattern changes
    nothing. *)
Theorem parse_header_reads_id_ext_only (pre post k v1 v2 : str) :
  startswith pre (py "Hawk ") = true -> field_boundary pre ->
  key_text k = true -> k <> py "id" -> k <> py "ext" ->
  value_text v1 = true -> value_text v2 = true ->
  parse_header (pre ++ format_part (k, v1) ++ post)
  = parse_header (pre ++ format_part (k, v2) ++ post).
Proof.
  intros Hp Hb Hk Hid Hext H1 H2. rewrite !parse_header_parts.
  rewrite !(startswith_prefix _ pre _ Hp).
  rewrite !findall_part by assumption.
  now rewrite (parse_parts_unread k v1 v2).
Qed.

(* ---------------------------------------------------------------- *)
(** ** [mock_auth_taskcluster]: when the status is 200 *)

Lemma taskcluster_try_inv (now : datetime) (payload b : json) (code : N) :
  taskcluster_try now payload = Ok (b, code) ->
  exists d h client_id ext expires,
    payload = JObj d /\
    dict_get (py "authorization") d = Some (JStr h) /\
    parse_header h = Ok (client_id, JObj ext) /\
    add_one_day now = Ok expires /\
    b = success_body (scopes_of ext) client_id (strftime_iso expires) /\
    code = 200.
Proof.
  destruct payload as [| bb | z | lit | s | l | d];
    try (unfold taskcluster_try; cbn [py_contains bind]; discriminate).
  - unfold taskcluster_try. cbn [py_contains bind py_getitem].
    destruct (negb _); discriminate.
  - unfold taskcluster_try. cbn [py_contains bind py_getitem].
    destruct (negb _); discriminate.
  - destruct (dict_get (py "authorization") d) as [auth|] eqn:Hd.
    + rewrite (taskcluster_try_header _ _ _ Hd).
      destruct auth as [| bb | z | lit | h | l | d'];
        try (cbn [parse_header_dyn bind]; discriminate).
      cbn [parse_header_dyn].
      destruct (parse_header h) as [[cid ext]|] eqn:Hp; [|discriminate].
      cbn [bind].
      destruct (add_one_day now) as [t'|] eqn:Ht; [|discriminate].
      cbn [bind].
      destruct ext as [| bb | z | lit | s | l | ext];
        try (cbn [py_get bind]; discriminate).
      cbn [py_get bind]. intros [= <- <-].
      now exists d, h, cid, ext, t'.
    + rewrite (taskcluster_try_missing _ _ Hd). discriminate.
Qed.

(** X12.  On a body that is JSON text, the status is 200 in one case only: the
    body is an object whose [authorization] entry is a string that
    [parse_header] accepts with a mapping as extension data, and the
    clock has a next day.  A list or a string that holds
    [authorization], a header that is not a string, extension data that
    is not a mapping: all give 401. *)
Theorem taskcluster_status_200 (now : datetime) (request_body : str)
  (payload : json) (r : response) :
  json_loads request_body = Ok payload ->
  mock_auth_taskcluster now request_body = Ok r ->
  (http_code r = 200 <->
   exists d h client_id ext expires,
     payload = JObj d /\
     dict_get (py "authorization") d = Some (JStr h) /\
     parse_header h = Ok (client_id, JObj ext) /\
     add_one_day now = Ok expires /\
     r = Response 200 json_headers
           (BodyText (json_dumps (success_body (scopes_of ext) client_id
                                    (strftime_iso expires))))).
Proof.
  intros Hl Hr. rewrite (mock_auth_taskcluster_unfold _ _ _ Hl) in Hr.
  split.
  - destruct (taskcluster_try now payload) as [[b code]|e] eqn:Ht.
    + injection Hr as <-. cbn [http_code]. intros _.
      destruct (taskcluster_try_inv _ _ _ _ Ht)
        as (d & h & cid & ext & t' & -> & Hd & Hp & Ha & -> & ->).
      now exists d, h, cid, ext, t'.
    + injection Hr as <-. cbn [http_code]. discriminate.
  - intros (d & h & cid & ext & t' & _ & _ & _ & _ & ->). reflexivity.
Qed.

(* ---------------------------------------------------------------- *)
(** ** From [build_header] to [mock_auth_taskcluster] *)

Lemma encodable_app (a b : str) :
  encodable (a ++ b) = encodable a && encodable b.
Proof. apply forallb_app. Qed.

Lemma is_ascii_encodable (s : str) :
  is_ascii s = true -> encodable s = true.
Proof.
  unfold is_ascii, encodable. rewrite !forallb_forall.
  intros H c Hc. specialize (H c Hc). cbv beta in H.
  apply N.ltb_lt in H. apply andb_true_intro. split.
  - apply N.ltb_lt. lia.
  - unfold is_surrogate, in_range. apply negb_true_iff.
    apply andb_false_intro1. apply N.leb_gt. lia.
Qed.

Lemma join_encodable (sep : str) (l : list str) :
  encodable sep = true -> Forall (fun x => encodable x = true) l ->
  encodable (join sep l) = true.
Proof.
  intros Hsep H. induction H as [|x l Hx Hl IH]; [reflexivity|].
  destruct l as [|y l]; [exact Hx|].
  change (encodable (x ++ sep ++ join sep (y :: l)) = true).
  now rewrite !encodable_app, Hx, Hsep, IH.
Qed.

Lemma wire_encodable (parts : list (str * str)) :
  Forall (fun kv => encodable (fst kv) = true /\
                    encodable (snd kv) = true) parts ->
  encodable (wire parts) = true.
Proof.
  intros H. unfold wire. rewrite encodable_app.
  apply andb_true_intro. split; [reflexivity|].
  apply join_encodable; [reflexivity|].
  induction H as [|[k v] l [Hk Hv] Hl IH]; constructor; [|exact IH].
  unfold format_part. cbn [fst snd] in *.
  now rewrite !encodable_app, Hk, Hv.
Qed.

(** What [parse_header] returns on the text that [build_header]
    writes. *)
Lemma parse_header_signed (ts nonce : Z) (client_id : str)
  (ext_data : option json) (m : bytes) :
  value_text client_id = true ->
  (forall e, ext_data = Some e ->
             plain_json e = true /\
             existsb (N.eqb 43) (b64encode (dumps true e)) = false) ->
  parse_header (wire (signed_parts ts nonce client_id ext_data
                      ++ [(py "mac", sha1_hexdigest m)]))
  = Ok (client_id, match ext_data with
                   | Some e => canon e
                   | None => JObj []
                   end).
Proof.
  intros Hid Hext.
  pose proof (value_text_digest m) as Hmac.
  pose proof (value_text_str_of_Z ts) as Hts.
  pose proof (value_text_str_of_Z nonce) as Hnonce.
  rewrite parse_header_parts.
  unfold wire at 1. rewrite startswith_app. cbn [negb].
  destruct ext_data as [e|].
  - destruct (Hext e eq_refl) as [Hplain Hplus].
    assert (Hb64 : value_text (b64encode (dumps true e)) = true).
    { apply value_text_b64encode; [|assumption].
      destruct (dumps_head e Hplain) as (c & r & -> & _). discriminate. }
    rewrite findall_wire.
    2:{ unfold signed_parts, ext_part. cbn [app].
        repeat constructor; cbn [fst snd]; assumption. }
    unfold signed_parts, ext_part. cbn [app].
    now rewrite parse_parts_ext, decode_ext_encoded.
  - rewrite findall_wire.
    2:{ unfold signed_parts, ext_part. cbn [app].
        repeat constructor; cbn [fst snd]; assumption. }
    unfold signed_parts, ext_part. cbn [app].
    now rewrite parse_parts_no_ext.
Qed.

Lemma dict_get_map_on_snd {A B} (f : A -> B) (k : str) (l : list (str * A)) :
  dict_get k (map (on_snd f) l) = option_map f (dict_get k l).
Proof.
  induction l as [|[k' x] l IH]; [reflexivity|].
  cbn [map on_snd fst snd dict_get]. now destruct (str_eqb k k').
Qed.

Lemma dict_get_of_In {V} (k : str) (v : V) (l : list (str * V)) :
  NoDup (map fst l) -> In (k, v) l -> dict_get k l = Some v.
Proof.
  induction l as [|[k' x] l IH]; [intros _ []|].
  cbn [map fst]. intros Hnd [H|H].
  - injection H as -> ->. cbn [dict_get]. now rewrite str_eqb_refl.
  - apply NoDup_cons_iff in Hnd as [Hk Hnd]. cbn [dict_get].
    destruct (str_eqb k k') eqn:E; [|now apply IH].
    apply str_eqb_eq in E. subst k'. exfalso. apply Hk.
    apply in_map_iff. now exists (k, v).
Qed.

Lemma dict_get_None_In {V} (k : str) (l : list (str * V)) :
  dict_get k l = None <-> ~ In k (map fst l).
Proof.
  induction l as [|[k' x] l IH]; [now split; [intros _ []|]|].
  cbn [dict_get map fst]. destruct (str_eqb k k') eqn:E.
  - apply str_eqb_eq in E. subst k'. split; [discriminate|].
    intros H. exfalso. apply H. now left.
  - apply str_eqb_neq in E. rewrite IH. split.
    + intros H [H'|H']; [congruence|contradiction].
    + intros H H'. apply H. now right.
Qed.

Lemma dict_get_Some_In {V} (k : str) (v : V) (l : list (str * V)) :
  dict_get k l = Some v -> In (k, v) l.
Proof.
  induction l as [|[k' x] l IH]; [discriminate|].
  cbn [dict_get]. destruct (str_eqb k k') eqn:E.
  - apply str_eqb_eq in E. subst k'. intros [= ->]. now left.
  - intros H. right. now apply IH.
Qed.

(** Lookup does not depend on the order of the items when the keys are
    distinct. *)
Lemma dict_get_perm {V} (k : str) (l1 l2 : list (str * V)) :
  NoDup (map fst l1) -> Permutation l1 l2 ->
  dict_get k l1 = dict_get k l2.
Proof.
  intros Hnd Hp.
  assert (Hnd2 : NoDup (map fst l2)).
  { eapply Permutation_NoDup; [|exact Hnd]. now apply Permutation_map. }
  destruct (dict_get k l1) as [v|] eqn:E1.
  - symmetry. apply dict_get_of_In; [assumption|].
    eapply Permutation_in; [exact Hp|]. now apply dict_get_Some_In.
  - symmetry. apply dict_get_None_In. apply dict_get_None_In in E1.
    intros H. apply E1. eapply Permutation_in; [|exact H].
    apply Permutation_map. now apply Permutation_sym.
Qed.

Lemma scopes_of_canon (d : dict json) :
  distinct (map fst d) = true ->
  forall d', canon (JObj d) = JObj d' ->
  scopes_of d' = canon (scopes_of d).
Proof.
  intros Hd d' H. cbn [canon] in H. injection H as <-.
  rewrite map_on_snd. unfold scopes_of.
  rewrite (dict_get_perm (py "scopes") _ (map (on_snd canon) d)).
  - rewrite dict_get_map_on_snd.
    now destruct (dict_get (py "scopes") d).
  - eapply Permutation_NoDup.
    + apply Permutation_map. apply Permutation_sym, sort_items_perm.
    + assert (E : map fst (map (on_snd canon) d) = map fst d).
      { rewrite map_map. now apply map_ext. }
      rewrite E. now apply distinct_NoDup.
  - apply sort_items_perm.
Qed.

(** X15.  The responder accepts what [build_header] writes: for an identifier
    that is a value of the pattern, and extension data that is absent or
    a mapping written without plus sign, the request whose body holds
    the built header under [authorization] gets status 200, the
    identifier as [clientId] and the [scopes] entry of the extension
    data (the empty list without one), the keys of the mappings inside
    it in sorted order. *)
Theorem built_header_accepted (now : datetime) (ts nonce : Z)
  (client_id h : str) (ext_data : option (dict json)) :
  valid_datetime now -> has_next_day now = true ->
  value_text client_id = true -> encodable client_id = true ->
  (forall d, ext_data = Some d ->
             plain_json (JObj d) = true /\
             existsb (N.eqb 43) (b64encode (dumps true (JObj d))) = false) ->
  build_header ts nonce client_id (option_map JObj ext_data) = Ok h ->
  exists expires,
    add_one_day now = Ok expires /\
    mock_auth_taskcluster now
      (json_dumps (JObj [(py "authorization", JStr h)]))
    = Ok (Response 200 json_headers
            (BodyText (json_dumps
               (success_body
                  (canon (scopes_of (match ext_data with
                                     | Some d => d
                                     | None => []
                                     end)))
                  client_id (strftime_iso expires))))).
Proof.
  intros Hv Hn Hid Henc Hext Hb.
  assert (Hext' : forall e, option_map JObj ext_data = Some e ->
            plain_json e = true /\
            existsb (N.eqb 43) (b64encode (dumps true e)) = false).
  { intros e He. destruct ext_data as [d|]; [|discriminate].
    injection He as <-. now apply Hext. }
  destruct (build_header_parts ts nonce client_id
              (option_map JObj ext_data) Henc)
    as (mac_bytes & _ & Hbuild & _).
  { intros e He. apply plain_floats_ascii. now apply Hext'. }
  assert (Eh : h = wire (signed_parts ts nonce client_id
                           (option_map JObj ext_data)
                         ++ [(py "mac", sha1_hexdigest mac_bytes)]))
    by congruence.
  clear Hb Hbuild.
  assert (Hh : encodable h = true).
  { rewrite Eh. apply wire_encodable. apply Forall_app. split.
    - unfold signed_parts. apply Forall_app. split.
      + repeat constructor; cbn [fst snd]; try assumption;
          apply is_ascii_encodable, str_of_Z_ascii.
      + unfold ext_part. destruct (option_map JObj ext_data);
          repeat constructor.
        apply is_ascii_encodable, b64encode_ascii.
    - repeat constructor. cbn [snd].
      apply is_ascii_encodable, is_hex_ascii, sha1_hexdigest_hex. }
  assert (Hl : json_loads (json_dumps (JObj [(py "authorization", JStr h)]))
               = Ok (JObj [(py "authorization", JStr h)])).
  { change (json_dumps (JObj [(py "authorization", JStr h)]))
      with (dumps true (JObj [(py "authorization", JStr h)])).
    rewrite json_loads_dumps; [reflexivity|].
    cbn [plain_json map fst snd distinct existsb negb forallb andb].
    now rewrite Hh. }
  destruct (add_one_day_ok now Hv Hn) as (t' & Ht' & _).
  exists t'. split; [assumption|].
  rewrite (mock_auth_taskcluster_unfold _ _ _ Hl).
  rewrite (taskcluster_try_header _ [(py "authorization", JStr h)]
             (JStr h)) by (cbn [dict_get]; now rewrite str_eqb_refl).
  cbn [parse_header_dyn]. rewrite Eh.
  rewrite (parse_header_signed ts nonce client_id _ mac_bytes Hid Hext').
  cbn [bind]. rewrite Ht'. cbn [bind].
  destruct ext_data as [d|]; cbn [option_map].
  - destruct (canon (JObj d)) as [| | | | | |d'] eqn:Hc;
      try (cbn [canon] in Hc; discriminate).
    cbn [py_get bind]. fold (scopes_of d').
    rewrite (scopes_of_canon d) with (d' := d'); [reflexivity| |assumption].
    destruct (Hext d eq_refl) as [Hp _]. cbn [plain_json] in Hp.
    now apply andb_prop in Hp as [Hp _].
  - reflexivity.
Qed.

(* ---------------------------------------------------------------- *)
(** ** Edges of [build_header] and of [mock_auth_taskcluster] *)

Lemma utf8_encode_raise (s : str) :
  encodable s = false ->
  exists msg, forall r,
    utf8_encode (s ++ r) = Raise (Exc UnicodeError msg).
Proof.
  induction s as [|c s IH]; [discriminate|].
  cbn [encodable forallb]. intros H.
  destruct (utf8_encode_char c) as [b|e] eqn:Ec.
  - assert (Hc : (c <? 1114112) && negb (is_surrogate c) = true).
    { revert Ec. unfold utf8_encode_char.
      destruct (c <? 128) eqn:E1.
      { intros _. apply N.ltb_lt in E1. apply andb_true_intro. split.
        - apply N.ltb_lt. lia.
        - unfold is_surrogate, in_range.
          apply negb_true_iff, andb_false_intro1, N.leb_gt. lia. }
      destruct (c <? 2048) eqn:E2.
      { intros _. apply N.ltb_lt in E2. apply andb_true_intro. split.
        - apply N.ltb_lt. lia.
        - unfold is_surrogate, in_range.
          apply negb_true_iff, andb_false_intro1, N.leb_gt. lia. }
      destruct (c <? 65536) eqn:E3.
      { destruct (is_surrogate c) eqn:E4; [discriminate|]. intros _.
        apply N.ltb_lt in E3.
        apply andb_true_intro. split; [apply N.ltb_lt; lia|reflexivity]. }
      destruct (c <? 1114112) eqn:E4; [|discriminate]. intros _.
      apply N.ltb_ge in E3. unfold is_surrogate, in_range.
      apply negb_true_iff, andb_false_intro2, N.leb_gt. lia. }
    rewrite Hc in H. cbn [andb] in H.
    destruct (IH H) as [msg Hmsg]. exists msg. intros r.
    cbn [app utf8_encode]. rewrite Ec. cbn [bind].
    fold (encodable s) in H. now rewrite Hmsg.
  - exists (exc_msg e). intros r. cbn [app utf8_encode]. rewrite Ec.
    cbn [bind]. revert Ec. unfold utf8_encode_char, raise.
    destruct (c <? 128); [discriminate|].
    destruct (c <? 2048); [discriminate|].
    destruct (c <? 65536).
    + destruct (is_surrogate c); [|discriminate]. now intros [= <-].
    + destruct (c <? 1114112); [discriminate|]. now intros [= <-].
Qed.

(** X2.  An identifier that UTF-8 cannot encode (a lone surrogate, a code
    point out of range) makes [build_header] raise the error of the
    encoding, at the digest. *)
Theorem build_header_unencodable (ts nonce : Z) (client_id : str)
  (ext_data : option json) :
  (forall e, ext_data = Some e -> floats_ascii e = true) ->
  encodable client_id = false ->
  exists msg,
    build_header ts nonce client_id ext_data
    = Raise (Exc UnicodeError msg).
Proof.
  intros Hext Hid. destruct (utf8_encode_raise client_id Hid) as [msg H].
  exists msg. unfold build_header.
  destruct ext_data as [e|].
  - rewrite (utf8_encode_ascii (dumps true e))
      by (apply dumps_ascii; now apply Hext).
    cbn [bind].
    change (dict_set (py "ext") (b64encode (dumps true e))
              [(py "id", client_id); (py "ts", str_of_Z ts);
               (py "nonce", str_of_Z nonce)])
      with [(py "id", client_id); (py "ts", str_of_Z ts);
            (py "nonce", str_of_Z nonce);
            (py "ext", b64encode (dumps true e))].
    cbn [map snd join]. now rewrite H.
  - cbn [bind map snd join]. now rewrite H.
Qed.

(** X13.  The response depends on the body through the [authorization] entry
    alone, and on that entry through the result of [parse_header]
    alone: the other entries of the body are not read, and neither the
    digest nor the timestamp of the header is checked. *)
Theorem taskcluster_reads_header_only (now : datetime)
  (body1 body2 h1 h2 : str) (d1 d2 : dict json) :
  json_loads body1 = Ok (JObj d1) ->
  json_loads body2 = Ok (JObj d2) ->
  dict_get (py "authorization") d1 = Some (JStr h1) ->
  dict_get (py "authorization") d2 = Some (JStr h2) ->
  parse_header h1 = parse_header h2 ->
  mock_auth_taskcluster now body1 = mock_auth_taskcluster now body2.
Proof.
  intros L1 L2 D1 D2 Hp.
  rewrite (mock_auth_taskcluster_unfold _ _ _ L1).
  rewrite (mock_auth_taskcluster_unfold _ _ _ L2).
  rewrite (taskcluster_try_header _ _ _ D1).
  rewrite (taskcluster_try_header _ _ _ D2).
  cbn [parse_header_dyn]. now rewrite Hp.
Qed.

(** X14.  On the last day of the calendar the next day does not exist: a
    request with a header that [parse_header] accepts fails with the
    message of the overflow. *)
Theorem taskcluster_last_day (now : datetime) (request_body h : str)
  (d : dict json) (client_id : str) (ext : json) :
  has_next_day now = false ->
  json_loads request_body = Ok (JObj d) ->
  dict_get (py "authorization") d = Some (JStr h) ->
  parse_header h = Ok (client_id, ext) ->
  mock_auth_taskcluster now request_body
  = Ok (Response 401 json_headers
          (BodyText (json_dumps
             (failure_body
                (Exc OverflowError (py "date value out of range")))))).
Proof.
  intros Hn Hl Hd Hp.
  rewrite (mock_auth_taskcluster_unfold _ _ _ Hl).
  rewrite (taskcluster_try_header _ _ _ Hd). cbn [parse_header_dyn].
  rewrite Hp. cbn [bind].
  unfold has_next_day in Hn. apply negb_false_iff in Hn.
  apply andb_prop in Hn as [Hn Hday]. apply andb_prop in Hn as [Hy Hm].
  apply N.eqb_eq in Hy, Hm, Hday.
  unfold add_one_day. rewrite Hy, Hm, Hday. reflexivity.
Qed.

(* ---------------------------------------------------------------- *)
(** ** [sort_keys]: the header does not depend on the order of the keys *)

Lemma str_leb_refl (a : str) : str_leb a a = true.
Proof.
  induction a as [|x a IH]; [reflexivity|]. cbn [str_leb].
  now rewrite N.eqb_refl, IH, orb_true_r.
Qed.

Lemma str_leb_total (a : str) : forall b,
  str_leb a b = false -> str_leb b a = true.
Proof.
  induction a as [|x a IH]; intros [|y b]; cbn [str_leb];
    try reflexivity; try discriminate.
  intros H. apply orb_false_elim in H as [H1 H2].
  apply N.ltb_ge in H1.
  destruct (y <? x) eqn:E; [reflexivity|]. apply N.ltb_ge in E.
  assert (Exy : x = y) by lia. subst y.
  rewrite N.eqb_refl in *. cbn [andb orb] in *. now apply IH.
Qed.

Lemma str_leb_antisym (a : str) : forall b,
  str_leb a b = true -> str_leb b a = true -> a = b.
Proof.
  induction a as [|x a IH]; intros [|y b]; cbn [str_leb];
    try reflexivity; try discriminate.
  intros H1 H2.
  apply orb_true_iff in H1 as [H1|H1]; apply orb_true_iff in H2 as [H2|H2];
    try apply N.ltb_lt in H1; try apply N.ltb_lt in H2;
    try (apply andb_prop in H1 as [E1 L1]; apply N.eqb_eq in E1);
    try (apply andb_prop in H2 as [E2 L2]; apply N.eqb_eq in E2);
    try lia.
  subst y. f_equal. now apply IH.
Qed.

Lemma str_leb_trans (a : str) : forall b c,
  str_leb a b = true -> str_leb b c = true -> str_leb a c = true.
Proof.
  induction a as [|x a IH]; intros [|y b] [|z c]; cbn [str_leb];
    try reflexivity; try discriminate.
  intros H1 H2.
  apply orb_true_iff in H1 as [H1|H1]; apply orb_true_iff in H2 as [H2|H2];
    try apply N.ltb_lt in H1; try apply N.ltb_lt in H2;
    try (apply andb_prop in H1 as [E1 L1]; apply N.eqb_eq in E1);
    try (apply andb_prop in H2 as [E2 L2]; apply N.eqb_eq in E2).
  - apply orb_true_iff. left. apply N.ltb_lt. lia.
  - apply orb_true_iff. left. apply N.ltb_lt. lia.
  - apply orb_true_iff. left. apply N.ltb_lt. lia.
  - subst y z. rewrite N.eqb_refl, (IH b c L1 L2). apply orb_true_r.
Qed.

Lemma insert_item_sorted {V} (kv : str * V) (l : list (str * V)) :
  StronglySorted key_le l -> StronglySorted key_le (insert_item kv l).
Proof.
  induction 1 as [|x l Hl IH Hx]; cbn [insert_item].
  - repeat constructor.
  - destruct (str_leb (fst kv) (fst x)) eqn:E.
    + constructor; [now constructor|]. constructor; [exact E|].
      eapply Forall_impl; [|exact Hx]. intros y Hy. unfold key_le in *.
      eapply str_leb_trans; eassumption.
    + constructor; [exact IH|].
      eapply Permutation_Forall.
      * apply Permutation_sym, insert_item_perm.
      * constructor; [|exact Hx]. now apply str_leb_total.
Qed.

Lemma sort_items_sorted {V} (l : list (str * V)) :
  StronglySorted key_le (sort_items l).
Proof.
  induction l as [|kv l IH]; [constructor|].
  now apply insert_item_sorted.
Qed.

Lemma sorted_perm_eq {V} (l1 : list (str * V)) : forall l2,
  StronglySorted key_le l1 -> StronglySorted key_le l2 ->
  Permutation l1 l2 -> NoDup (map fst l1) -> l1 = l2.
Proof.
  induction l1 as [|a l1 IH]; intros l2 S1 S2 Hp Hnd.
  - now apply Permutation_nil in Hp.
  - destruct l2 as [|b l2].
    { apply Permutation_sym, Permutation_nil in Hp. discriminate. }
    apply StronglySorted_inv in S1 as [S1 Ha].
    apply StronglySorted_inv in S2 as [S2 Hb].
    cbn [map] in Hnd. apply NoDup_cons_iff in Hnd as [Hna Hnd].
    assert (Eab : a = b).
    { assert (Hin_b : In b (a :: l1)).
      { eapply Permutation_in; [apply Permutation_sym, Hp|now left]. }
      destruct Hin_b as [E|Hin_b]; [exact E|].
      assert (Hin_a : In a (b :: l2)).
      { eapply Permutation_in; [exact Hp|now left]. }
      destruct Hin_a as [E|Hin_a]; [now symmetry|].
      rewrite Forall_forall in Ha, Hb.
      pose proof (Ha b Hin_b) as Hab. pose proof (Hb a Hin_a) as Hba.
      unfold key_le in Hab, Hba.
      pose proof (str_leb_antisym _ _ Hab Hba) as Ek.
      exfalso. apply Hna. rewrite Ek. now apply in_map. }
    subst b. f_equal. apply IH; try assumption.
    now apply Permutation_cons_inv in Hp.
Qed.

Lemma sort_items_perm_eq {V} (l1 l2 : list (str * V)) :
  Permutation l1 l2 -> NoDup (map fst l1) ->
  sort_items l1 = sort_items l2.
Proof.
  intros Hp Hnd. apply sorted_perm_eq; try apply sort_items_sorted.
  - eapply Permutation_trans; [apply sort_items_perm|].
    eapply Permutation_trans; [exact Hp|].
    apply Permutation_sym, sort_items_perm.
  - eapply Permutation_NoDup; [|exact Hnd].
    apply Permutation_map, Permutation_sym, sort_items_perm.
Qed.

(** With sorted keys, equal values have the same JSON text. *)
Lemma dumps_sorted_equiv (v1 : json) : forall v2,
  distinct_keys v1 = true -> json_equiv v1 v2 ->
  dumps true v1 = dumps true v2.
Proof.
  induction v1 as [| b | z | lit | s | l IH | d IH] using json_induction;
    intros v2 Hd He; inversion He; subst; try reflexivity.
  - match goal with H : Forall2 json_equiv _ _ |- _ => rename H into H2 end.
    cbn [distinct_keys] in Hd.
    assert (E : map (fun x => dumps true x) l
                = map (fun x => dumps true x) l2).
    { clear He. induction H2 as [|x y l l' Hxy Hl IHl]; [reflexivity|].
      cbn [forallb] in Hd. apply andb_prop in Hd as [Hx Hd].
      cbn [map]. f_equal.
      - apply (Forall_inv IH); assumption.
      - apply IHl; [now apply Forall_inv_tail in IH|assumption]. }
    cbn [dumps]. now rewrite E.
  - cbn [distinct_keys] in Hd. apply andb_prop in Hd as [Hk Hd].
    match goal with H : Forall2 _ d _ |- _ => rename H into H2 end.
    match goal with H : Permutation _ _ |- _ => rename H into Hp end.
    assert (E : map (on_snd (dumps true)) d
                = map (on_snd (dumps true)) d2').
    { clear He Hp Hk. induction H2 as [|x y l l' [Hxy1 Hxy2] Hl IHl];
        [reflexivity|].
      cbn [forallb] in Hd. apply andb_prop in Hd as [Hx Hd].
      cbn [map]. f_equal.
      - unfold on_snd. rewrite Hxy1. f_equal.
        apply (Forall_inv IH); assumption.
      - apply IHl; [now apply Forall_inv_tail in IH|assumption]. }
    assert (S : sort_items (map (on_snd (dumps true)) d)
                = sort_items (map (on_snd (dumps true)) d2)).
    { rewrite E. apply sort_items_perm_eq.
      - apply Permutation_map. now apply Permutation_sym.
      - rewrite <- E.
        assert (Ek : map fst (map (on_snd (dumps true)) d) = map fst d).
        { rewrite map_map. now apply map_ext. }
        rewrite Ek. now apply distinct_NoDup. }
    cbn [dumps]. rewrite !map_on_snd. now rewrite S.
Qed.

(** X3.  [build_header] does not depend on the order in which the extension
    data holds its keys, at any depth: two values that Python compares
    equal give the same header. *)
Theorem build_header_key_order (ts nonce : Z) (client_id : str)
  (e1 e2 : json) :
  distinct_keys e1 = true -> json_equiv e1 e2 ->
  build_header ts nonce client_id (Some e1)
  = build_header ts nonce client_id (Some e2).
Proof.
  intros Hd He. unfold build_header.
  now rewrite (dumps_sorted_equiv e1 e2 Hd He).
Qed.

(** X5.  The chain that [parse_header] applies to the value of the [ext] part
    (base64, UTF-8, JSON) inverts the chain of [build_header] (JSON text
    with sorted keys, UTF-8, base64) on every value without floats,
    whatever characters the base64 text holds: the data comes back, its
    keys in sorted order. *)
Theorem ext_round_trip (e : json) :
  plain_json e = true ->
  decode_ext (b64encode (dumps true e)) = Ok (canon e) /\
  json_equiv e (canon e).
Proof.
  intros H. split; [now apply decode_ext_encoded|apply json_equiv_canon].
Qed.

(* ---------------------------------------------------------------- *)
(** ** The URLs that reach [mock_auth_auth0] *)

Lemma remove_unsafe_app (a b : str) :
  remove_unsafe (a ++ b) = remove_unsafe a ++ remove_unsafe b.
Proof. apply filter_app. Qed.

(** On a URL that starts as the registered pattern demands, [urlparse]
    raises nothing: the network location is the fixed host. *)
Lemma url_query_userinfo (rest : str) :
  exists q,
    url_query (py "https://auth.mozilla.auth0.com/userinfo" ++ rest)
    = Ok q.
Proof.
  unfold url_query.
  set (p := py "https://auth.mozilla.auth0.com/userinfo").
  vm_compute in p. subst p. cbn [app lstrip].
  change (c0_control_or_space 104) with false. cbv iota.
  change (104 :: 116 :: 116 :: 112 :: 115 :: 58 :: 47 :: 47 :: 97 :: 117
          :: 116 :: 104 :: 46 :: 109 :: 111 :: 122 :: 105 :: 108 :: 108
          :: 97 :: 46 :: 97 :: 117 :: 116 :: 104 :: 48 :: 46 :: 99 :: 111
          :: 109 :: 47 :: 117 :: 115 :: 101 :: 114 :: 105 :: 110 :: 102
          :: 111 :: rest)
    with ([104; 116; 116; 112; 115; 58; 47; 47; 97; 117; 116; 104; 46;
           109; 111; 122; 105; 108; 108; 97; 46; 97; 117; 116; 104; 48;
           46; 99; 111; 109; 47; 117; 115; 101; 114; 105; 110; 102; 111]
          ++ rest).
  rewrite remove_unsafe_app.
  set (r := remove_unsafe rest).
  set (p := remove_unsafe _). vm_compute in p. subst p. cbn [app].
  unfold strip_scheme.
  change (span is_scheme_char
            (104 :: 116 :: 116 :: 112 :: 115 :: 58 :: 47 :: 47 :: 97
             :: 117 :: 116 :: 104 :: 46 :: 109 :: 111 :: 122 :: 105
             :: 108 :: 108 :: 97 :: 46 :: 97 :: 117 :: 116 :: 104 :: 48
             :: 46 :: 99 :: 111 :: 109 :: 47 :: 117 :: 115 :: 101 :: 114
             :: 105 :: 110 :: 102 :: 111 :: r))
    with ([104; 116; 116; 112; 115],
          58 :: 47 :: 47 :: 97 :: 117 :: 116 :: 104 :: 46 :: 109 :: 111
          :: 122 :: 105 :: 108 :: 108 :: 97 :: 46 :: 97 :: 117 :: 116
          :: 104 :: 48 :: 46 :: 99 :: 111 :: 109 :: 47 :: 117 :: 115
          :: 101 :: 114 :: 105 :: 110 :: 102 :: 111 :: r).
  change ((58 =? 58) && ascii_alpha 104) with true. cbv iota.
  unfold after_netloc. change ((47 =? 47) && (47 =? 47)) with true.
  cbv iota. unfold splitnetloc.
  change (span netloc_char
            (97 :: 117 :: 116 :: 104 :: 46 :: 109 :: 111 :: 122 :: 105
             :: 108 :: 108 :: 97 :: 46 :: 97 :: 117 :: 116 :: 104 :: 48
             :: 46 :: 99 :: 111 :: 109 :: 47 :: 117 :: 115 :: 101 :: 114
             :: 105 :: 110 :: 102 :: 111 :: r))
    with ([97; 117; 116; 104; 46; 109; 111; 122; 105; 108; 108; 97; 46;
           97; 117; 116; 104; 48; 46; 99; 111; 109],
          47 :: 117 :: 115 :: 101 :: 114 :: 105 :: 110 :: 102 :: 111
          :: r).
  change (check_netloc
            [97; 117; 116; 104; 46; 109; 111; 122; 105; 108; 108; 97; 46;
             97; 117; 116; 104; 48; 46; 99; 111; 109]) with (Ok tt).
  cbn [bind]. now eexists.
Qed.

(** C10.  The URL of an intercepted request, which starts with the
    address of the userinfo endpoint, has a query string ([urlparse]
    accepts it).  And for a URL with the query string [q], as [urlparse]
    gives it: [mock_auth_auth0] raises [IndexError] as soon as one
    parameter of [q], as cut at the ampersands, holds no equals sign, and
    so for an empty query string; it returns a response only when every
    parameter holds one; and the value of [access_token] is the text
    between the first and the second equals sign of the parameter, not all
    that follows the first. *)
Theorem auth0_query_partial (url : str) :
  (forall rest,
      url = py "https://auth.mozilla.auth0.com/userinfo" ++ rest ->
      exists q, url_query url = Ok q)
  /\ (forall q,
      url_query url = Ok q ->
      (Exists (fun p => ~ In 61 p) (query_params q) ->
       mock_auth_auth0 url = Raise index_error)
      /\ (q = [] -> mock_auth_auth0 url = Raise index_error)
      /\ (is_ok (mock_auth_auth0 url) = true ->
          Forall (fun p => In 61 p) (query_params q))
      /\ (forall v rest,
            q = py "access_token=" ++ v ++ 61 :: rest ->
            ~ In 61 v -> ~ In 38 (v ++ 61 :: rest) ->
            mock_auth_auth0 url =
              Ok (if str_eqb v (py "badtoken") then unauthorized
                  else authorized))).
Proof.
  split.
  - intros rest ->. apply url_query_userinfo.
  - intros q Hq. repeat split.
    + now apply mock_auth_auth0_raise.
    + intros ->. apply (mock_auth_auth0_raise url [] Hq).
      left. intros [].
    + now apply mock_auth_auth0_ok.
    + intros v rest -> Hv Hamp.
      apply (mock_auth_auth0_token url v (61 :: rest)); try assumption.
      right. now exists rest.
Qed.

(** X21.  A URL that starts with the address of the userinfo endpoint,
    as the pattern registered for [mock_auth_auth0] demands, is accepted
    by [urlparse]; on such a request the responder has three outcomes
    and no other: [IndexError], when a parameter of the query string
    holds no equals sign, and, with status 200, one of its two
    bodies. *)
Theorem auth0_intercepted_outcomes (rest : str) :
  let url := py "https://auth.mozilla.auth0.com/userinfo" ++ rest in
  exists q,
    url_query url = Ok q /\
    ((Exists (fun p => ~ In 61 p) (query_params q) /\
      mock_auth_auth0 url = Raise index_error)
     \/ (Forall (fun p => In 61 p) (query_params q) /\
         (mock_auth_auth0 url = Ok unauthorized \/
          mock_auth_auth0 url = Ok authorized))).
Proof.
  cbv zeta. destruct (url_query_userinfo rest) as [q Hq].
  exists q. split; [assumption|].
  destruct (Forall_Exists_dec (fun p => In 61 p)
              (fun p => in_char_dec 61 p) (query_params q)) as [H|H].
  - right. split; [assumption|].
    rewrite (mock_auth_auth0_decides _ q Hq H).
    destruct (last_value _ _) as [v|]; [|now left].
    destruct (str_eqb v (py "badtoken")); [now left|now right].
  - left. split; [assumption|].
    now apply (mock_auth_auth0_raise _ q).
Qed.

(* ---------------------------------------------------------------- *)
(** ** The header codec: format and round trip *)

(** C9.  [build_header] returns a header exactly when UTF-8 can encode
    the client identifier, and every header it returns is the scheme
    followed by the parts [id], [ts], [nonce], then [ext] exactly when
    extension data is given, then [mac] as the last part, each written as
    the key, an equals sign and the value between double quotes,
    separated by a comma and a space; [ext] is the base64 text of the
    JSON text with sorted keys, and [mac] is the SHA-1 digest, forty
    hexadecimal digits, of the values of the parts before it joined by
    newlines.  (Floats of the extension data are written in ASCII.) *)
Theorem build_header_format (ts nonce : Z) (client_id : str)
  (ext_data : option json) :
  (forall e, ext_data = Some e -> floats_ascii e = true) ->
  let parts := signed_parts ts nonce client_id ext_data in
  is_ok (build_header ts nonce client_id ext_data) = encodable client_id
  /\
  forall h,
    build_header ts nonce client_id ext_data = Ok h ->
    exists mac_bytes,
      utf8_encode (join [10] (map snd parts)) = Ok mac_bytes /\
      h = wire (parts ++ [(py "mac", sha1_hexdigest mac_bytes)]) /\
      forallb is_hex_digit (sha1_hexdigest mac_bytes) = true /\
      length (sha1_hexdigest mac_bytes) = 40%nat.
Proof.
  intros Hext parts. destruct (encodable client_id) eqn:Hid.
  - destruct (build_header_parts ts nonce client_id ext_data Hid Hext)
      as (mac_bytes & Hmac & Hbuild & Hhex & Hlen).
    split; [now rewrite Hbuild|].
    intros h Hh. exists mac_bytes. rewrite Hbuild in Hh.
    injection Hh as <-. now repeat split.
  - destruct (utf8_encode_raise client_id Hid) as [msg H].
    assert (Hr : build_header ts nonce client_id ext_data
                 = Raise (Exc UnicodeError msg)).
    { unfold build_header. destruct ext_data as [e|].
      - rewrite (utf8_encode_ascii (dumps true e))
          by (apply dumps_ascii; now apply Hext).
        cbn [bind].
        change (dict_set (py "ext") (b64encode (dumps true e))
                  [(py "id", client_id); (py "ts", str_of_Z ts);
                   (py "nonce", str_of_Z nonce)])
          with [(py "id", client_id); (py "ts", str_of_Z ts);
                (py "nonce", str_of_Z nonce);
                (py "ext", b64encode (dumps true e))].
        cbn [map snd join]. now rewrite H.
      - cbn [bind map snd join]. now rewrite H. }
    rewrite Hr. split; [reflexivity|discriminate].
Qed.

(** C1, as amended.  When the client identifier is a value that the
    header pattern accepts (not empty; word characters and the signs
    [= . @ - _ /]) that UTF-8 can encode, and the extension mapping, if
    any, is JSON data without floats whose base64 text holds no plus
    sign, [build_header] returns a header, and [parse_header] of that
    header gives back the identifier and an extension mapping equal to
    the original up to the order of the keys; without extension data it
    gives the empty mapping. *)
Theorem round_trip (ts nonce : Z) (client_id : str)
  (ext_data : option (dict json)) :
  value_text client_id = true -> encodable client_id = true ->
  (forall d, ext_data = Some d ->
             plain_json (JObj d) = true /\
             existsb (N.eqb 43) (b64encode (dumps true (JObj d))) = false) ->
  exists h decoded,
    build_header ts nonce client_id (option_map JObj ext_data) = Ok h /\
    parse_header h = Ok (client_id, JObj decoded) /\
    json_equiv (JObj (match ext_data with
                      | Some d => d
                      | None => []
                      end))
               (JObj decoded).
Proof.
  intros Hid Henc Hext.
  assert (Hext' : forall e, option_map JObj ext_data = Some e ->
            plain_json e = true /\
            existsb (N.eqb 43) (b64encode (dumps true e)) = false).
  { intros e He. destruct ext_data as [d|]; [|discriminate].
    injection He as <-. now apply Hext. }
  destruct (build_header_parts ts nonce client_id
              (option_map JObj ext_data) Henc)
    as (mac_bytes & _ & Hbuild & _).
  { intros e He. apply plain_floats_ascii. now apply Hext'. }
  pose proof (parse_header_signed ts nonce client_id
                (option_map JObj ext_data) mac_bytes Hid Hext') as Hp.
  rewrite Hbuild. destruct ext_data as [d|]; cbn [option_map] in *.
  - destruct (canon (JObj d)) as [| | | | | |d'] eqn:Hc;
      try (cbn [canon] in Hc; discriminate).
    eexists. exists d'. split; [reflexivity|]. split; [exact Hp|].
    rewrite <- Hc. apply json_equiv_canon.
  - eexists. exists []. split; [reflexivity|]. split; [exact Hp|].
    apply (json_equiv_canon (JObj [])).
Qed.

End Testing.

(* ------------------------------------------------------------------ *)
(** ** Examples

    The examples use the answers of the Unicode database up to U+00FF,
    and hold no character beyond. *)

Definition latin1_alnum (c : char) : bool :=
  (c =? 170) || (c =? 178) || (c =? 179) || (c =? 181) || (c =? 185)
  || (c =? 186) || ((188 <=? c) && (c <=? 190))
  || ((192 <=? c) && (c <=? 214)) || ((216 <=? c) && (c <=? 246))
  || ((248 <=? c) && (c <=? 255)).

(** The examples hold no host between brackets and no host outside ASCII:
    the checks of the interpreter are not reached, and pass. *)
Definition no_netloc_error : netloc_checks :=
  NetlocChecks (fun _ => None).

Definition example_now : datetime := DateTime 2017 4 25 9 36 57.

Definition userinfo_url : str := py "https://auth.mozilla.auth0.com/userinfo".

(** A header whose extension data is the JSON text of a list. *)
Definition header_list_ext : str :=
  wire [(py "id", py "c1"); (py "ts", py "1"); (py "nonce", py "42");
        (py "ext", b64encode (py "[1]")); (py "mac", py "00")].

(** A header whose extension data is a mapping with scopes. *)
Definition header_scopes : str :=
  wire [(py "id", py "c1"); (py "ts", py "1"); (py "nonce", py "42");
        (py "ext", b64encode (dumps true
                      (JObj [(py "scopes", JArr [JStr (py "read")])])));
        (py "mac", py "00")].

Definition body_of_header (h : str) : str :=
  json_dumps (JObj [(py "authorization", JStr h)]).

Definition read_scopes : dict json :=
  [(py "scopes", JArr [JStr (py "read")])].

(** The header of a result of [build_header]. *)
Definition built (r : result str) : str :=
  match r with
  | Ok h => h
  | Raise _ => []
  end.

(** A header up to its [mac] part. *)
Definition header_start : str :=
  wire [(py "id", py "c1"); (py "ts", py "1"); (py "nonce", py "42")]
  ++ py ", ".

Definition header_mac (mac : str) : str :=
  header_start ++ format_part (py "mac", mac) ++ [].

Definition last_day : datetime := DateTime 9999 12 31 23 59 59.

Lemma auth0_query_partial_witness :
  mock_auth_auth0 no_netloc_error userinfo_url = Raise index_error /\
  mock_auth_auth0 no_netloc_error
    (userinfo_url ++ py "?access_token=abc&debug")
  = Raise index_error /\
  mock_auth_auth0 no_netloc_error
    (userinfo_url ++ py "?access_token=abc=def")
  = Ok authorized /\
  mock_auth_auth0 no_netloc_error
    (userinfo_url ++ py "?access_token=badtoken=def")
  = Ok unauthorized.
Proof.
  split; [|split; [|split]].
  - apply (proj1 (proj2 (proj2 (auth0_query_partial no_netloc_error
                                  userinfo_url) [] eq_refl))).
    reflexivity.
  - apply (proj1 (proj2 (auth0_query_partial no_netloc_error
                           (userinfo_url ++ py "?access_token=abc&debug"))
                    (py "access_token=abc&debug") eq_refl)).
    vm_compute. apply Exists_cons_tl, Exists_cons_hd.
    intros H. cbv in H. intuition discriminate.
  - apply (proj2 (proj2 (proj2
             (proj2 (auth0_query_partial no_netloc_error
                       (userinfo_url ++ py "?access_token=abc=def"))
                (py "access_token=abc=def") eq_refl)))
             (py "abc") (py "def")).
    + vm_compute; reflexivity.
    + intros H. vm_compute in H. intuition discriminate.
    + intros H. vm_compute in H. intuition discriminate.
  - apply (proj2 (proj2 (proj2
             (proj2 (auth0_query_partial no_netloc_error
                       (userinfo_url ++ py "?access_token=badtoken=def"))
                (py "access_token=badtoken=def") eq_refl)))
             (py "badtoken") (py "def")).
    + vm_compute; reflexivity.
    + intros H. vm_compute in H. intuition discriminate.
    + intros H. vm_compute in H. intuition discriminate.
Defined.

Lemma parse_header_errors_witness :
  parse_header latin1_alnum (py "Bearer abc")
  = Raise (Exc Exception_ (py "Missing Hawk prefix")).
Proof.
  apply (proj1 (parse_header_errors latin1_alnum (py "Bearer abc"))).
  vm_compute; reflexivity.
Defined.

Lemma parse_header_ext_resilient_witness :
  exists client_id,
    dict_get (py "id")
      (dict_of_pairs (findall latin1_alnum
         (wire [(py "id", py "c1"); (py "ts", py "1"); (py "nonce", py "42");
                (py "ext", py "abc"); (py "mac", py "00")])))
    = Some client_id /\
    parse_header latin1_alnum
      (wire [(py "id", py "c1"); (py "ts", py "1"); (py "nonce", py "42");
             (py "ext", py "abc"); (py "mac", py "00")])
    = Ok (client_id, JObj []).
Proof.
  apply (parse_header_ext_resilient latin1_alnum).
  - vm_compute; reflexivity.
  - intros k Hk. vm_compute in Hk. vm_compute.
    repeat (destruct Hk as [<-|Hk]; [tauto|]). destruct Hk.
  - right. exists (py "abc"). split; [vm_compute; reflexivity|]. left. vm_compute; reflexivity.
Defined.





(** C2: the header decodes, to extension data that is a list, and the
    response is a failure with status 401; and on a header whose extension
    data is a mapping the success body has the key [expires] and no key
    [expiresAt]. *)
Lemma taskcluster_success_counterexample :
  (parse_header latin1_alnum header_list_ext = Ok (py "c1", JArr [JInt 1]) /\
   mock_auth_taskcluster latin1_alnum example_now
     (body_of_header header_list_ext)
   = Ok (Response 401 json_headers
           (BodyText (json_dumps
              (failure_body
                 (Exc AttributeError
                    (py "'list' object has no attribute 'get'")))))))
  /\
  (exists b,
     mock_auth_taskcluster latin1_alnum example_now
       (body_of_header header_scopes)
     = Ok (Response 200 json_headers (BodyText (json_dumps (JObj b)))) /\
     map fst b = [py "status"; py "scopes"; py "scheme"; py "clientId";
                  py "expires"] /\
     dict_get (py "expiresAt") b = None).
Proof.
  split; [split; vm_compute; reflexivity|].
  exists [(py "status", JStr (py "auth-success"));
          (py "scopes", JArr [JStr (py "read")]);
          (py "scheme", JStr (py "hawk"));
          (py "clientId", JStr (py "c1"));
          (py "expires", JStr (py "2017-04-26T09:36:57"))].
  repeat split; vm_compute; reflexivity.
Qed.

Lemma taskcluster_success_witness :
  exists expires,
    add_one_day example_now = Ok expires /\
    toordinal expires = toordinal example_now + 1 /\
    (1000 <= dt_year example_now ->
     is_iso_timestamp (strftime_iso expires) = true) /\
    mock_auth_taskcluster latin1_alnum example_now
      (body_of_header header_scopes)
    = Ok (Response 200 json_headers
            (BodyText (json_dumps
               (success_body
                  (scopes_of [(py "scopes", JArr [JStr (py "read")])])
                  (py "c1") (strftime_iso expires))))).
Proof.
  apply (taskcluster_success latin1_alnum example_now
           (body_of_header header_scopes) header_scopes (py "c1")
           [(py "authorization", JStr header_scopes)]
           [(py "scopes", JArr [JStr (py "read")])]).
  - unfold valid_datetime. vm_compute. intuition discriminate.
  - vm_compute; reflexivity.
  - vm_compute; reflexivity.
  - vm_compute; reflexivity.
  - vm_compute; reflexivity.
  - vm_compute; reflexivity.
Defined.


Lemma build_header_wire_witness :
  let parts := signed_parts 1 42 (py "c1") (Some (JObj read_scopes)) in
  exists mac_bytes,
    utf8_encode (join [10] (map snd parts)) = Ok mac_bytes /\
    build_header 1 42 (py "c1") (Some (JObj read_scopes))
    = Ok (wire (parts ++ [(py "mac", sha1_hexdigest mac_bytes)])) /\
    forallb is_hex_digit (sha1_hexdigest mac_bytes) = true /\
    length (sha1_hexdigest mac_bytes) = 40%nat.
Proof.
  apply (build_header_wire 1 42 (py "c1") (Some (JObj read_scopes))).
  - vm_compute; reflexivity.
  - intros e [= <-]. vm_compute; reflexivity.
Defined.

Lemma parse_header_ignores_mac_witness :
  parse_header latin1_alnum (header_mac (py "00"))
  = parse_header latin1_alnum (header_mac (py "ff")).
Proof.
  apply (parse_header_ignores_mac latin1_alnum header_start []
           (py "00") (py "ff")).
  - right.
    exists (wire [(py "id", py "c1"); (py "ts", py "1");
                  (py "nonce", py "42")] ++ py ","), 32.
    split; vm_compute; reflexivity.
  - vm_compute; reflexivity.
  - vm_compute; reflexivity.
Defined.

Lemma header_round_trip_witness :
  exists h decoded,
    build_header 1 42 (py "c1") (Some (JObj read_scopes)) = Ok h /\
    parse_header latin1_alnum h = Ok (py "c1", decoded) /\
    json_equiv (JObj read_scopes) decoded.
Proof.
  apply (header_round_trip latin1_alnum 1 42 (py "c1")
           (Some (JObj read_scopes))).
  - vm_compute; reflexivity.
  - vm_compute; reflexivity.
  - intros e [= <-]. split; vm_compute; reflexivity.
Defined.

Lemma ext_round_trip_witness :
  decode_ext (b64encode (dumps true (JObj read_scopes)))
  = Ok (canon (JObj read_scopes)) /\
  json_equiv (JObj read_scopes) (canon (JObj read_scopes)).
Proof.
  apply (ext_round_trip (JObj read_scopes)). vm_compute; reflexivity.
Defined.

Lemma parse_header_id_text_witness :
  value_text latin1_alnum (py "c1") = true.
Proof.
  apply (parse_header_id_text latin1_alnum header_scopes (py "c1")
           (JObj read_scopes)).
  vm_compute; reflexivity.
Defined.

Lemma build_header_id_lost_witness :
  parse_header latin1_alnum (built (build_header 1 42 (py "a b") None))
  <> Ok (py "a b", JObj []).
Proof.
  apply (build_header_id_lost latin1_alnum 1 42 (py "a b")
           (built (build_header 1 42 (py "a b") None)) None).
  - vm_compute; reflexivity.
  - vm_compute; reflexivity.
Defined.

Lemma parse_header_last_part_wins_witness :
  let parts := [(py "id", py "c1"); (py "ts", py "1"); (py "nonce", py "42");
                (py "mac", py "00"); (py "id", py "c2")] in
  last_value (py "id") parts = Some (py "c2") /\
  JObj [] = match last_value (py "ext") parts with
            | Some x => match decode_ext x with
                        | Ok v => v
                        | Raise _ => JObj []
                        end
            | None => JObj []
            end.
Proof.
  apply (parse_header_last_part_wins latin1_alnum
           [(py "id", py "c1"); (py "ts", py "1"); (py "nonce", py "42");
            (py "mac", py "00"); (py "id", py "c2")] (py "c2") (JObj [])).
  - repeat (apply Forall_cons; [split; vm_compute; reflexivity|]).
    apply Forall_nil.
  - vm_compute; reflexivity.
Defined.

Lemma auth0_last_token_decides_witness :
  mock_auth_auth0 no_netloc_error
    (userinfo_url ++ py "?access_token=abc&access_token=badtoken")
  = Ok (match last_value (py "access_token")
                (map param_pair
                   (query_params
                      (py "access_token=abc&access_token=badtoken"))) with
        | Some v => if str_eqb v (py "badtoken") then unauthorized
                    else authorized
        | None => unauthorized
        end).
Proof.
  apply (auth0_last_token_decides no_netloc_error
           (userinfo_url ++ py "?access_token=abc&access_token=badtoken")
           (py "access_token=abc&access_token=badtoken")).
  - vm_compute; reflexivity.
  - vm_compute.
    repeat (apply Forall_cons; [cbv; tauto|]). apply Forall_nil.
Defined.

Lemma auth0_fragment_ignored_witness :
  mock_auth_auth0 no_netloc_error
    ((userinfo_url ++ py "?access_token=abc") ++ 35 :: py "top")
  = mock_auth_auth0 no_netloc_error (userinfo_url ++ py "?access_token=abc").
Proof.
  apply (auth0_fragment_ignored no_netloc_error
           (userinfo_url ++ py "?access_token=abc") (py "top")).
  intros H. vm_compute in H. intuition discriminate.
Defined.

Lemma auth0_no_question_mark_witness :
  (url_query no_netloc_error (py "https://auth0.com/access_token=abc")
   = Ok [] /\
   mock_auth_auth0 no_netloc_error (py "https://auth0.com/access_token=abc")
   = Raise index_error)
  \/ (exists msg,
        url_query no_netloc_error (py "https://auth0.com/access_token=abc")
        = Raise (Exc ValueError msg) /\
        mock_auth_auth0 no_netloc_error
          (py "https://auth0.com/access_token=abc")
        = Raise (Exc ValueError msg)).
Proof.
  apply (auth0_no_question_mark no_netloc_error
           (py "https://auth0.com/access_token=abc")).
  intros H. vm_compute in H. intuition discriminate.
Defined.

Lemma parse_header_reads_id_ext_only_witness :
  parse_header latin1_alnum (header_start ++ format_part (py "ts", py "1") ++ [])
  = parse_header latin1_alnum
      (header_start ++ format_part (py "ts", py "2000000000") ++ []).
Proof.
  apply (parse_header_reads_id_ext_only latin1_alnum header_start []
           (py "ts") (py "1") (py "2000000000")).
  - vm_compute; reflexivity.
  - right.
    exists (wire [(py "id", py "c1"); (py "ts", py "1");
                  (py "nonce", py "42")] ++ py ","), 32.
    split; vm_compute; reflexivity.
  - vm_compute; reflexivity.
  - intros H. vm_compute in H. discriminate H.
  - intros H. vm_compute in H. discriminate H.
  - vm_compute; reflexivity.
  - vm_compute; reflexivity.
Defined.

Lemma taskcluster_status_200_witness :
  http_code (Response 200 json_headers
               (BodyText (json_dumps
                  (success_body (JArr [JStr (py "read")]) (py "c1")
                     (py "2017-04-26T09:36:57")))))
  = 200 <->
  exists d h client_id ext expires,
    JObj [(py "authorization", JStr header_scopes)] = JObj d /\
    dict_get (py "authorization") d = Some (JStr h) /\
    parse_header latin1_alnum h = Ok (client_id, JObj ext) /\
    add_one_day example_now = Ok expires /\
    Response 200 json_headers
      (BodyText (json_dumps
         (success_body (JArr [JStr (py "read")]) (py "c1")
            (py "2017-04-26T09:36:57"))))
    = Response 200 json_headers
        (BodyText (json_dumps (success_body (scopes_of ext) client_id
                                 (strftime_iso expires)))).
Proof.
  apply (taskcluster_status_200 latin1_alnum example_now
           (body_of_header header_scopes)
           (JObj [(py "authorization", JStr header_scopes)])).
  - vm_compute; reflexivity.
  - vm_compute; reflexivity.
Defined.

Lemma built_header_accepted_witness :
  exists expires,
    add_one_day example_now = Ok expires /\
    mock_auth_taskcluster latin1_alnum example_now
      (json_dumps
         (JObj [(py "authorization",
                 JStr (built (build_header 1 42 (py "c1")
                                (Some (JObj read_scopes)))))]))
    = Ok (Response 200 json_headers
            (BodyText (json_dumps
               (success_body (canon (scopes_of read_scopes)) (py "c1")
                  (strftime_iso expires))))).
Proof.
  apply (built_header_accepted latin1_alnum example_now 1 42 (py "c1")
           (built (build_header 1 42 (py "c1") (Some (JObj read_scopes))))
           (Some read_scopes)).
  - unfold valid_datetime. vm_compute. intuition discriminate.
  - vm_compute; reflexivity.
  - vm_compute; reflexivity.
  - vm_compute; reflexivity.
  - intros d [= <-]. split; vm_compute; reflexivity.
  - vm_compute; reflexivity.
Defined.

Lemma build_header_unencodable_witness :
  exists msg,
    build_header 1 42 [55296] None = Raise (Exc UnicodeError msg).
Proof.
  apply (build_header_unencodable 1 42 [55296] None).
  - intros e H. discriminate H.
  - vm_compute; reflexivity.
Defined.

Lemma taskcluster_reads_header_only_witness :
  mock_auth_taskcluster latin1_alnum example_now
    (body_of_header (header_mac (py "00")))
  = mock_auth_taskcluster latin1_alnum example_now
      (json_dumps (JObj [(py "authorization", JStr (header_mac (py "ff")));
                         (py "other", JInt 1)])).
Proof.
  apply (taskcluster_reads_header_only latin1_alnum example_now
           (body_of_header (header_mac (py "00")))
           (json_dumps (JObj [(py "authorization",
                               JStr (header_mac (py "ff")));
                              (py "other", JInt 1)]))
           (header_mac (py "00")) (header_mac (py "ff"))
           [(py "authorization", JStr (header_mac (py "00")))]
           [(py "authorization", JStr (header_mac (py "ff")));
            (py "other", JInt 1)]);
    vm_compute; reflexivity.
Defined.

Lemma taskcluster_last_day_witness :
  mock_auth_taskcluster latin1_alnum last_day (body_of_header header_scopes)
  = Ok (Response 401 json_headers
          (BodyText (json_dumps
             (failure_body
                (Exc OverflowError (py "date value out of range")))))).
Proof.
  apply (taskcluster_last_day latin1_alnum last_day
           (body_of_header header_scopes) header_scopes
           [(py "authorization", JStr header_scopes)] (py "c1")
           (JObj read_scopes));
    vm_compute; reflexivity.
Defined.

Lemma build_header_key_order_witness :
  build_header 1 42 (py "c1")
    (Some (JObj [(py "a", JInt 1); (py "b", JInt 2)]))
  = build_header 1 42 (py "c1")
      (Some (JObj [(py "b", JInt 2); (py "a", JInt 1)])).
Proof.
  apply (build_header_key_order 1 42 (py "c1")
           (JObj [(py "a", JInt 1); (py "b", JInt 2)])
           (JObj [(py "b", JInt 2); (py "a", JInt 1)])).
  - vm_compute; reflexivity.
  - apply equiv_obj with (d2' := [(py "a", JInt 1); (py "b", JInt 2)]).
    + apply perm_swap.
    + repeat (apply Forall2_cons; [split; [reflexivity|constructor]|]).
      apply Forall2_nil.
Defined.

Lemma build_header_format_witness :
  let parts := signed_parts 1 42 (py "c1") (Some (JObj read_scopes)) in
  is_ok (build_header 1 42 (py "c1") (Some (JObj read_scopes)))
  = encodable (py "c1")
  /\
  forall h,
    build_header 1 42 (py "c1") (Some (JObj read_scopes)) = Ok h ->
    exists mac_bytes,
      utf8_encode (join [10] (map snd parts)) = Ok mac_bytes /\
      h = wire (parts ++ [(py "mac", sha1_hexdigest mac_bytes)]) /\
      forallb is_hex_digit (sha1_hexdigest mac_bytes) = true /\
      length (sha1_hexdigest mac_bytes) = 40%nat.
Proof.
  apply (build_header_format 1 42 (py "c1") (Some (JObj read_scopes))).
  intros e [= <-]. vm_compute; reflexivity.
Defined.

Lemma round_trip_witness :
  exists h decoded,
    build_header 1 42 (py "c1") (option_map JObj (Some read_scopes)) = Ok h /\
    parse_header latin1_alnum h = Ok (py "c1", JObj decoded) /\
    json_equiv (JObj read_scopes) (JObj decoded).
Proof.
  apply (round_trip latin1_alnum 1 42 (py "c1") (Some read_scopes)).
  - vm_compute; reflexivity.
  - vm_compute; reflexivity.
  - intros d [= <-]. split; vm_compute; reflexivity.
Defined.

(** C1: an identifier with a space is not found by the pattern, and
    [parse_header] refuses the header built with it; and extension data
    whose base64 text holds a plus sign comes back as the empty mapping. *)
Lemma round_trip_counterexample :
  parse_header latin1_alnum (built (build_header 1 42 (py "a b") None))
  = Raise (missing_part (py "id")) /\
  (exists h,
     build_header 1 42 (py "c1") (Some (JObj [(py "ab", JStr (py "~"))]))
     = Ok h /\
     existsb (N.eqb 43)
       (b64encode (dumps true (JObj [(py "ab", JStr (py "~"))]))) = true /\
     parse_header latin1_alnum h = Ok (py "c1", JObj [])).
Proof.
  split; [vm_compute; reflexivity|].
  exists (built (build_header 1 42 (py "c1")
                   (Some (JObj [(py "ab", JStr (py "~"))])))).
  repeat split; vm_compute; reflexivity.
Qed.
